(** * Block shipping and tenant TSDB lifecycle of the ingester

    A shallow embedding of the ingester's block shipper ([Shipper.Sync] and
    the shipper meta files) and of the per-tenant TSDB wrapper
    ([userTSDB]: state machine, append permits, forced head compaction and
    the idle-close decision), followed by the properties proved about them.

    Conventions of the embedding:
    - a Go [int64] is a [Z]; where the source can leave the 64-bit range the
      wrap-around is written out with [wrap64];
    - a [ulid.ULID] (16 bytes, big endian) is the 128-bit number it spells,
      an [N]; its timestamp is the upper 48 bits;
    - a [time.Time] is the number of nanoseconds since the Unix epoch, a
      [model.Time] the number of milliseconds;
    - Go maps are [gmap]s; a Go [error] is a value of [error], [nil] is
      [None];
    - the file system, the bucket, the wall clock and the TSDB are
      collaborators: their state is threaded explicitly ([World]) and what
      they answer in one call is fixed by an oracle ([Env]). *)

From Stdlib Require Import ZArith List String Lia.
From stdpp Require Import base gmap strings list sorting pretty.

Local Open Scope Z_scope.

(* stdpp's solvers clear hypotheses that are already gone. *)
#[local] Set Warnings "-clear-no-such-hyp".

(** ** Errors and results *)

Inductive error : Type :=
| ErrNotExist                                (* os.ErrNotExist *)
| ErrNew (msg : string)                      (* errors.New, errors.Errorf, or any leaf error *)
| ErrWrap (msg : string) (cause : error).    (* errors.Wrap, errors.Wrapf *)

Inductive result (A : Type) : Type :=
| Ok (a : A)
| Err (e : error).
Arguments Ok {A} a.
Arguments Err {A} e.

(** [errors.Is(err, os.ErrNotExist)]: the chain of causes is searched. *)
Fixpoint errors_Is_NotExist (e : error) : bool :=
  match e with
  | ErrNotExist => true
  | ErrNew _ => false
  | ErrWrap _ cause => errors_Is_NotExist cause
  end.

(** ** 64-bit integers and time *)

Definition wrap64 (z : Z) : Z := (z + 2 ^ 63) `mod` 2 ^ 64 - 2 ^ 63.

Definition in_int64 (z : Z) : Prop := - 2 ^ 63 <= z < 2 ^ 63.

(** [time.Time.UnixNano]: nanoseconds since the epoch as an [int64]. *)
Definition UnixNano (t : Z) : Z := wrap64 t.

(** [model.TimeFromUnixNano]: [Time(t / 1e6)], Go's truncating division. *)
Definition TimeFromUnixNano (ns : Z) : Z := ns `quot` 1000000.

(** [model.Time.Time]: the instant [t] milliseconds after the epoch. *)
Definition model_Time_Time (t : Z) : Z := t * 1000000.

Module Shipper.

(** ** Data model of the shipper *)

Definition OutOfOrderExternalLabelKey : string := "__out_of_order__".
Definition OutOfOrderExternalLabelValue : string := "true".

Definition thanosShipperMetaFilename : string := "thanos.shipper.json".
Definition shipperMetaFilename : string := "mimir.shipper.json".
Definition shipperMetaVersion1 : Z := 1.

(** The Thanos section of a block's [meta.json]. *)
Record ThanosMeta : Type := mkThanosMeta {
  Source : string;
  SegmentFiles : list string;
  Labels : gmap string string
}.

(** The fields of [metadata.Meta] the shipper looks at. *)
Record Meta : Type := mkMeta {
  ULID : N;
  MinTime : Z;
  NumSamples : N;               (* Stats.NumSamples, uint64 *)
  Level : Z;                    (* Compaction.Level *)
  FromOutOfOrder : bool;        (* Compaction.FromOutOfOrder() *)
  Thanos : ThanosMeta
}.

(** [thanosShipperMeta]: the legacy [thanos.shipper.json]. *)
Record thanosShipperMeta : Type := mkThanosShipperMeta {
  tVersion : Z;
  Uploaded : list N
}.

(** [shipperMeta]: [mimir.shipper.json]. *)
Record shipperMeta : Type := mkShipperMeta {
  Version : Z;
  Shipped : gmap N Z
}.

(** What reading and decoding a JSON file of type [A] can give:
    [os.ReadFile] fails because the file is missing, or for another reason;
    [json.Unmarshal] fails; or a value is decoded. Encoding then decoding a
    value is taken to give the value back. *)
Inductive file_state (A : Type) : Type :=
| FileMissing
| FileUnreadable (e : error)
| FileMalformed (e : error)
| FileJSON (a : A).
Arguments FileMissing {A}.
Arguments FileUnreadable {A} e.
Arguments FileMalformed {A} e.
Arguments FileJSON {A} a.

(** The point at which writing a meta file fails, if any: the calls of
    [writeShipperMetaFile] / [writeThanosShipperMetaFile] and [renameFile],
    in the order they are made. *)
Inductive write_fault : Type :=
| WNoFault
| WCreate (e : error)        (* os.Create of the temporary file *)
| WEncode (e : error)        (* json Encode *)
| WClose (e : error)         (* f.Close *)
| WRemoveAll (e : error)     (* os.RemoveAll of the target *)
| WRename (e : error)        (* os.Rename, the target is already removed *)
| WOpenDir (e : error)       (* fileutil.OpenDir of the parent *)
| WFdatasync (e : error)     (* fileutil.Fdatasync of the parent *)
| WDirClose (e : error).     (* pdir.Close *)

(** One entry of the tenant directory, with what the calls made on it by
    [blockMetasFromOldest] answer. *)
Record DirEntry : Type := mkDirEntry {
  de_name : string;
  de_IsBlockDir : bool;          (* block.IsBlockDir(name) *)
  de_Stat : result bool;         (* os.Stat, then fi.IsDir() *)
  de_ReadFromDir : result Meta   (* metadata.ReadFromDir *)
}.

Inductive event : Type :=
| EvExists (id : N)                    (* bucket.Exists on the block's meta.json *)
| EvUpload (m : Meta)                  (* block.Upload with the enriched meta *)
| EvWriteMeta (m : shipperMeta)        (* writeShipperMetaFile *)
| EvWarn (msg : string) (e : error)    (* level.Warn *)
| EvError (msg : string) (id : N) (e : error).   (* level.Error *)

(** The shipper's fields that matter ([logger], [metrics] and [bucket] are
    collaborators). *)
Record Config : Type := mkConfig {
  dir : string;
  source : string;
  addOOOLabel : bool
}.

(** What the collaborators answer during one call. *)
Record Env : Type := mkEnv {
  clock : nat -> Z;                       (* the k-th reading of the wall clock *)
  ReadDir : result (list DirEntry);       (* os.ReadDir of the tenant directory *)
  exists_fault : N -> option error;       (* bucket.Exists fails *)
  upload_fault : N -> option error;       (* block.Upload fails *)
  GetSegmentFiles : N -> list string;     (* block.GetSegmentFiles *)
  mimir_write_fault : write_fault;
  thanos_write_fault : write_fault
}.

(** The state the collaborators hold between calls. [bucket] is the set of
    blocks whose [meta.json] object is in the bucket; [ticks] counts the
    readings of the clock; [trace] is the history of calls. *)
Record World : Type := mkWorld {
  mimir_file : file_state shipperMeta;
  thanos_file : file_state thanosShipperMeta;
  bucket : gset N;
  ticks : nat;
  trace : list event
}.

Definition emit (ev : event) (w : World) : World :=
  mkWorld (mimir_file w) (thanos_file w) (bucket w) (ticks w) (trace w ++ [ev]).

Definition set_bucket (b : gset N) (w : World) : World :=
  mkWorld (mimir_file w) (thanos_file w) b (ticks w) (trace w).

Definition set_mimir_file (f : file_state shipperMeta) (w : World) : World :=
  mkWorld f (thanos_file w) (bucket w) (ticks w) (trace w).

Definition set_thanos_file (f : file_state thanosShipperMeta) (w : World) : World :=
  mkWorld (mimir_file w) f (bucket w) (ticks w) (trace w).

(** [time.Now()]. *)
Definition time_Now (env : Env) (w : World) : Z * World :=
  (clock env (ticks w),
   mkWorld (mimir_file w) (thanos_file w) (bucket w) (S (ticks w)) (trace w)).

(** [model.Now()]. *)
Definition model_Now (env : Env) (w : World) : Z * World :=
  let '(t, w') := time_Now env w in (TimeFromUnixNano (UnixNano t), w').

Definition filepath_Join (d name : string) : string := d +:+ "/" +:+ name.

(** ** Reading the meta files *)

Definition readShipperMetaFile (dir : string) (w : World) : result shipperMeta :=
  let fpath := filepath_Join dir shipperMetaFilename in
  match mimir_file w with
  | FileMissing => Err (ErrWrap ("failed to read " +:+ fpath) ErrNotExist)
  | FileUnreadable e => Err (ErrWrap ("failed to read " +:+ fpath) e)
  | FileMalformed e => Err (ErrWrap ("failed to parse " +:+ fpath +:+ " as JSON") e)
  | FileJSON m =>
      if decide (Version m ≠ shipperMetaVersion1)
      then Err (ErrNew ("unexpected meta file version " +:+ pretty (Version m)))
      else Ok m
  end.

Definition readThanosShipperMetaFile (dir : string) (w : World)
  : result thanosShipperMeta :=
  let fpath := filepath_Join dir thanosShipperMetaFilename in
  match thanos_file w with
  | FileMissing => Err (ErrWrap ("failed to read " +:+ fpath) ErrNotExist)
  | FileUnreadable e => Err (ErrWrap ("failed to read " +:+ fpath) e)
  | FileMalformed e => Err (ErrWrap ("failed to parse " +:+ fpath +:+ " as JSON") e)
  | FileJSON m =>
      if decide (tVersion m ≠ shipperMetaVersion1)
      then Err (ErrNew ("unexpected meta file version " +:+ pretty (tVersion m)))
      else Ok m
  end.

(** The loop of [readThanosShippedBlocks]: every listed block gets the
    time of its own reading of the clock. *)
Fixpoint stamp_uploaded (env : Env) (ids : list N) (acc : gmap N Z) (w : World)
  : gmap N Z * World :=
  match ids with
  | [] => (acc, w)
  | blockID :: rest =>
      let '(t, w') := time_Now env w in
      stamp_uploaded env rest (<[blockID := t]> acc) w'
  end.

Definition readThanosShippedBlocks (dir : string) (env : Env) (w : World)
  : result (gmap N Z) * World :=
  match readThanosShipperMetaFile dir w with
  | Err e =>
      if errors_Is_NotExist e
      then (Ok ∅, w)      (* the shipper has not run yet: an empty meta *)
      else (Err e, w)
  | Ok meta =>
      let '(shippedBlocks, w') := stamp_uploaded env (Uploaded meta) ∅ w in
      (Ok shippedBlocks, w')
  end.

Definition readShippedBlocks (dir : string) (env : Env) (w : World)
  : result (gmap N Z) * World :=
  match readShipperMetaFile dir w with
  | Err _ => readThanosShippedBlocks dir env w
  | Ok meta => (Ok (model_Time_Time <$> Shipped meta), w)
  end.

(** ** Writing the meta files *)

(** [renameFile]: the target is removed, the temporary file renamed onto
    it, and the parent directory synced. Gives the error, if any, and the
    target as it is left. *)
Definition renameFile {A : Type} (fault : write_fault) (new : A)
    (old : file_state A) : option error * file_state A :=
  match fault with
  | WRemoveAll e => (Some e, old)
  | WRename e => (Some e, FileMissing)
  | WOpenDir e => (Some e, FileJSON new)
  | WFdatasync e => (Some e, FileJSON new)
  | WDirClose e => (Some e, FileJSON new)
  | _ => (None, FileJSON new)
  end.

(** The part common to both writers: create the temporary file, encode,
    close, then [renameFile]. *)
Definition write_json_file {A : Type} (fault : write_fault) (new : A)
    (old : file_state A) : option error * file_state A :=
  match fault with
  | WCreate e => (Some e, old)
  | WEncode e => (Some e, old)
  | WClose e => (Some e, old)
  | _ => renameFile fault new old
  end.

Definition writeThanosShipperMetaFile (env : Env) (meta : thanosShipperMeta)
    (w : World) : option error * World :=
  let '(err, f) := write_json_file (thanos_write_fault env) meta (thanos_file w) in
  (err, set_thanos_file f w).

(** [writeShipperMetaFile]. The legacy list is filled by ranging over the
    Go map, whose order is not specified; the model lists the keys in the
    order of [map_to_list]. *)
Definition writeShipperMetaFile (env : Env) (meta : shipperMeta) (w : World)
  : option error * World :=
  let w := emit (EvWriteMeta meta) w in
  match mimir_write_fault env with
  | WCreate e => (Some e, w)
  | WEncode e => (Some e, w)
  | WClose e => (Some e, w)
  | fault =>
      let '(err, f) := renameFile fault meta (mimir_file w) in
      let w := set_mimir_file f w in
      match err with
      | Some e => (Some (ErrWrap "writing mimir shipped meta file" e), w)
      | None =>
          let thanosMeta :=
            mkThanosShipperMeta shipperMetaVersion1 (map_to_list (Shipped meta)).*1 in
          match writeThanosShipperMetaFile env thanosMeta w with
          | (Some e, w) => (Some (ErrWrap "writing thanos shipped meta file" e), w)
          | (None, w) => (None, w)
          end
      end
  end.

(** ** Listing the local blocks *)

(** The second loop of [blockMetasFromOldest], over the names. *)
Fixpoint read_metas (cfg : Config) (names : list DirEntry) (metas : list Meta)
  : result (list Meta) :=
  match names with
  | [] => Ok metas
  | n :: rest =>
      if negb (de_IsBlockDir n) then read_metas cfg rest metas
      else
        let d := filepath_Join (dir cfg) (de_name n) in
        match de_Stat n with
        | Err e => Err (ErrWrap ("stat block " +:+ d) e)
        | Ok false => read_metas cfg rest metas
        | Ok true =>
            match de_ReadFromDir n with
            | Err e => Err (ErrWrap ("read metadata for block " +:+ d) e)
            | Ok m => read_metas cfg rest (metas ++ [m])
            end
        end
  end.

Definition MinTime_le (a b : Meta) : Prop := MinTime a <= MinTime b.

Global Instance MinTime_le_dec : RelDecision MinTime_le.
Proof. intros a b. unfold MinTime_le. apply _. Defined.

(** [sort.Slice] by [MinTime]: Go does not say in which order blocks of
    equal [MinTime] come out; the model uses a merge sort. *)
Definition sort_by_MinTime (metas : list Meta) : list Meta :=
  merge_sort MinTime_le metas.

Definition blockMetasFromOldest (cfg : Config) (env : Env) : result (list Meta) :=
  match ReadDir env with
  | Err e => Err (ErrWrap "read dir" e)
  | Ok fis =>
      match read_metas cfg fis [] with
      | Err e => Err e
      | Ok metas => Ok (sort_by_MinTime metas)
      end
  end.

(** ** Upload *)

(** The meta handed to [block.Upload]: source, segment files and, when
    configured and the block comes from out-of-order data, the extra
    external label. *)
Definition enrich (cfg : Config) (env : Env) (meta : Meta) : Meta :=
  let th := Thanos meta in
  let labels :=
    if addOOOLabel cfg && FromOutOfOrder meta
    then <[OutOfOrderExternalLabelKey := OutOfOrderExternalLabelValue]> (Labels th)
    else Labels th in
  mkMeta (ULID meta) (MinTime meta) (NumSamples meta) (Level meta)
    (FromOutOfOrder meta)
    (mkThanosMeta (source cfg) (GetSegmentFiles env (ULID meta)) labels).

(** [Shipper.upload]. The source writes the extra fields into the meta it
    was handed; [Sync] does not read them afterwards. A successful
    [block.Upload] leaves the block's [meta.json] in the bucket; a failed
    one is taken to leave none. *)
Definition upload (cfg : Config) (env : Env) (meta : Meta) (w : World)
  : option error * World :=
  let w := emit (EvUpload (enrich cfg env meta)) w in
  match upload_fault env (ULID meta) with
  | Some e => (Some e, w)
  | None => (None, set_bucket ({[ULID meta]} ∪ bucket w) w)
  end.

(** [bucket.Exists] on the block's [meta.json]. *)
Definition bucket_Exists (env : Env) (id : N) (w : World) : result bool * World :=
  let w := emit (EvExists id) w in
  match exists_fault env id with
  | Some e => (Err e, w)
  | None => (Ok (bool_decide (id ∈ bucket w)), w)
  end.

(** ** Sync *)

(** The variables of [Sync] that its loop updates: [meta.Shipped],
    [shipped], [uploadErrs], and the collaborators' state. *)
Record LoopState : Type := mkLoopState {
  ls_Shipped : gmap N Z;
  ls_shipped : Z;
  ls_uploadErrs : Z;
  ls_world : World
}.

(** How one iteration ends: with [continue] or the end of the body, or
    with the [return] after a failed existence check. *)
Inductive step : Type :=
| Continue (st : LoopState)
| Abort (e : error) (w : World).

(** The body of the loop of [Sync] for one block. *)
Definition sync_block (cfg : Config) (env : Env) (shippedBlocks : gmap N Z)
    (m : Meta) (st : LoopState) : step :=
  match shippedBlocks !! ULID m with
  | Some shippedTime =>
      Continue (mkLoopState
        (<[ULID m := TimeFromUnixNano (UnixNano shippedTime)]> (ls_Shipped st))
        (ls_shipped st) (ls_uploadErrs st) (ls_world st))
  | None =>
      if decide (NumSamples m = 0%N) then Continue st
      else if decide (Level m > 1) then Continue st
      else
        match bucket_Exists env (ULID m) (ls_world st) with
        | (Err e, w) => Abort (ErrWrap "check exists" e) w
        | (Ok true, w) =>
            let '(now, w) := model_Now env w in
            Continue (mkLoopState (<[ULID m := now]> (ls_Shipped st))
                        (ls_shipped st + 1) (ls_uploadErrs st) w)
        | (Ok false, w) =>
            match upload cfg env m w with
            | (Some e, w) =>
                Continue (mkLoopState (ls_Shipped st) (ls_shipped st)
                            (ls_uploadErrs st + 1)
                            (emit (EvError "shipping failed" (ULID m) e) w))
            | (None, w) =>
                let '(now, w) := model_Now env w in
                Continue (mkLoopState (<[ULID m := now]> (ls_Shipped st))
                            (ls_shipped st + 1) (ls_uploadErrs st) w)
            end
        end
  end.

Fixpoint sync_loop (cfg : Config) (env : Env) (shippedBlocks : gmap N Z)
    (metas : list Meta) (st : LoopState) : step :=
  match metas with
  | [] => Continue st
  | m :: rest =>
      match sync_block cfg env shippedBlocks m st with
      | Continue st' => sync_loop cfg env shippedBlocks rest st'
      | Abort e w => Abort e w
      end
  end.

(** The first statement of [Sync]: the previously shipped blocks, reset to
    an empty map when reading them fails. *)
Definition loadShippedBlocks (cfg : Config) (env : Env) (w : World)
  : gmap N Z * World :=
  match readShippedBlocks (dir cfg) env w with
  | (Err e, w) => (∅, emit (EvWarn "reading meta file failed, will override it" e) w)
  | (Ok shippedBlocks, w) => (shippedBlocks, w)
  end.

(** The statement of [Sync] after its loop: the meta file is written, a
    failure is logged and otherwise ignored. *)
Definition updateMetaFile (env : Env) (meta : shipperMeta) (w : World) : World :=
  match writeShipperMetaFile env meta w with
  | (Some e, w) => emit (EvWarn "updating meta file failed" e) w
  | (None, w) => w
  end.

(** [Shipper.Sync]: the returned pair [(shipped, err)] and the
    collaborators' state after the call. The counters of [metrics] are
    left out. *)
Definition Sync (cfg : Config) (env : Env) (w : World)
  : (Z * option error) * World :=
  let '(shippedBlocks, w) := loadShippedBlocks cfg env w in
  match blockMetasFromOldest cfg env with
  | Err e => ((0, Some e), w)
  | Ok metas =>
      match sync_loop cfg env shippedBlocks metas (mkLoopState ∅ 0 0 w) with
      | Abort e w => ((0, Some e), w)
      | Continue st =>
          let meta := mkShipperMeta shipperMetaVersion1 (ls_Shipped st) in
          let w := updateMetaFile env meta (ls_world st) in
          if decide (ls_uploadErrs st > 0)
          then ((ls_shipped st,
                 Some (ErrNew ("failed to sync " +:+ pretty (ls_uploadErrs st) +:+ " blocks"))),
                w)
          else ((ls_shipped st, None), w)
      end
  end.

End Shipper.

Module Ingester.

(** ** The per-tenant TSDB wrapper *)

(** [ULID.Time]: the first six bytes, milliseconds since the epoch. *)
Definition ULID_Time (id : N) : N := N.shiftr id 80.

(** [tsdbState]: the five values the source stores in the field. *)
Inductive tsdbState : Type :=
| active             (* Pushes are allowed. *)
| activeShipping     (* Pushes are allowed. Blocks shipping is in progress. *)
| forceCompacting    (* TSDB is being force-compacted. *)
| closing            (* Used while closing idle TSDB. *)
| closed.            (* Terminal. *)

Global Instance tsdbState_eq_dec : EqDecision tsdbState.
Proof. solve_decision. Defined.

Inductive tsdbCloseCheckResult : Type :=
| tsdbIdle
| tsdbShippingDisabled
| tsdbNotIdle
| tsdbNotCompacted
| tsdbNotShipped
| tsdbCheckFailed
| tsdbCloseFailed
| tsdbNotActive
| tsdbDataRemovalFailed
| tsdbTenantMarkedForDeletion
| tsdbIdleClosed.

Global Instance tsdbCloseCheckResult_eq_dec : EqDecision tsdbCloseCheckResult.
Proof. solve_decision. Defined.

Definition shouldClose (r : tsdbCloseCheckResult) : bool :=
  bool_decide (r = tsdbIdle) || bool_decide (r = tsdbTenantMarkedForDeletion).

(** The operations of [tsdb.DB] (and of its head) that [userTSDB] calls.
    [CompactHead d mint maxt] stands for
    [d.CompactHead(tsdb.NewRangeHead(d.Head(), mint, maxt))] and gives the
    database afterwards and the error. *)
Class TSDB (DB : Type) : Type := {
  Dir : DB -> string;
  HeadNumSeries_db : DB -> N;
  HeadMinTime_db : DB -> Z;
  HeadMaxTime_db : DB -> Z;
  Blocks_db : DB -> list N;
  CompactHead : DB -> Z -> Z -> DB * option error
}.

(** The head of a tenant that keeps no blocks on disk. *)
Record HeadOnly : Type := mkHeadOnly {
  ho_NumSeries : N;
  ho_MinTime : Z;
  ho_MaxTime : Z
}.

(** The fields [db] and [head] of [userTSDB]: one of them is set. *)
Inductive store (DB : Type) : Type :=
| OnDisk (d : DB)         (* head == nil *)
| InMemory (h : HeadOnly).  (* head != nil *)
Arguments OnDisk {DB} d.
Arguments InMemory {DB} h.

Record userTSDB (DB : Type) : Type := mkUserTSDB {
  u_store : store DB;
  u_state : tsdbState;
  u_pushesInFlight : Z;          (* the counter of the WaitGroup *)
  u_lastUpdate : Z;              (* Unix seconds *)
  u_deletionMarkFound : bool;
  u_shippedBlocks : gmap N Z     (* the cached shipped blocks; only the keys are read *)
}.
Arguments mkUserTSDB {DB}.
Arguments u_store {DB}.
Arguments u_state {DB}.
Arguments u_pushesInFlight {DB}.
Arguments u_lastUpdate {DB}.
Arguments u_deletionMarkFound {DB}.
Arguments u_shippedBlocks {DB}.

(** How a call ends: it returns, it panics, or it waits for another
    goroutine, which a sequential run never leaves. *)
Inductive outcome : Type :=
| Returned (err : option error)
| Panicked (msg : string)
| Blocked.

(** 64-bit arithmetic of Go: [/] truncates towards zero; all wrap. *)
Definition int64_div (a b : Z) : Z := wrap64 (a `quot` b).
Definition int64_mul (a b : Z) : Z := wrap64 (a * b).
Definition int64_add (a b : Z) : Z := wrap64 (a + b).
Definition int64_sub (a b : Z) : Z := wrap64 (a - b).

(** [(t/blockDuration)*blockDuration]. *)
Definition align (t blockDuration : Z) : Z :=
  int64_mul (int64_div t blockDuration) blockDuration.

(** [((minTime/blockDuration)+1)*blockDuration - 1]. *)
Definition blockMaxTime (minTime blockDuration : Z) : Z :=
  int64_sub (int64_mul (int64_add (int64_div minTime blockDuration) 1) blockDuration) 1.

Section UserTSDB.
Context {DB : Type} `{!TSDB DB}.

Definition set_state (s : tsdbState) (u : userTSDB DB) : userTSDB DB :=
  mkUserTSDB (u_store u) s (u_pushesInFlight u) (u_lastUpdate u)
    (u_deletionMarkFound u) (u_shippedBlocks u).

Definition set_store (s : store DB) (u : userTSDB DB) : userTSDB DB :=
  mkUserTSDB s (u_state u) (u_pushesInFlight u) (u_lastUpdate u)
    (u_deletionMarkFound u) (u_shippedBlocks u).

Definition set_pushesInFlight (n : Z) (u : userTSDB DB) : userTSDB DB :=
  mkUserTSDB (u_store u) (u_state u) n (u_lastUpdate u)
    (u_deletionMarkFound u) (u_shippedBlocks u).

Definition set_shippedBlocks (m : gmap N Z) (u : userTSDB DB) : userTSDB DB :=
  mkUserTSDB (u_store u) (u_state u) (u_pushesInFlight u) (u_lastUpdate u)
    (u_deletionMarkFound u) m.

Definition HeadNumSeries (u : userTSDB DB) : N :=
  match u_store u with
  | InMemory h => ho_NumSeries h
  | OnDisk d => HeadNumSeries_db d
  end.

Definition Blocks (u : userTSDB DB) : list N :=
  match u_store u with
  | InMemory _ => []
  | OnDisk d => Blocks_db d
  end.

Definition casState (from to : tsdbState) (u : userTSDB DB) : bool * userTSDB DB :=
  if decide (u_state u ≠ from) then (false, u)
  else (true, set_state to u).

(** The loop of [compactHead] and the compaction after it. [calls] lists
    the ranges handed to [CompactHead] so far. [None]: more than [fuel]
    turns of the loop. *)
Fixpoint compactHead_loop (fuel : nat) (blockDuration : Z) (d : DB)
    (minTime maxTime : Z) (calls : list (Z * Z))
  : option (option error * DB * list (Z * Z)) :=
  if decide (align minTime blockDuration ≠ align maxTime blockDuration) then
    match fuel with
    | O => None
    | S fuel' =>
        let blockMaxTime := blockMaxTime minTime blockDuration in
        match CompactHead d minTime blockMaxTime with
        | (d', Some err) => Some (Some err, d', calls ++ [(minTime, blockMaxTime)])
        | (d', None) =>
            compactHead_loop fuel' blockDuration d'
              (HeadMinTime_db d') (HeadMaxTime_db d')
              (calls ++ [(minTime, blockMaxTime)])
        end
    end
  else
    let '(d', err) := CompactHead d minTime maxTime in
    Some (err, d', calls ++ [(minTime, maxTime)]).

(** [compactHead]: the outcome, the [userTSDB] afterwards and the ranges
    compacted, in order. The deferred [casState(forceCompacting, active)]
    runs when the function returns or panics. *)
Definition compactHead (fuel : nat) (blockDuration : Z) (u : userTSDB DB)
  : option (outcome * userTSDB DB * list (Z * Z)) :=
  match u_store u with
  | InMemory _ => Some (Returned None, u, [])
  | OnDisk d =>
      match casState active forceCompacting u with
      | (false, u) =>
          Some (Returned (Some (ErrNew
            "TSDB head cannot be compacted because it is not in active state (possibly being closed or blocks shipping in progress)")),
            u, [])
      | (true, u) =>
          if decide (u_pushesInFlight u ≠ 0) then Some (Blocked, u, [])
          else if decide (blockDuration = 0) then
            Some (Panicked "runtime error: integer divide by zero",
                  (casState forceCompacting active u).2, [])
          else
            match compactHead_loop fuel blockDuration d
                    (HeadMinTime_db d) (HeadMaxTime_db d) [] with
            | None => None
            | Some (err, d', calls) =>
                Some (Returned err,
                      (casState forceCompacting active (set_store (OnDisk d') u)).2,
                      calls)
            end
      end
  end.

(** [updateCachedShippedBlocks]: reads the shipper meta file of the
    tenant's directory. *)
Definition updateCachedShippedBlocks (env : Shipper.Env) (u : userTSDB DB)
    (w : Shipper.World) : option error * userTSDB DB * Shipper.World :=
  match u_store u with
  | InMemory _ => (None, u, w)
  | OnDisk d =>
      match Shipper.readShippedBlocks (Dir d) env w with
      | (Err e, w) => (Some e, u, w)
      | (Ok shippedBlocks, w) => (None, set_shippedBlocks shippedBlocks u, w)
      end
  end.

Definition getCachedShippedBlocks (u : userTSDB DB) : gmap N Z :=
  match u_store u with
  | InMemory _ => ∅
  | OnDisk _ => u_shippedBlocks u
  end.

(** The loop of [getOldestUnshippedBlockTime]. *)
Fixpoint oldest_unshipped (shippedBlocks : gmap N Z) (blocks : list N)
    (oldestTs : N) : N :=
  match blocks with
  | [] => oldestTs
  | b :: rest =>
      match shippedBlocks !! b with
      | Some _ => oldest_unshipped shippedBlocks rest oldestTs
      | None =>
          if decide (oldestTs = 0 ∨ ULID_Time b < oldestTs)%N
          then oldest_unshipped shippedBlocks rest (ULID_Time b)
          else oldest_unshipped shippedBlocks rest oldestTs
      end
  end.

Definition getOldestUnshippedBlockTime (u : userTSDB DB) : N :=
  match u_store u with
  | InMemory _ => 0%N
  | OnDisk _ => oldest_unshipped (getCachedShippedBlocks u) (Blocks u) 0%N
  end.

(** [isIdle]: [time.Unix(lu, 0).Add(idle).Before(now)], with [now] and the
    sum as instants in nanoseconds and [idle] a duration in nanoseconds. *)
Definition isIdle (now idle : Z) (u : userTSDB DB) : bool :=
  bool_decide (u_lastUpdate u * 1000000000 + idle < now).

(** [setLastUpdate]: [t.Unix()], whole seconds. *)
Definition setLastUpdate (t : Z) (u : userTSDB DB) : userTSDB DB :=
  mkUserTSDB (u_store u) (u_state u) (u_pushesInFlight u) (t `div` 1000000000)
    (u_deletionMarkFound u) (u_shippedBlocks u).

(** [shouldCloseTSDB]; [now] is what [time.Now()] gives. *)
Definition shouldCloseTSDB (now idleTimeout : Z) (u : userTSDB DB)
  : tsdbCloseCheckResult :=
  if u_deletionMarkFound u then tsdbTenantMarkedForDeletion
  else if negb (isIdle now idleTimeout u) then tsdbNotIdle
  else
    match u_store u with
    | InMemory _ => tsdbIdle
    | OnDisk _ =>
        if decide (0 < HeadNumSeries u)%N then tsdbNotCompacted
        else if decide (0 < getOldestUnshippedBlockTime u)%N then tsdbNotShipped
        else tsdbIdle
    end.

Definition acquireAppendLock (u : userTSDB DB) : option error * userTSDB DB :=
  match u_state u with
  | active | activeShipping =>
      (None, set_pushesInFlight (u_pushesInFlight u + 1) u)
  | forceCompacting => (Some (ErrNew "forced compaction in progress"), u)
  | closing => (Some (ErrNew "TSDB is closing"), u)
  | closed => (Some (ErrNew "TSDB is not active"), u)
  end.

(** [releaseAppendLock]: [WaitGroup.Done] panics on a negative counter. *)
Definition releaseAppendLock (u : userTSDB DB) : outcome * userTSDB DB :=
  if decide (u_pushesInFlight u - 1 < 0)
  then (Panicked "sync: negative WaitGroup counter", u)
  else (Returned None, set_pushesInFlight (u_pushesInFlight u - 1) u).

End UserTSDB.

End Ingester.

(** * Observations on a run *)

Module Run.
Import Shipper.

(** The events a call added to the trace. *)
Definition events_since (w w' : World) : list event :=
  drop (length (trace w)) (trace w').

(** The blocks handed to [block.Upload], in order. *)
Definition uploads (evs : list event) : list N :=
  omap (λ ev, match ev with EvUpload m => Some (ULID m) | _ => None end) evs.

(** The blocks whose existence in the bucket was checked, in order. *)
Definition checks (evs : list event) : list N :=
  omap (λ ev, match ev with EvExists id => Some id | _ => None end) evs.

(** The records handed to [writeShipperMetaFile]. *)
Definition writes (evs : list event) : list shipperMeta :=
  omap (λ ev, match ev with EvWriteMeta m => Some m | _ => None end) evs.

(** A block that gets as far as the existence check: not shipped before,
    not empty, of the first compaction level. *)
Definition reaches_check (shippedBlocks : gmap N Z) (m : Meta) : Prop :=
  shippedBlocks !! ULID m = None ∧ NumSamples m ≠ 0%N ∧ Level m <= 1.

Global Instance reaches_check_dec sb m : Decision (reaches_check sb m).
Proof. unfold reaches_check. apply _. Defined.

(** A checked block that ends up counted as shipped: it is in the bucket
    [B] the pass started with, or its upload succeeds. *)
Definition ships (env : Env) (B : gset N) (shippedBlocks : gmap N Z) (m : Meta)
  : Prop :=
  reaches_check shippedBlocks m ∧ (ULID m ∈ B ∨ upload_fault env (ULID m) = None).

Global Instance ships_dec env B sb m : Decision (ships env B sb m).
Proof. unfold ships. apply _. Defined.

(** A checked block whose upload is tried and fails. *)
Definition fails (env : Env) (B : gset N) (shippedBlocks : gmap N Z) (m : Meta)
  : Prop :=
  reaches_check shippedBlocks m ∧ (ULID m ∉ B) ∧ upload_fault env (ULID m) ≠ None.

Global Instance fails_dec env B sb m : Decision (fails env B sb m).
Proof. unfold fails. apply _. Defined.

(** What [model.Now] gives at the [k]-th reading of the clock. *)
Definition stamp (env : Env) (k : nat) : Z :=
  TimeFromUnixNano (UnixNano (clock env k)).

(** What a pass over [metas], started with the bucket [B] and the
    previously shipped blocks [sb], may add to the trace. *)
Definition loop_event (cfg : Config) (env : Env) (sb : gmap N Z)
    (metas : list Meta) (B : gset N) (ev : event) : Prop :=
  match ev with
  | EvExists id => ∃ m, m ∈ metas ∧ ULID m = id ∧ reaches_check sb m
  | EvUpload m' =>
      ∃ m, m ∈ metas ∧ m' = enrich cfg env m ∧ reaches_check sb m ∧
           (ULID m ∉ B) ∧ exists_fault env (ULID m) = None
  | EvError _ id e =>
      ∃ m, m ∈ metas ∧ ULID m = id ∧ upload_fault env id = Some e
  | EvWriteMeta _ => False
  | EvWarn _ _ => False
  end.

(** What a pass leaves alone (the meta files) or only grows (the bucket,
    the clock, the trace). *)
Definition loop_frame (cfg : Config) (env : Env) (sb : gmap N Z)
    (metas : list Meta) (w w' : World) : Prop :=
  mimir_file w' = mimir_file w ∧ thanos_file w' = thanos_file w ∧
  bucket w ⊆ bucket w' ∧ (ticks w ≤ ticks w')%nat ∧
  ∃ evs, trace w' = trace w ++ evs ∧
         Forall (loop_event cfg env sb metas (bucket w)) evs.

(** A block that must be uploaded: it gets as far as the existence check
    and the check says, without failing, that it is not in the bucket [B]. *)
Definition needs_upload (env : Env) (B : gset N) (shippedBlocks : gmap N Z)
    (m : Meta) : Prop :=
  reaches_check shippedBlocks m ∧ (ULID m ∉ B) ∧ exists_fault env (ULID m) = None.

Global Instance needs_upload_dec env B sb m : Decision (needs_upload env B sb m).
Proof. unfold needs_upload. apply _. Defined.

(** The error [Sync] returns after a pass that reached its end. *)
Definition sync_err (st : LoopState) : option error :=
  if decide (ls_uploadErrs st > 0)
  then Some (ErrNew ("failed to sync " +:+ pretty (ls_uploadErrs st) +:+ " blocks"))
  else None.

(** The world a step ends in. *)
Definition step_world (s : step) : World :=
  match s with
  | Continue st => ls_world st
  | Abort _ w => w
  end.

(** The block IDs a meta file on disk lists, whatever its version. *)
Definition mimir_ids (f : file_state shipperMeta) : gset N :=
  match f with
  | FileJSON m => dom (Shipped m)
  | _ => ∅
  end.

Definition thanos_ids (f : file_state thanosShipperMeta) : gset N :=
  match f with
  | FileJSON m => list_to_set (Uploaded m)
  | _ => ∅
  end.

(** Several calls of [Sync] in a row, each with its own oracle; the
    results are listed in order. *)
Fixpoint Sync_many (cfg : Config) (envs : list Env) (w : World)
  : list (Z * option error) * World :=
  match envs with
  | [] => ([], w)
  | env :: rest =>
      let '(r, w') := Sync cfg env w in
      let '(rs, w'') := Sync_many cfg rest w' in
      (r :: rs, w'')
  end.

End Run.

(** * Forced compaction, as the specification describes it *)

Module Windows.
Import Ingester.

(** The aligned windows of a block duration: window [k] holds the times
    from [k * blockDuration] to [(k + 1) * blockDuration - 1]. [window] is
    the index of the window a time falls into, [window_end] the last time
    of that window. *)
Definition window (blockDuration t : Z) : Z := t `div` blockDuration.

Definition window_end (blockDuration t : Z) : Z :=
  (window blockDuration t + 1) * blockDuration - 1.

Section Windows.
Context {DB : Type} `{!TSDB DB}.

(** The specification's account of a forced compaction, written as a
    relation on the aligned windows: [aligned_windows blockDuration d calls
    d' err] says that, from the database [d], the ranges [calls] are
    compacted in this order, leaving the database [d'] and the error
    [err]. While the head's min time and max time fall into different
    windows, the range from the min time to the end of its window is
    compacted and the times are read again; a failed compaction ends the
    run; finally the remaining range [minTime, maxTime] is compacted. *)
Inductive aligned_windows (blockDuration : Z)
  : DB → list (Z * Z) → DB → option error → Prop :=
| aligned_last d d' err :
    window blockDuration (HeadMinTime_db d) = window blockDuration (HeadMaxTime_db d) →
    CompactHead d (HeadMinTime_db d) (HeadMaxTime_db d) = (d', err) →
    aligned_windows blockDuration d [(HeadMinTime_db d, HeadMaxTime_db d)] d' err
| aligned_fail d d' err :
    window blockDuration (HeadMinTime_db d) ≠ window blockDuration (HeadMaxTime_db d) →
    CompactHead d (HeadMinTime_db d) (window_end blockDuration (HeadMinTime_db d))
      = (d', Some err) →
    aligned_windows blockDuration d
      [(HeadMinTime_db d, window_end blockDuration (HeadMinTime_db d))] d' (Some err)
| aligned_next d d1 calls d' err :
    window blockDuration (HeadMinTime_db d) ≠ window blockDuration (HeadMaxTime_db d) →
    CompactHead d (HeadMinTime_db d) (window_end blockDuration (HeadMinTime_db d))
      = (d1, None) →
    aligned_windows blockDuration d1 calls d' err →
    aligned_windows blockDuration d
      ((HeadMinTime_db d, window_end blockDuration (HeadMinTime_db d)) :: calls) d' err.

(** The head's times are from the epoch on, and the window of the min
    time ends within the 64-bit range. *)
Definition times_in_range (blockDuration : Z) (d : DB) : Prop :=
  0 <= HeadMinTime_db d ∧ 0 <= HeadMaxTime_db d < 2 ^ 63 ∧
  window_end blockDuration (HeadMinTime_db d) + 1 < 2 ^ 63.

Global Instance times_in_range_dec blockDuration d :
  Decision (times_in_range blockDuration d).
Proof. unfold times_in_range. apply _. Defined.

(** [times_in_range] for every reading of the head's times in the first
    [fuel] turns of a forced compaction of [d]. *)
Fixpoint heads_in_range (fuel : nat) (blockDuration : Z) (d : DB) : bool :=
  bool_decide (times_in_range blockDuration d) &&
  match fuel with
  | O => true
  | S fuel' =>
      if decide (window blockDuration (HeadMinTime_db d)
                 ≠ window blockDuration (HeadMaxTime_db d)) then
        match CompactHead d (HeadMinTime_db d)
                (window_end blockDuration (HeadMinTime_db d)) with
        | (d1, None) => heads_in_range fuel' blockDuration d1
        | (_, Some _) => true
        end
      else true
  end.

(** The loop of [compactHead] without its fuel, as a relation on the
    code's own [align] and [blockMaxTime]: the ranges handed to
    [CompactHead], the database and the error it ends with. *)
Inductive windows (blockDuration : Z) : DB → list (Z * Z) → DB → option error → Prop :=
| windows_last d d' err :
    align (HeadMinTime_db d) blockDuration = align (HeadMaxTime_db d) blockDuration →
    CompactHead d (HeadMinTime_db d) (HeadMaxTime_db d) = (d', err) →
    windows blockDuration d [(HeadMinTime_db d, HeadMaxTime_db d)] d' err
| windows_fail d d' err :
    align (HeadMinTime_db d) blockDuration ≠ align (HeadMaxTime_db d) blockDuration →
    CompactHead d (HeadMinTime_db d) (blockMaxTime (HeadMinTime_db d) blockDuration)
      = (d', Some err) →
    windows blockDuration d
      [(HeadMinTime_db d, blockMaxTime (HeadMinTime_db d) blockDuration)] d' (Some err)
| windows_next d d1 calls d' err :
    align (HeadMinTime_db d) blockDuration ≠ align (HeadMaxTime_db d) blockDuration →
    CompactHead d (HeadMinTime_db d) (blockMaxTime (HeadMinTime_db d) blockDuration)
      = (d1, None) →
    windows blockDuration d1 calls d' err →
    windows blockDuration d
      ((HeadMinTime_db d, blockMaxTime (HeadMinTime_db d) blockDuration) :: calls) d' err.

End Windows.
End Windows.

(** * Sample tenants *)

Module Sample.
Import Shipper.

(** A ULID made of a timestamp in milliseconds and of its random part. *)
Definition ulid (ms entropy : N) : N := N.shiftl ms 80 + entropy.

Definition no_thanos : ThanosMeta := mkThanosMeta "" [] ∅.

Definition block (id : N) (minTime : Z) (samples : N) (level : Z) : Meta :=
  mkMeta id minTime samples level false no_thanos.

Definition entry (m : Meta) : DirEntry :=
  mkDirEntry "block" true (Ok true) (Ok m).

Definition cfg : Config := mkConfig "/data/tenant-1" "ingester" true.

Definition clock0 (k : nat) : Z := 1700000000000000000 + 1000000 * Z.of_nat k.

(** A tenant directory without meta files and an empty bucket. *)
Definition fresh : World := mkWorld FileMissing FileMissing ∅ 0 [].

Definition env_of (l : list Meta) (ef uf : N → option error)
    (mf tf : write_fault) : Env :=
  mkEnv clock0 (Ok (entry <$> l)) ef uf (λ _, []) mf tf.

Definition no_fault : N → option error := λ _, None.

Definition fault_on (id : N) (e : error) : N → option error :=
  λ x, if decide (x = id) then Some e else None.

(** Every collaborator answers without fault. *)
Definition healthy (l : list Meta) : Env :=
  env_of l no_fault no_fault WNoFault WNoFault.

Definition id1 : N := ulid 1700000000000 1.
Definition id2 : N := ulid 1700000007200 2.
Definition id3 : N := ulid 1700000014400 3.

Definition B1 : Meta := block id1 50 10 1.
Definition B2 : Meta := block id2 100 10 1.
Definition B3 : Meta := block id3 200 10 1.

(** An empty block and a block of the second compaction level. *)
Definition Bempty : Meta := block id2 100 0 1.
Definition Blevel2 : Meta := block id3 200 10 2.

(** The upload of [B2] fails. *)
Definition env_upload_fails : Env :=
  env_of [B1; B2; B3] no_fault (fault_on id2 (ErrNew "upload failed"))
    WNoFault WNoFault.

(** The existence check of [B2] fails. *)
Definition env_exists_fails : Env :=
  env_of [B1; B2; B3] (fault_on id2 (ErrNew "bucket unavailable")) no_fault
    WNoFault WNoFault.

(** The temporary meta file cannot be created. *)
Definition env_disk_full : Env :=
  env_of [B1] no_fault no_fault (WCreate (ErrNew "no space left on device")) WNoFault.

(** The bucket already holds [B1]. *)
Definition world_B1_uploaded : World := mkWorld FileMissing FileMissing {[id1]} 0 [].

(** No current meta file, and a legacy meta file that does not parse. *)
Definition world_legacy_garbled : World :=
  mkWorld FileMissing (FileMalformed (ErrNew "unexpected end of JSON input")) ∅ 0 [].

(** No current meta file, and a legacy meta file that lists [B1]. *)
Definition world_legacy_only : World :=
  mkWorld FileMissing (FileJSON (mkThanosShipperMeta 1 [id1])) ∅ 0 [].

(** A TSDB reduced to what [userTSDB] asks of it: the head holds the
    timestamps of its samples; compacting a range takes the samples of the
    range out of the head, or fails when told to. *)
Record SampleDB : Type := mkSampleDB {
  sd_dir : string;
  sd_head : list Z;
  sd_numSeries : N;
  sd_blocks : list N;
  sd_fail_from : option Z   (* compactions of ranges starting here or later fail *)
}.

Definition head_min (l : list Z) : Z := foldr Z.min (2 ^ 63 - 1) l.
Definition head_max (l : list Z) : Z := foldr Z.max (- 2 ^ 63) l.

Definition sd_compact (d : SampleDB) (mint maxt : Z) : SampleDB * option error :=
  match sd_fail_from d with
  | Some t =>
      if decide (t <= mint) then (d, Some (ErrNew "compaction failed"))
      else (mkSampleDB (sd_dir d) (filter (λ t, ¬ (mint <= t <= maxt)) (sd_head d))
              (sd_numSeries d) (sd_blocks d) (sd_fail_from d), None)
  | None =>
      (mkSampleDB (sd_dir d) (filter (λ t, ¬ (mint <= t <= maxt)) (sd_head d))
         (sd_numSeries d) (sd_blocks d) (sd_fail_from d), None)
  end.

Global Instance SampleDB_TSDB : Ingester.TSDB SampleDB := {|
  Ingester.Dir := sd_dir;
  Ingester.HeadNumSeries_db := sd_numSeries;
  Ingester.HeadMinTime_db d := head_min (sd_head d);
  Ingester.HeadMaxTime_db d := head_max (sd_head d);
  Ingester.Blocks_db := sd_blocks;
  Ingester.CompactHead := sd_compact
|}.

(** Two hours, in milliseconds. *)
Definition two_hours : Z := 7200000.

(** A head whose samples span three two-hour windows. *)
Definition db_three_windows : SampleDB :=
  mkSampleDB "/data/tenant-1" [100; 7200500; 14400100] 3 [] None.

Definition tenant (s : Ingester.store SampleDB) (st : Ingester.tsdbState)
    (pushes : Z) : Ingester.userTSDB SampleDB :=
  Ingester.mkUserTSDB s st pushes 1700000000 false ∅.

(** A tenant that keeps its data in memory only. *)
Definition head_only : Ingester.store SampleDB :=
  Ingester.InMemory (Ingester.mkHeadOnly 3 100 14400100).

(** A block whose ULID carries the timestamp 0. *)
Definition id_epoch : N := ulid 0 7.

(** An idle tenant with an empty head and one block, not shipped, whose
    ULID carries the timestamp 0. *)
Definition tenant_epoch_block : Ingester.userTSDB SampleDB :=
  tenant (Ingester.OnDisk (mkSampleDB "/data/tenant-1" [] 0 [id_epoch] None))
    Ingester.active 0.

(** One hour, in nanoseconds, and a reading of the clock a day after the
    tenant's last update. *)
Definition one_hour_ns : Z := 3600000000000.
Definition a_day_later : Z := (1700000000 + 86400) * 1000000000.

End Sample.

(** * Observations on the listing and the calls *)

Module Listing.
Import Shipper.

(** The meta a directory entry adds to the listing of
    [blockMetasFromOldest]: the entry has the name of a block, is a
    directory and its metadata can be read. *)
Definition listed_meta (n : DirEntry) : option Meta :=
  if de_IsBlockDir n then
    match de_Stat n, de_ReadFromDir n with
    | Ok true, Ok m => Some m
    | _, _ => None
    end
  else None.

(** An entry on which [blockMetasFromOldest] gives up: it has the name of
    a block and [os.Stat] fails on it, or it is a directory whose metadata
    cannot be read. *)
Definition entry_fails (n : DirEntry) : Prop :=
  de_IsBlockDir n = true ∧
  ((∃ e, de_Stat n = Err e) ∨ (de_Stat n = Ok true ∧ ∃ e, de_ReadFromDir n = Err e)).

(** The legacy list [writeShipperMetaFile] derives from a record. *)
Definition legacy_of (meta : shipperMeta) : thanosShipperMeta :=
  mkThanosShipperMeta shipperMetaVersion1 (map_to_list (Shipped meta)).*1.

(** The blocks among the uploads of a trace whose upload succeeds. *)
Definition uploaded_ok (env : Env) (evs : list event) : gset N :=
  list_to_set (filter (λ id, upload_fault env id = None) (Run.uploads evs)).

(** In a trace, every upload comes right after the existence check of the
    block it uploads. *)
Definition uploads_follow_checks (evs : list event) : Prop :=
  ∀ i m, evs !! i = Some (EvUpload m) →
    ∃ j, i = S j ∧ evs !! j = Some (EvExists (ULID m)).

(** The same collaborators, with other faults when the meta files are
    written. *)
Definition with_write_faults (mf tf : write_fault) (env : Env) : Env :=
  mkEnv (clock env) (ReadDir env) (exists_fault env) (upload_fault env)
    (GetSegmentFiles env) mf tf.

End Listing.

(** * Retention and series accounting of the tenant TSDB *)

Module Lifecycle.
Import Ingester.

(** [Ingester.InstanceLimits], the field the callbacks read. *)
Record InstanceLimits : Type := mkInstanceLimits {
  MaxInMemorySeries : Z
}.

(** What the series callbacks ask of their collaborators: the labels of a
    series with [extract.MetricNameFromLabels], the limiter with
    [AssertMaxSeriesPerUser] (for the tenant of the TSDB) and the
    [metricCounter] with its three operations. *)
Class Series (L Lim C : Type) : Type := {
  MetricNameFromLabels : L → result string;
  AssertMaxSeriesPerUser : Lim → Z → option error;
  canAddSeriesFor : C → string → option error;
  increaseSeriesForMetric : C → string → C;
  decreaseSeriesForMetric : C → string → C
}.

(** The fields of [userTSDB] the series callbacks use. [instanceSeriesCount]
    is shared by the tenants of the ingester. *)
Record accounting (Lim C : Type) : Type := mkAccounting {
  limiter : option Lim;                      (* nil when limits are not enforced *)
  instanceLimitsFn : option InstanceLimits;  (* what the function answers *)
  instanceSeriesCount : Z;
  seriesInMetric : C
}.
Arguments mkAccounting {Lim C}.
Arguments limiter {Lim C}.
Arguments instanceLimitsFn {Lim C}.
Arguments instanceSeriesCount {Lim C}.
Arguments seriesInMetric {Lim C}.

Section Lifecycle.
Context {DB : Type} `{!TSDB DB}.

(** [blocksToDelete]. [DefaultBlocksToDelete] stands for
    [tsdb.DefaultBlocksToDelete(u.db)], [shipper] says whether [u.shipper]
    is set. A Go map used as a set is a [gset]; [nil] is the empty set. *)
Definition blocksToDelete (DefaultBlocksToDelete : DB → list N → gset N)
    (shipper : bool) (blocks : list N) (u : userTSDB DB) : gset N :=
  match u_store u with
  | InMemory _ => ∅
  | OnDisk d =>
      let deletable := DefaultBlocksToDelete d blocks in
      if negb shipper then deletable
      else
        let shippedBlocks := getCachedShippedBlocks u in
        filter (λ shippedID, shippedID ∈ deletable) (dom shippedBlocks)
  end.

Context {L Lim C : Type} `{!Series L Lim C}.

Definition set_instanceSeriesCount (n : Z) (a : accounting Lim C) : accounting Lim C :=
  mkAccounting (limiter a) (instanceLimitsFn a) n (seriesInMetric a).

Definition set_seriesInMetric (c : C) (a : accounting Lim C) : accounting Lim C :=
  mkAccounting (limiter a) (instanceLimitsFn a) (instanceSeriesCount a) c.

(** [PreCreation]; [errMaxInMemorySeriesReached] is the error of that
    name. [int(u.HeadNumSeries())] converts a [uint64] to an [int]. *)
Definition PreCreation (errMaxInMemorySeriesReached : error)
    (u : userTSDB DB) (a : accounting Lim C) (metric : L) : option error :=
  match limiter a with
  | None => None
  | Some lim =>
      let reached :=
        match instanceLimitsFn a with
        | Some gl =>
            bool_decide (MaxInMemorySeries gl > 0) &&
            bool_decide (instanceSeriesCount a >= MaxInMemorySeries gl)
        | None => false
        end in
      if reached then Some errMaxInMemorySeriesReached
      else
        match AssertMaxSeriesPerUser lim (wrap64 (Z.of_N (HeadNumSeries u))) with
        | Some err => Some err
        | None =>
            match MetricNameFromLabels metric with
            | Err err => Some err
            | Ok metricName => canAddSeriesFor (seriesInMetric a) metricName
            end
        end
  end.

(** [PostCreation]. *)
Definition PostCreation (metric : L) (a : accounting Lim C) : accounting Lim C :=
  let a := set_instanceSeriesCount (wrap64 (instanceSeriesCount a + 1)) a in
  match MetricNameFromLabels metric with
  | Err _ => a
  | Ok metricName =>
      set_seriesInMetric (increaseSeriesForMetric (seriesInMetric a) metricName) a
  end.

(** The loop of [PostDeletion]. *)
Fixpoint decrease_all (metrics : list L) (c : C) : C :=
  match metrics with
  | [] => c
  | metric :: rest =>
      match MetricNameFromLabels metric with
      | Err _ => decrease_all rest c
      | Ok metricName => decrease_all rest (decreaseSeriesForMetric c metricName)
      end
  end.

(** [PostDeletion]. *)
Definition PostDeletion (metrics : list L) (a : accounting Lim C) : accounting Lim C :=
  let a := set_instanceSeriesCount
             (wrap64 (instanceSeriesCount a - Z.of_nat (length metrics))) a in
  set_seriesInMetric (decrease_all metrics (seriesInMetric a)) a.

End Lifecycle.
End Lifecycle.

(** * More sample tenants *)

Module Cases.
Import Shipper.

(** A directory listed out of order, with a file that is no block and a
    file that has the name of a block but is no directory. *)
Definition dir_unordered : list DirEntry :=
  [ Sample.entry Sample.B2;
    mkDirEntry "wal" false (Ok true) (Err (ErrNew "no meta.json"));
    Sample.entry Sample.B3;
    mkDirEntry "01HF0000000000000000000000" true (Ok false) (Err (ErrNew "not a directory"));
    Sample.entry Sample.B1 ].

Definition env_unordered : Env :=
  mkEnv Sample.clock0 (Ok dir_unordered) Sample.no_fault Sample.no_fault
    (λ _, []) WNoFault WNoFault.

(** The metadata of the second block cannot be read. *)
Definition env_unreadable_block : Env :=
  mkEnv Sample.clock0
    (Ok [ Sample.entry Sample.B1;
          mkDirEntry "block" true (Ok true) (Err (ErrNew "unexpected end of JSON input")) ])
    Sample.no_fault Sample.no_fault (λ _, []) WNoFault WNoFault.

(** A block made of out-of-order samples, with an external label. *)
Definition B_ooo : Meta :=
  mkMeta Sample.id1 50 10 1 true
    (mkThanosMeta "" [] {[ "cluster" := "eu-1" ]}).

Definition env_ooo : Env :=
  mkEnv Sample.clock0 (Ok [Sample.entry B_ooo]) Sample.no_fault Sample.no_fault
    (λ _, ["000001"]) WNoFault WNoFault.

(** A head with a sample eight thousand seconds before the epoch and one
    five thousand seconds after it. *)
Definition db_before_epoch : Sample.SampleDB :=
  Sample.mkSampleDB "/data/tenant-1" [-8000000; 5000000] 2 [] None.

(** A head with two samples, five thousand seconds before and after the
    epoch. *)
Definition db_around_zero : Sample.SampleDB :=
  Sample.mkSampleDB "/data/tenant-1" [-5000000; 5000000] 2 [] None.

(** A tenant with three blocks on disk, the oldest of them shipped. *)
Definition tenant_one_shipped : Ingester.userTSDB Sample.SampleDB :=
  Ingester.mkUserTSDB
    (Ingester.OnDisk
       (Sample.mkSampleDB "/data/tenant-1" [] 0 [Sample.id3; Sample.id1; Sample.id2] None))
    Ingester.active 0 1700000000 false {[ Sample.id1 := 1700000000000000000 ]}.

(** The three sample blocks, every collaborator without fault, and the
    record a first [Sync] writes for them. *)
Definition env_three : Env := Sample.healthy [Sample.B1; Sample.B2; Sample.B3].

Definition rec_three : shipperMeta :=
  mkShipperMeta 1
    {[ Sample.id1 := 1700000000000; Sample.id2 := 1700000000001;
       Sample.id3 := 1700000000002 ]}.

(** Every block but the newest may be deleted. *)
Definition keep_newest (d : Sample.SampleDB) (blocks : list N) : gset N :=
  list_to_set (filter (λ b, b ≠ Sample.id3) blocks).

(** Series collaborators: labels are pairs, the metric name is the value
    of [__name__]; the limiter allows [lim] series per tenant, the counter
    two series per metric. *)
Definition metric_name (l : list (string * string)) : result string :=
  match list_find (λ p, p.1 = "__name__") l with
  | Some (_, p) => Ok p.2
  | None => Err (ErrNew "no metric name label")
  end.

Global Instance sample_series : Lifecycle.Series (list (string * string)) Z (gmap string Z) := {|
  Lifecycle.MetricNameFromLabels := metric_name;
  Lifecycle.AssertMaxSeriesPerUser lim series :=
    if decide (series < lim) then None else Some (ErrNew "per-user series limit reached");
  Lifecycle.canAddSeriesFor c name :=
    if decide (default 0 (c !! name) < 2) then None
    else Some (ErrNew "per-metric series limit reached");
  Lifecycle.increaseSeriesForMetric c name := <[name := default 0 (c !! name) + 1]> c;
  Lifecycle.decreaseSeriesForMetric c name := <[name := default 0 (c !! name) - 1]> c
|}.

Definition up_series : list (string * string) := [("__name__", "up"); ("job", "node")].
Definition nameless_series : list (string * string) := [("job", "node")].

Definition accounts : Lifecycle.accounting Z (gmap string Z) :=
  Lifecycle.mkAccounting (Some 100) (Some (Lifecycle.mkInstanceLimits 1000)) 7 ∅.

End Cases.

(** * 64-bit arithmetic *)

(** A 64-bit result is in range, and wrapping changes nothing in range. *)
Lemma wrap64_range z : in_int64 (wrap64 z).
Proof.
  unfold in_int64, wrap64.
  pose proof (Z.mod_pos_bound (z + 2 ^ 63) (2 ^ 64) ltac:(lia)). lia.
Qed.

Lemma wrap64_small z : in_int64 z → wrap64 z = z.
Proof.
  unfold in_int64, wrap64. intros H.
  rewrite Z.mod_small by lia. lia.
Qed.

(** * Properties of the shipper *)

Module ShipperFacts.
Import Shipper Run.

(** The listing is ordered by [MinTime] and holds the blocks read. *)
Lemma sort_by_MinTime_sorted metas :
  Sorted MinTime_le (sort_by_MinTime metas) ∧ sort_by_MinTime metas ≡ₚ metas.
Proof.
  assert (Total MinTime_le) by (intros a b; unfold MinTime_le; lia).
  split; [apply Sorted_merge_sort; apply _|apply merge_sort_Permutation].
Qed.

Lemma events_since_app w w' evs :
  trace w' = trace w ++ evs → events_since w w' = evs.
Proof. intros H. unfold events_since. rewrite H. by rewrite drop_app_length. Qed.

Section Loop.
Context (cfg : Config) (env : Env) (sb : gmap N Z).

Local Abbreviation loop_event := (loop_event cfg env sb).
Local Abbreviation loop_frame := (loop_frame cfg env sb).
Local Abbreviation stamp := (stamp env).

Lemma loop_event_mono metas metas' B B' ev :
  metas ⊆ metas' → B' ⊆ B → loop_event metas B ev → loop_event metas' B' ev.
Proof.
  intros Hm HB. destruct ev; simpl; try done.
  - intros (m & ? & ? & ?). exists m. split_and!; auto.
  - intros (m0 & ? & ? & ? & ? & ?). exists m0. split_and!; auto; set_solver.
  - intros (m & ? & ? & ?). exists m. split_and!; auto.
Qed.

Lemma loop_frame_refl metas w : loop_frame metas w w.
Proof.
  unfold loop_frame. split_and!; try done. exists []. by rewrite app_nil_r.
Qed.

Lemma loop_frame_trans m metas w1 w2 w3 :
  loop_frame [m] w1 w2 → loop_frame metas w2 w3 → loop_frame (m :: metas) w1 w3.
Proof.
  intros (Hm1 & Ht1 & Hb1 & Hk1 & evs1 & He1 & Hf1) (Hm2 & Ht2 & Hb2 & Hk2 & evs2 & He2 & Hf2).
  unfold loop_frame. split_and!; [congruence|congruence|set_solver|lia|].
  exists (evs1 ++ evs2). split; [rewrite He2, He1; by rewrite app_assoc|].
  apply Forall_app. split.
  - eapply Forall_impl; [exact Hf1|]. intros ev. apply loop_event_mono; set_solver.
  - eapply Forall_impl; [exact Hf2|]. intros ev. apply loop_event_mono; set_solver.
Qed.

Lemma sync_block_frame m st :
  loop_frame [m] (ls_world st) (step_world (sync_block cfg env sb m st)).
Proof.
  unfold sync_block.
  destruct (sb !! ULID m) as [t|] eqn:Hsb; simpl; [apply loop_frame_refl|].
  destruct (decide (NumSamples m = 0%N)); simpl; [apply loop_frame_refl|].
  destruct (decide (Level m > 1)); simpl; [apply loop_frame_refl|].
  assert (Hr : reaches_check sb m) by (unfold reaches_check; split_and!; auto; lia).
  unfold bucket_Exists. destruct (exists_fault env (ULID m)) as [e|] eqn:Hex; simpl.
  { unfold loop_frame; simpl. split_and!; try done.
    exists [EvExists (ULID m)]. split; [done|]. repeat constructor. simpl. exists m. set_solver. }
  case_bool_decide as Hin; simpl.
  { unfold loop_frame; simpl. split_and!; try done; try lia.
    exists [EvExists (ULID m)]. split; [done|]. repeat constructor. simpl. exists m. set_solver. }
  unfold upload; simpl. destruct (upload_fault env (ULID m)) as [e|] eqn:Hup; simpl.
  { unfold loop_frame; simpl. split_and!; try done; try lia.
    exists [EvExists (ULID m); EvUpload (enrich cfg env m); EvError "shipping failed" (ULID m) e].
    split; [by rewrite <- !app_assoc|]. repeat constructor; simpl; exists m; set_solver. }
  { unfold loop_frame; simpl. split_and!; try done; try lia; try set_solver.
    exists [EvExists (ULID m); EvUpload (enrich cfg env m)].
    split; [by rewrite <- !app_assoc|]. repeat constructor; simpl; exists m; set_solver. }
Qed.

Lemma sync_loop_frame metas st :
  loop_frame metas (ls_world st) (step_world (sync_loop cfg env sb metas st)).
Proof.
  revert st. induction metas as [|m metas IH]; intros st; simpl.
  { apply loop_frame_refl. }
  pose proof (sync_block_frame m st) as Hb.
  destruct (sync_block cfg env sb m st) as [st'|e w'] eqn:Hs; simpl in *.
  - eapply loop_frame_trans; [exact Hb|apply IH].
  - eapply loop_frame_trans; [exact Hb|apply loop_frame_refl].
Qed.

Lemma ships_bucket_insert B id m :
  upload_fault env id = None →
  ships env ({[id]} ∪ B) sb m ↔ ships env B sb m.
Proof.
  intros Hup. unfold ships. split; intros [Hr H]; split; auto.
  - destruct H as [H|H]; auto. apply elem_of_union in H as [H|H]; auto.
    apply elem_of_singleton in H. right. congruence.
  - destruct H as [H|H]; auto. left. set_solver.
Qed.

Lemma fails_bucket_insert B id m :
  upload_fault env id = None →
  fails env ({[id]} ∪ B) sb m ↔ fails env B sb m.
Proof.
  intros Hup. unfold fails. split; intros (Hr & Hn & Hf); split_and!; auto.
  - set_solver.
  - intros H. apply elem_of_union in H as [H|H]; auto.
    apply elem_of_singleton in H. apply Hf. congruence.
Qed.

(** The counters after a pass in which no existence check fails. *)
Lemma sync_loop_counts metas st :
  (∀ m, m ∈ metas → reaches_check sb m → exists_fault env (ULID m) = None) →
  ∃ st', sync_loop cfg env sb metas st = Continue st' ∧
    ls_shipped st' = ls_shipped st +
      Z.of_nat (length (filter (ships env (bucket (ls_world st)) sb) metas)) ∧
    ls_uploadErrs st' = ls_uploadErrs st +
      Z.of_nat (length (filter (fails env (bucket (ls_world st)) sb) metas)).
Proof.
  revert st. induction metas as [|m metas IH]; intros st Hnf.
  { exists st. simpl. split_and!; auto; lia. }
  assert (Hnf' : ∀ m', m' ∈ metas → reaches_check sb m' → exists_fault env (ULID m') = None)
    by (intros; apply Hnf; set_solver).
  simpl. unfold sync_block.
  destruct (sb !! ULID m) as [t|] eqn:Hsb.
  { destruct (IH (mkLoopState (<[ULID m:=TimeFromUnixNano (UnixNano t)]> (ls_Shipped st))
                   (ls_shipped st) (ls_uploadErrs st) (ls_world st)) Hnf')
      as (st' & -> & H1 & H2). exists st'. simpl in *.
    rewrite !filter_cons_False; [auto| |]; unfold fails, ships, reaches_check; naive_solver. }
  destruct (decide (NumSamples m = 0%N)) as [Hz|Hz].
  { destruct (IH st Hnf') as (st' & -> & H1 & H2). exists st'.
    rewrite !filter_cons_False; [auto| |]; unfold fails, ships, reaches_check; naive_solver. }
  destruct (decide (Level m > 1)) as [Hl|Hl].
  { destruct (IH st Hnf') as (st' & -> & H1 & H2). exists st'.
    rewrite !filter_cons_False; [auto| |]; unfold fails, ships, reaches_check; intros ?; naive_solver lia. }
  assert (Hr : reaches_check sb m) by (unfold reaches_check; split_and!; auto; lia).
  unfold bucket_Exists. rewrite (Hnf m) by (auto; set_solver). simpl.
  case_bool_decide as Hin; simpl.
  { match goal with |- context [sync_loop _ _ _ _ ?s] => destruct (IH s Hnf') as (st' & -> & H1 & H2) end.
    exists st'. simpl in *. rewrite filter_cons_True by (split; auto).
    rewrite filter_cons_False by (unfold fails; naive_solver).
    split_and!; auto. rewrite H1. simpl. lia. }
  unfold upload; simpl. destruct (upload_fault env (ULID m)) as [e|] eqn:Hup; simpl.
  { match goal with |- context [sync_loop _ _ _ _ ?s] => destruct (IH s Hnf') as (st' & -> & H1 & H2) end.
    exists st'. simpl in *. rewrite filter_cons_False by (unfold ships; naive_solver).
    rewrite filter_cons_True by (unfold fails; split_and!; auto; congruence).
    split_and!; auto. rewrite H2. simpl. lia. }
  { match goal with |- context [sync_loop _ _ _ _ ?s] => destruct (IH s Hnf') as (st' & -> & H1 & H2) end.
    exists st'. simpl in *. rewrite filter_cons_True by (split; auto).
    rewrite filter_cons_False by (unfold fails; naive_solver).
    rewrite (list_filter_iff _ _ metas (λ m', ships_bucket_insert (bucket (ls_world st)) (ULID m) m' Hup)) in H1.
    rewrite (list_filter_iff _ _ metas (λ m', fails_bucket_insert (bucket (ls_world st)) (ULID m) m' Hup)) in H2.
    split_and!; auto. rewrite H1. simpl. lia. }
Qed.

Lemma ticks_sync_loop metas st st' :
  sync_loop cfg env sb metas st = Continue st' →
  (ticks (ls_world st) ≤ ticks (ls_world st'))%nat.
Proof.
  intros H. pose proof (sync_loop_frame metas st) as Hf. rewrite H in Hf.
  destruct Hf as (_ & _ & _ & Hk & _). exact Hk.
Qed.

(** Where an entry of the new record comes from. *)
Lemma sync_loop_record_sound metas st st' id v :
  sync_loop cfg env sb metas st = Continue st' →
  ls_Shipped st' !! id = Some v →
  ls_Shipped st !! id = Some v ∨
  (∃ m t, m ∈ metas ∧ ULID m = id ∧ sb !! id = Some t ∧
          v = TimeFromUnixNano (UnixNano t)) ∨
  (∃ m k, m ∈ metas ∧ ULID m = id ∧ ships env (bucket (ls_world st)) sb m ∧
          (ticks (ls_world st) ≤ k < ticks (ls_world st'))%nat ∧ v = stamp k).
Proof.
  revert st. induction metas as [|m metas IH]; intros st Hloop Hv; simpl in Hloop.
  { left. congruence. }
  destruct (sync_block cfg env sb m st) as [st1|e w1] eqn:Hb; [|done].
  pose proof (ticks_sync_loop _ _ _ Hloop) as Hk2.
  pose proof (sync_block_frame m st) as Hf. rewrite Hb in Hf. simpl in Hf.
  destruct Hf as (_ & _ & HB & Hk1 & _).
  destruct (IH st1 Hloop Hv) as [H0|[(m' & t & ? & ? & ? & ?)|(m' & k & ? & ? & Hs & ? & ?)]].
  - (* the entry was there after the first block *)
    unfold sync_block in Hb.
    destruct (sb !! ULID m) as [t|] eqn:Hsb.
    { injection Hb as <-. simpl in H0.
      destruct (decide (id = ULID m)) as [->|Hne].
      - rewrite lookup_insert_eq in H0. right; left. exists m, t. split_and!; [set_solver|done|done|congruence].
      - rewrite lookup_insert_ne in H0 by done. by left. }
    destruct (decide (NumSamples m = 0%N)); [injection Hb as <-; by left|].
    destruct (decide (Level m > 1)); [injection Hb as <-; by left|].
    assert (Hr : reaches_check sb m) by (unfold reaches_check; split_and!; auto; lia).
    unfold bucket_Exists in Hb. destruct (exists_fault env (ULID m)); [done|]. simpl in Hb.
    case_bool_decide as Hin; simpl in Hb.
    { injection Hb as <-. simpl in *.
      destruct (decide (id = ULID m)) as [->|Hne].
      - rewrite lookup_insert_eq in H0. right; right. exists m, (ticks (ls_world st)).
        split_and!; [set_solver|done|split; auto|lia|lia|unfold stamp; congruence].
      - rewrite lookup_insert_ne in H0 by done. by left. }
    unfold upload in Hb; simpl in Hb. destruct (upload_fault env (ULID m)) eqn:Hup; simpl in Hb.
    { injection Hb as <-. simpl in *. by left. }
    { injection Hb as <-. simpl in *.
      destruct (decide (id = ULID m)) as [->|Hne].
      - rewrite lookup_insert_eq in H0. right; right. exists m, (ticks (ls_world st)).
        split_and!; [set_solver|done|split; auto|lia|lia|unfold stamp; congruence].
      - rewrite lookup_insert_ne in H0 by done. by left. }
  - right; left. exists m', t. split_and!; auto. set_solver.
  - right; right. exists m', k. split_and!; [set_solver|done| |lia|lia|done].
    (* the bucket after the first block differs at most by an uploaded block *)
    unfold sync_block in Hb.
    destruct (sb !! ULID m) as [t|] eqn:Hsb; [injection Hb as <-; exact Hs|].
    destruct (decide (NumSamples m = 0%N)); [injection Hb as <-; exact Hs|].
    destruct (decide (Level m > 1)); [injection Hb as <-; exact Hs|].
    unfold bucket_Exists in Hb. destruct (exists_fault env (ULID m)); [done|]. simpl in Hb.
    case_bool_decide as Hin; simpl in Hb; [injection Hb as <-; exact Hs|].
    unfold upload in Hb; simpl in Hb. destruct (upload_fault env (ULID m)) eqn:Hup; simpl in Hb.
    { injection Hb as <-. exact Hs. }
    { injection Hb as <-. simpl in Hs. by apply ships_bucket_insert in Hs. }
Qed.

(** A block shipped before keeps the time it was shipped at. *)
Lemma sync_loop_keeps metas st st' id t :
  sync_loop cfg env sb metas st = Continue st' →
  sb !! id = Some t →
  ls_Shipped st !! id = Some (TimeFromUnixNano (UnixNano t)) →
  ls_Shipped st' !! id = Some (TimeFromUnixNano (UnixNano t)).
Proof.
  revert st. induction metas as [|m metas IH]; intros st Hloop Hsb Hv; simpl in Hloop.
  { congruence. }
  destruct (sync_block cfg env sb m st) as [st1|e w1] eqn:Hb; [|done].
  apply (IH st1 Hloop Hsb). clear IH Hloop.
  unfold sync_block in Hb.
  destruct (decide (id = ULID m)) as [->|Hne].
  { rewrite Hsb in Hb. injection Hb as <-. simpl. by rewrite lookup_insert_eq. }
  destruct (sb !! ULID m) as [t'|] eqn:Hsb'.
  { injection Hb as <-. simpl. by rewrite lookup_insert_ne. }
  destruct (decide (NumSamples m = 0%N)); [injection Hb as <-; done|].
  destruct (decide (Level m > 1)); [injection Hb as <-; done|].
  unfold bucket_Exists in Hb. destruct (exists_fault env (ULID m)); [done|]. simpl in Hb.
  case_bool_decide as Hin; simpl in Hb.
  { injection Hb as <-. simpl. by rewrite lookup_insert_ne. }
  unfold upload in Hb; simpl in Hb. destruct (upload_fault env (ULID m)) eqn:Hup; simpl in Hb.
  { injection Hb as <-. done. }
  { injection Hb as <-. simpl. by rewrite lookup_insert_ne. }
Qed.

Lemma sync_loop_carries metas st st' m t :
  sync_loop cfg env sb metas st = Continue st' →
  m ∈ metas → sb !! ULID m = Some t →
  ls_Shipped st' !! ULID m = Some (TimeFromUnixNano (UnixNano t)).
Proof.
  revert st. induction metas as [|m0 metas IH]; intros st Hloop Hin Hsb; simpl in Hloop.
  { by apply elem_of_nil in Hin. }
  destruct (sync_block cfg env sb m0 st) as [st1|e w1] eqn:Hb; [|done].
  apply elem_of_cons in Hin as [->|Hin]; [|by eapply IH].
  eapply sync_loop_keeps; [exact Hloop|exact Hsb|].
  unfold sync_block in Hb. rewrite Hsb in Hb. injection Hb as <-. simpl.
  by rewrite lookup_insert_eq.
Qed.

(** An entry of the record stays in it. *)
Lemma sync_loop_record_mono metas st st' id :
  sync_loop cfg env sb metas st = Continue st' →
  is_Some (ls_Shipped st !! id) → is_Some (ls_Shipped st' !! id).
Proof.
  revert st. induction metas as [|m metas IH]; intros st Hloop Hv; simpl in Hloop.
  { congruence. }
  destruct (sync_block cfg env sb m st) as [st1|e w1] eqn:Hb; [|done].
  apply (IH st1 Hloop). clear IH Hloop.
  unfold sync_block in Hb.
  assert (Hins : ∀ v, is_Some (<[ULID m := v]> (ls_Shipped st) !! id)).
  { intros v0. rewrite lookup_insert. destruct (decide (ULID m = id)); [by eexists|exact Hv]. }
  destruct (sb !! ULID m) as [t'|] eqn:Hsb'; [injection Hb as <-; apply Hins|].
  destruct (decide (NumSamples m = 0%N)); [injection Hb as <-; done|].
  destruct (decide (Level m > 1)); [injection Hb as <-; done|].
  unfold bucket_Exists in Hb. destruct (exists_fault env (ULID m)); [done|]. simpl in Hb.
  case_bool_decide as Hin; simpl in Hb; [injection Hb as <-; apply Hins|].
  unfold upload in Hb; simpl in Hb. destruct (upload_fault env (ULID m)) eqn:Hup; simpl in Hb.
  { injection Hb as <-. done. }
  { injection Hb as <-. apply Hins. }
Qed.

(** A block counted as shipped is in the new record. *)
Lemma sync_loop_records metas st st' m :
  sync_loop cfg env sb metas st = Continue st' →
  m ∈ metas → ships env (bucket (ls_world st)) sb m →
  is_Some (ls_Shipped st' !! ULID m).
Proof.
  revert st. induction metas as [|m0 metas IH]; intros st Hloop Hin Hs; simpl in Hloop.
  { by apply elem_of_nil in Hin. }
  destruct (sync_block cfg env sb m0 st) as [st1|e w1] eqn:Hb; [|done].
  pose proof (sync_block_frame m0 st) as Hf. rewrite Hb in Hf. simpl in Hf.
  destruct Hf as (_ & _ & HB & _).
  apply elem_of_cons in Hin as [->|Hin].
  - eapply sync_loop_record_mono; [exact Hloop|]. clear IH Hloop.
    destruct Hs as [(Hsb & Hz & Hl) Hs]. unfold sync_block in Hb. rewrite Hsb in Hb.
    destruct (decide (NumSamples m0 = 0%N)); [done|].
    destruct (decide (Level m0 > 1)); [lia|].
    unfold bucket_Exists in Hb. destruct (exists_fault env (ULID m0)); [done|]. simpl in Hb.
    case_bool_decide as Hin; simpl in Hb.
    { injection Hb as <-. simpl. rewrite lookup_insert_eq. by eexists. }
    destruct Hs as [Hs|Hs]; [done|].
    unfold upload in Hb; simpl in Hb. rewrite Hs in Hb. simpl in Hb.
    injection Hb as <-. simpl. rewrite lookup_insert_eq. by eexists.
  - eapply IH; [exact Hloop|exact Hin|].
    destruct Hs as [Hr Hs]. split; [exact Hr|]. destruct Hs as [Hs|Hs]; [left; set_solver|by right].
Qed.

(** A pass that reaches its end met no failing existence check. *)
Lemma sync_loop_no_fault metas st st' :
  sync_loop cfg env sb metas st = Continue st' →
  ∀ m, m ∈ metas → reaches_check sb m → exists_fault env (ULID m) = None.
Proof.
  revert st. induction metas as [|m0 metas IH]; intros st Hloop m Hin Hr.
  { by apply elem_of_nil in Hin. }
  simpl in Hloop.
  destruct (sync_block cfg env sb m0 st) as [st1|e w1] eqn:Hb; [|done].
  apply elem_of_cons in Hin as [->|Hin]; [|by eapply IH].
  destruct Hr as (Hsb & Hz & Hl). unfold sync_block in Hb. rewrite Hsb in Hb.
  destruct (decide (NumSamples m0 = 0%N)); [done|].
  destruct (decide (Level m0 > 1)); [lia|].
  unfold bucket_Exists in Hb. by destruct (exists_fault env (ULID m0)).
Qed.

(** A pass ends early only on a failed existence check of a block that
    got as far as the check. *)
Lemma sync_loop_abort_inv metas st e w' :
  sync_loop cfg env sb metas st = Abort e w' →
  ∃ m e', m ∈ metas ∧ reaches_check sb m ∧
          exists_fault env (ULID m) = Some e' ∧ e = ErrWrap "check exists" e'.
Proof.
  revert st. induction metas as [|m0 metas IH]; intros st Hloop; simpl in Hloop; [done|].
  destruct (sync_block cfg env sb m0 st) as [st1|e1 w1] eqn:Hb.
  { destruct (IH st1 Hloop) as (m & e' & ? & ? & ? & ?). exists m, e'. split_and!; auto. set_solver. }
  injection Hloop as -> ->. unfold sync_block in Hb.
  destruct (sb !! ULID m0) eqn:Hsb; [done|].
  destruct (decide (NumSamples m0 = 0%N)); [done|].
  destruct (decide (Level m0 > 1)); [done|].
  unfold bucket_Exists in Hb. destruct (exists_fault env (ULID m0)) as [e'|] eqn:Hex; simpl in Hb.
  { injection Hb as <- <-. exists m0, e'. split_and!; [set_solver| |done|done].
    unfold reaches_check. split_and!; [done|done|lia]. }
  case_bool_decide; simpl in Hb; [done|].
  unfold upload in Hb. simpl in Hb. by destruct (upload_fault env (ULID m0)).
Qed.

Lemma sync_loop_total metas st :
  (∃ st', sync_loop cfg env sb metas st = Continue st') ∨
  (∃ e w', sync_loop cfg env sb metas st = Abort e w').
Proof. destruct (sync_loop cfg env sb metas st); eauto. Qed.

End Loop.

(** ** The statements around the loop *)

Lemma stamp_uploaded_frame env ids acc w :
  let w' := (stamp_uploaded env ids acc w).2 in
  mimir_file w' = mimir_file w ∧ thanos_file w' = thanos_file w ∧
  bucket w' = bucket w ∧ trace w' = trace w ∧ (ticks w ≤ ticks w')%nat.
Proof.
  revert acc w. induction ids as [|id ids IH]; intros acc w; simpl; [done|].
  specialize (IH (<[id:=clock env (ticks w)]> acc)
    (mkWorld (mimir_file w) (thanos_file w) (bucket w) (S (ticks w)) (trace w))).
  simpl in IH. destruct IH as (? & ? & ? & ? & ?). split_and!; auto. lia.
Qed.

Lemma stamp_uploaded_dom env ids acc w :
  dom (stamp_uploaded env ids acc w).1 = dom acc ∪ list_to_set ids.
Proof.
  revert acc w. induction ids as [|id ids IH]; intros acc w; simpl; [set_solver|].
  rewrite IH. rewrite dom_insert_L. set_solver.
Qed.

Lemma readShippedBlocks_frame d env w :
  let w' := (readShippedBlocks d env w).2 in
  mimir_file w' = mimir_file w ∧ thanos_file w' = thanos_file w ∧
  bucket w' = bucket w ∧ trace w' = trace w ∧ (ticks w ≤ ticks w')%nat.
Proof.
  unfold readShippedBlocks, readThanosShippedBlocks.
  destruct (readShipperMetaFile d w); simpl; [done|].
  destruct (readThanosShipperMetaFile d w) as [tm|e']; simpl.
  - pose proof (stamp_uploaded_frame env (Uploaded tm) ∅ w) as H.
    destruct (stamp_uploaded env (Uploaded tm) ∅ w). exact H.
  - destruct (errors_Is_NotExist e'); done.
Qed.

(** Loading the previously shipped blocks touches neither the files nor
    the bucket, and logs at most a warning. *)
Lemma loadShippedBlocks_frame cfg env w sb w1 :
  loadShippedBlocks cfg env w = (sb, w1) →
  mimir_file w1 = mimir_file w ∧ thanos_file w1 = thanos_file w ∧
  bucket w1 = bucket w ∧ (ticks w ≤ ticks w1)%nat ∧
  ∃ evs, trace w1 = trace w ++ evs ∧
         uploads evs = [] ∧ checks evs = [] ∧ writes evs = [].
Proof.
  unfold loadShippedBlocks. intros H.
  pose proof (readShippedBlocks_frame (dir cfg) env w) as Hf.
  destruct (readShippedBlocks (dir cfg) env w) as [[m|e] w0]; simpl in Hf;
    destruct Hf as (? & ? & ? & Ht & ?); injection H as <- <-; simpl.
  - split_and!; auto. exists []. by rewrite app_nil_r.
  - split_and!; auto. rewrite Ht. by eexists [_].
Qed.

(** The previously shipped blocks are among those a meta file lists. *)
Lemma loadShippedBlocks_ids cfg env w sb w1 :
  loadShippedBlocks cfg env w = (sb, w1) →
  dom sb ⊆ mimir_ids (mimir_file w) ∪ thanos_ids (thanos_file w).
Proof.
  unfold loadShippedBlocks, readShippedBlocks, readThanosShippedBlocks,
    readShipperMetaFile, readThanosShipperMetaFile. intros H.
  repeat case_match; simplify_eq/=; try set_solver.
  all: match goal with
       | Hs : stamp_uploaded ?e ?l ∅ ?w0 = _ |- _ =>
           pose proof (stamp_uploaded_dom e l ∅ w0) as Hd;
           rewrite Hs in Hd; simpl in Hd; rewrite Hd; set_solver
       end.
Qed.

Lemma Sync_unfold cfg env w sb w1 :
  loadShippedBlocks cfg env w = (sb, w1) →
  Sync cfg env w =
  match blockMetasFromOldest cfg env with
  | Err e => ((0, Some e), w1)
  | Ok metas =>
      match sync_loop cfg env sb metas (mkLoopState ∅ 0 0 w1) with
      | Abort e w2 => ((0, Some e), w2)
      | Continue st =>
          let w3 := updateMetaFile env
                      (mkShipperMeta shipperMetaVersion1 (ls_Shipped st)) (ls_world st) in
          if decide (ls_uploadErrs st > 0)
          then ((ls_shipped st,
                 Some (ErrNew ("failed to sync " +:+ pretty (ls_uploadErrs st) +:+ " blocks"))),
                w3)
          else ((ls_shipped st, None), w3)
      end
  end.
Proof. intros H. unfold Sync. by rewrite H. Qed.

(** Writing the record: one call of [writeShipperMetaFile], at most one
    warning, bucket and clock untouched. *)
Lemma updateMetaFile_frame env meta w :
  let w' := updateMetaFile env meta w in
  bucket w' = bucket w ∧ ticks w' = ticks w ∧
  ∃ evs, trace w' = trace w ++ evs ∧
         uploads evs = [] ∧ checks evs = [] ∧ writes evs = [meta].
Proof.
  unfold updateMetaFile, writeShipperMetaFile, writeThanosShipperMetaFile.
  destruct (mimir_write_fault env), (thanos_write_fault env); simpl;
    split_and!; try done;
    first [ by eexists [_; _]; rewrite <- app_assoc | by eexists [_] ].
Qed.

(** With no fault, both files hold the record. *)
Lemma updateMetaFile_ok env meta w :
  mimir_write_fault env = WNoFault → thanos_write_fault env = WNoFault →
  let w' := updateMetaFile env meta w in
  mimir_file w' = FileJSON meta ∧
  thanos_file w' = FileJSON (mkThanosShipperMeta shipperMetaVersion1
                               (map_to_list (Shipped meta)).*1) ∧
  trace w' = trace w ++ [EvWriteMeta meta].
Proof.
  intros H1 H2. unfold updateMetaFile, writeShipperMetaFile, writeThanosShipperMetaFile.
  rewrite H1, H2. simpl. done.
Qed.

(** Whatever the faults, the files list only blocks they listed before or
    blocks of the record. *)
Lemma updateMetaFile_ids env meta w :
  let w' := updateMetaFile env meta w in
  mimir_ids (mimir_file w') ⊆ mimir_ids (mimir_file w) ∪ dom (Shipped meta) ∧
  thanos_ids (thanos_file w') ⊆ thanos_ids (thanos_file w) ∪ dom (Shipped meta).
Proof.
  assert (Hk : list_to_set (map_to_list (Shipped meta)).*1 =@{gset N} dom (Shipped meta)).
  { apply set_eq. intros x. rewrite elem_of_list_to_set, elem_of_dom.
    rewrite list_elem_of_fmap. split.
    - intros ([k v] & -> & Hin). apply elem_of_map_to_list in Hin. by eexists.
    - intros [v Hv]. exists (x, v). split; [done|]. by apply elem_of_map_to_list. }
  unfold updateMetaFile, writeShipperMetaFile, writeThanosShipperMetaFile.
  destruct (mimir_write_fault env), (thanos_write_fault env); simpl;
    rewrite ?Hk; split; set_solver.
Qed.


Lemma uploads_app evs1 evs2 : uploads (evs1 ++ evs2) = uploads evs1 ++ uploads evs2.
Proof. unfold uploads. apply omap_app. Qed.

Lemma checks_app evs1 evs2 : checks (evs1 ++ evs2) = checks evs1 ++ checks evs2.
Proof. unfold checks. apply omap_app. Qed.

Lemma writes_app evs1 evs2 : writes (evs1 ++ evs2) = writes evs1 ++ writes evs2.
Proof. unfold writes. apply omap_app. Qed.

(** The uploads of a pass are of listed blocks that got as far as the
    check and were not in the bucket at the start. *)
Lemma loop_uploads cfg env sb metas B evs id :
  Forall (loop_event cfg env sb metas B) evs → id ∈ uploads evs →
  ∃ m, m ∈ metas ∧ ULID m = id ∧ reaches_check sb m ∧ id ∉ B.
Proof.
  intros Hf Hin. unfold uploads in Hin. apply list_elem_of_omap in Hin as (ev & Hev & Hid).
  rewrite Forall_forall in Hf. specialize (Hf ev Hev).
  destruct ev; simplify_eq/=. destruct Hf as (m0 & ? & -> & ? & ? & ?).
  exists m0. split_and!; auto.
Qed.

Lemma loop_checks cfg env sb metas B evs id :
  Forall (loop_event cfg env sb metas B) evs → id ∈ checks evs →
  ∃ m, m ∈ metas ∧ ULID m = id ∧ reaches_check sb m.
Proof.
  intros Hf Hin. unfold checks in Hin. apply list_elem_of_omap in Hin as (ev & Hev & Hid).
  rewrite Forall_forall in Hf. specialize (Hf ev Hev).
  destruct ev; simplify_eq/=. exact Hf.
Qed.

Lemma loop_writes cfg env sb metas B evs :
  Forall (loop_event cfg env sb metas B) evs → writes evs = [].
Proof.
  induction 1 as [|ev evs Hev _ IH]; [done|]. unfold writes in *. simpl.
  destruct ev; simpl in *; auto. done.
Qed.

Lemma sync_loop_app cfg env sb pre post st :
  sync_loop cfg env sb (pre ++ post) st =
  match sync_loop cfg env sb pre st with
  | Continue st' => sync_loop cfg env sb post st'
  | Abort e w => Abort e w
  end.
Proof.
  revert st. induction pre as [|m pre IH]; intros st; simpl; [done|].
  destruct (sync_block cfg env sb m st); [apply IH|done].
Qed.

(** [Sync] seen from outside: what it returns, what it leaves in the
    world and what it adds to the trace, for a pass that reaches its end
    and for one that is cut short. *)
Lemma Sync_run cfg env w sb w1 metas :
  loadShippedBlocks cfg env w = (sb, w1) →
  blockMetasFromOldest cfg env = Ok metas →
  ∃ evs0 evsL,
    uploads evs0 = [] ∧ checks evs0 = [] ∧ writes evs0 = [] ∧
    Forall (loop_event cfg env sb metas (bucket w)) evsL ∧
    ((∃ st evsW,
        sync_loop cfg env sb metas (mkLoopState ∅ 0 0 w1) = Continue st ∧
        Sync cfg env w =
          ((ls_shipped st, sync_err st),
           updateMetaFile env (mkShipperMeta shipperMetaVersion1 (ls_Shipped st))
             (ls_world st)) ∧
        mimir_file (ls_world st) = mimir_file w ∧
        thanos_file (ls_world st) = thanos_file w ∧
        events_since w (Sync cfg env w).2 = evs0 ++ evsL ++ evsW ∧
        uploads evsW = [] ∧ checks evsW = [] ∧
        writes evsW = [mkShipperMeta shipperMetaVersion1 (ls_Shipped st)])
     ∨
     (∃ e w2,
        sync_loop cfg env sb metas (mkLoopState ∅ 0 0 w1) = Abort e w2 ∧
        Sync cfg env w = ((0, Some e), w2) ∧
        mimir_file w2 = mimir_file w ∧ thanos_file w2 = thanos_file w ∧
        events_since w w2 = evs0 ++ evsL)).
Proof.
  intros Hload Hmetas.
  destruct (loadShippedBlocks_frame _ _ _ _ _ Hload)
    as (Hm1 & Ht1 & Hb1 & Hk1 & evs0 & He0 & Hu0 & Hc0 & Hw0).
  pose proof (sync_loop_frame cfg env sb metas (mkLoopState ∅ 0 0 w1))
    as (Hm2 & Ht2 & Hb2 & Hk2 & evsL & HeL & HfL).
  simpl in *. rewrite Hb1 in HfL.
  exists evs0, evsL. split_and!; auto.
  rewrite (Sync_unfold _ _ _ _ _ Hload), Hmetas.
  destruct (sync_loop cfg env sb metas (mkLoopState ∅ 0 0 w1)) as [st|e w2]; simpl in *.
  - left. pose proof (updateMetaFile_frame env
      (mkShipperMeta shipperMetaVersion1 (ls_Shipped st)) (ls_world st))
      as (_ & _ & evsW & HeW & HuW & HcW & HwW).
    exists st, evsW. split; [done|].
    assert (Hsync : (if decide (ls_uploadErrs st > 0)
       then (ls_shipped st,
             Some (ErrNew ("failed to sync " +:+ pretty (ls_uploadErrs st) +:+ " blocks")),
             updateMetaFile env (mkShipperMeta shipperMetaVersion1 (ls_Shipped st)) (ls_world st))
       else (ls_shipped st, None,
             updateMetaFile env (mkShipperMeta shipperMetaVersion1 (ls_Shipped st)) (ls_world st)))
      = ((ls_shipped st, sync_err st),
         updateMetaFile env (mkShipperMeta shipperMetaVersion1 (ls_Shipped st)) (ls_world st))).
    { unfold sync_err. by destruct (decide (ls_uploadErrs st > 0)). }
    rewrite Hsync. simpl. split_and!; auto; try congruence.
    apply events_since_app. rewrite HeW, HeL, He0. by rewrite <- !app_assoc.
  - right. exists e, w2. split_and!; auto; try congruence.
    apply events_since_app. rewrite HeL, He0. by rewrite <- !app_assoc.
Qed.

Lemma filter_ext_elem_of {A} (P1 P2 : A → Prop)
    `{!∀ x, Decision (P1 x), !∀ x, Decision (P2 x)} (l : list A) :
  (∀ x, x ∈ l → P1 x ↔ P2 x) → filter P1 l = filter P2 l.
Proof.
  induction l as [|a l IH]; intros Hext; [done|].
  rewrite !filter_cons. rewrite IH by (intros; apply Hext; set_solver).
  assert (Ha : P1 a ↔ P2 a) by (apply Hext; set_solver).
  destruct (decide (P1 a)), (decide (P2 a)); tauto.
Qed.

(** A pass over distinct blocks that all need an upload tries each of
    them, in order. *)
Lemma sync_loop_tries_all cfg env sb metas st :
  NoDup (ULID <$> metas) →
  (∀ m, m ∈ metas → needs_upload env (bucket (ls_world st)) sb m) →
  ∃ st' evs,
    sync_loop cfg env sb metas st = Continue st' ∧
    trace (ls_world st') = trace (ls_world st) ++ evs ∧
    uploads evs = ULID <$> metas ∧ checks evs = ULID <$> metas.
Proof.
  revert st. induction metas as [|m metas IH]; intros st Hnd Hall.
  { exists st, []. simpl. by rewrite app_nil_r. }
  rewrite fmap_cons in Hnd. apply NoDup_cons in Hnd as [Hnotin Hnd].
  destruct (Hall m) as ((Hsb & Hz & Hl) & Hnb & Hex); [set_solver|].
  assert (Hrest : ∀ B', B' ⊆ {[ULID m]} ∪ bucket (ls_world st) →
            ∀ m', m' ∈ metas → needs_upload env B' sb m').
  { intros B' HB' m' Hin'. destruct (Hall m') as (? & Hnb' & ?); [set_solver|].
    split_and!; auto. intros Hc. apply HB' in Hc. apply elem_of_union in Hc as [Hc|Hc]; [|done].
    apply elem_of_singleton in Hc. apply Hnotin. rewrite <- Hc.
    apply list_elem_of_fmap. by exists m'. }
  simpl. unfold sync_block. rewrite Hsb.
  destruct (decide (NumSamples m = 0%N)); [done|].
  destruct (decide (Level m > 1)); [lia|].
  unfold bucket_Exists. rewrite Hex. simpl.
  rewrite bool_decide_eq_false_2 by done. simpl.
  unfold upload. simpl. destruct (upload_fault env (ULID m)) as [e|] eqn:Hup; simpl.
  - match goal with |- context [sync_loop _ _ _ _ ?s] =>
      destruct (IH s Hnd) as (st' & evs & -> & Ht & Hu & Hc) end.
    { apply Hrest. simpl. set_solver. }
    exists st', ([EvExists (ULID m); EvUpload (enrich cfg env m);
                  EvError "shipping failed" (ULID m) e] ++ evs).
    split_and!; auto.
    + rewrite Ht. simpl. by rewrite <- !app_assoc.
    + rewrite uploads_app, Hu. done.
    + rewrite checks_app, Hc. done.
  - match goal with |- context [sync_loop _ _ _ _ ?s] =>
      destruct (IH s Hnd) as (st' & evs & -> & Ht & Hu & Hc) end.
    { apply Hrest. simpl. set_solver. }
    exists st', ([EvExists (ULID m); EvUpload (enrich cfg env m)] ++ evs).
    split_and!; auto.
    + rewrite Ht. simpl. by rewrite <- !app_assoc.
    + rewrite uploads_app, Hu. done.
    + rewrite checks_app, Hc. done.
Qed.

(** What one call of [Sync] adds to the trace and leaves in the files. *)
Lemma Sync_trace cfg env w sb w1 :
  loadShippedBlocks cfg env w = (sb, w1) →
  ∃ evs,
    trace (Sync cfg env w).2 = trace w ++ evs ∧
    (∀ id, id ∈ uploads evs →
       ∃ metas m, blockMetasFromOldest cfg env = Ok metas ∧ m ∈ metas ∧
                  ULID m = id ∧ reaches_check sb m ∧ id ∉ bucket w) ∧
    (∀ id, id ∈ checks evs →
       ∃ metas m, blockMetasFromOldest cfg env = Ok metas ∧ m ∈ metas ∧
                  ULID m = id ∧ reaches_check sb m) ∧
    (∀ rec id, rec ∈ writes evs → is_Some (Shipped rec !! id) →
       ∃ metas m, blockMetasFromOldest cfg env = Ok metas ∧ m ∈ metas ∧
                  ULID m = id ∧ (is_Some (sb !! id) ∨ ships env (bucket w) sb m)) ∧
    (mimir_file (Sync cfg env w).2 = mimir_file w ∧
     thanos_file (Sync cfg env w).2 = thanos_file w
     ∨ ∃ rec, writes evs = [rec] ∧
         mimir_ids (mimir_file (Sync cfg env w).2) ⊆ mimir_ids (mimir_file w) ∪ dom (Shipped rec) ∧
         thanos_ids (thanos_file (Sync cfg env w).2) ⊆ thanos_ids (thanos_file w) ∪ dom (Shipped rec)).
Proof.
  intros Hload.
  destruct (loadShippedBlocks_frame _ _ _ _ _ Hload)
    as (Hm1 & Ht1 & Hb1 & Hk1 & evs0 & He0 & Hu0 & Hc0 & Hw0).
  destruct (blockMetasFromOldest cfg env) as [metas|e] eqn:Hmetas.
  2: { rewrite (Sync_unfold _ _ _ _ _ Hload), Hmetas. simpl. exists evs0.
       split; [done|]. rewrite Hu0, Hc0, Hw0.
       split_and!; try (intros; exfalso; eapply elem_of_nil; eassumption); auto. }
  destruct (Sync_run _ _ _ _ _ _ Hload Hmetas)
    as (evs0' & evsL & Hu0' & Hc0' & Hw0' & HfL & Hrun).
  assert (HupL : ∀ id, id ∈ uploads evsL →
       ∃ metas0 m, Ok metas = Ok metas0 ∧ m ∈ metas0 ∧
                  ULID m = id ∧ reaches_check sb m ∧ id ∉ bucket w).
  { intros id Hin. destruct (loop_uploads _ _ _ _ _ _ _ HfL Hin) as (m & ? & ? & ? & ?).
    exists metas, m. done. }
  assert (HckL : ∀ id, id ∈ checks evsL →
       ∃ metas0 m, Ok metas = Ok metas0 ∧ m ∈ metas0 ∧
                  ULID m = id ∧ reaches_check sb m).
  { intros id Hin. destruct (loop_checks _ _ _ _ _ _ _ HfL Hin) as (m & ? & ? & ?).
    exists metas, m. done. }
  destruct Hrun as [(st & evsW & Hc & Hs & Hmf & Htf & Hev & HuW & HcW & HwW)|(e & w2 & Ha & Hs & Hmf & Htf & Hev)].
  - exists (evs0' ++ evsL ++ evsW). split_and!.
    + pose proof (sync_loop_frame cfg env sb metas (mkLoopState ∅ 0 0 w1)) as Hf.
      rewrite Hc in Hf. simpl in Hf. destruct Hf as (_ & _ & _ & _ & evsL' & HeL' & _).
      pose proof (updateMetaFile_frame env
        (mkShipperMeta shipperMetaVersion1 (ls_Shipped st)) (ls_world st))
        as (_ & _ & evsW' & HeW' & _).
      assert (Hev' : events_since w (Sync cfg env w).2 = evs0 ++ evsL' ++ evsW').
      { rewrite Hs. simpl. apply events_since_app. rewrite HeW', HeL', He0.
        by rewrite <- !app_assoc. }
      rewrite Hs. simpl. rewrite HeW', HeL', He0, <- !app_assoc.
      f_equal. rewrite Hev in Hev'. exact (eq_sym Hev').
    + intros id. rewrite !uploads_app, Hu0', HuW. simpl. rewrite app_nil_r. apply HupL.
    + intros id. rewrite !checks_app, Hc0', HcW. simpl. rewrite app_nil_r. apply HckL.
    + intros rec id. rewrite !writes_app, Hw0', (loop_writes _ _ _ _ _ _ HfL), HwW. simpl.
      intros Hin Hsome. apply list_elem_of_singleton in Hin. subst rec. simpl in Hsome.
      destruct Hsome as [v Hv].
      destruct (sync_loop_record_sound cfg env sb metas _ st id v Hc Hv)
        as [H0|[(m' & t & ? & ? & Hc' & _)|(m' & k & ? & ? & Hsh & _)]].
      * simpl in H0. by rewrite lookup_empty in H0.
      * exists metas, m'. split_and!; [done..|]. left. by eexists.
      * exists metas, m'. split_and!; [done..|]. right. simpl in Hsh. by rewrite Hb1 in Hsh.
    + right. exists (mkShipperMeta shipperMetaVersion1 (ls_Shipped st)). split.
      { rewrite !writes_app, Hw0', (loop_writes _ _ _ _ _ _ HfL), HwW. done. }
      rewrite Hs. simpl.
      pose proof (updateMetaFile_ids env
        (mkShipperMeta shipperMetaVersion1 (ls_Shipped st)) (ls_world st)) as [Hi1 Hi2].
      simpl in Hi1, Hi2. rewrite Hmf in Hi1. rewrite Htf in Hi2. done.
  - exists (evs0' ++ evsL). split_and!.
    + pose proof (sync_loop_frame cfg env sb metas (mkLoopState ∅ 0 0 w1)) as Hf.
      rewrite Ha in Hf. simpl in Hf. destruct Hf as (_ & _ & _ & _ & evsL' & HeL' & _).
      assert (Hev' : events_since w w2 = evs0 ++ evsL').
      { apply events_since_app. rewrite HeL', He0. by rewrite <- !app_assoc. }
      rewrite Hs. simpl. rewrite HeL', He0, <- !app_assoc.
      f_equal. rewrite Hev in Hev'. exact (eq_sym Hev').
    + intros id. rewrite !uploads_app, Hu0'. simpl. apply HupL.
    + intros id. rewrite !checks_app, Hc0'. simpl. apply HckL.
    + intros rec id. rewrite !writes_app, Hw0', (loop_writes _ _ _ _ _ _ HfL). simpl.
      intros Hin. by apply elem_of_nil in Hin.
    + left. rewrite Hs. simpl. done.
Qed.

(** One call, seen block by block: a block that is not uploaded and not
    recorded by this call, because no listed block of that ID gets as
    far as the existence check and it was not shipped before. *)
Lemma Sync_skips cfg env w id :
  (loadShippedBlocks cfg env w).1 !! id = None →
  (∀ metas m, blockMetasFromOldest cfg env = Ok metas → m ∈ metas → ULID m = id →
              NumSamples m = 0%N ∨ Level m > 1) →
  ∃ evs, trace (Sync cfg env w).2 = trace w ++ evs ∧
    (id ∉ uploads evs) ∧ (id ∉ checks evs) ∧
    (∀ rec, rec ∈ writes evs → Shipped rec !! id = None) ∧
    (id ∉ mimir_ids (mimir_file w) → id ∉ mimir_ids (mimir_file (Sync cfg env w).2)) ∧
    (id ∉ thanos_ids (thanos_file w) → id ∉ thanos_ids (thanos_file (Sync cfg env w).2)).
Proof.
  intros Hsb Hskip.
  destruct (loadShippedBlocks cfg env w) as [sb w1] eqn:Hload. simpl in Hsb.
  destruct (Sync_trace _ _ _ _ _ Hload) as (evs & Ht & Hu & Hc & Hw & Hfiles).
  assert (Hnr : ∀ metas m, blockMetasFromOldest cfg env = Ok metas → m ∈ metas →
                  ULID m = id → ¬ reaches_check sb m).
  { intros metas m Hm Hin Hid (_ & Hz & Hl).
    destruct (Hskip metas m Hm Hin Hid); [done|lia]. }
  assert (Hrec : ∀ rec, rec ∈ writes evs → Shipped rec !! id = None).
  { intros rec Hin. destruct (Shipped rec !! id) as [v|] eqn:Hv; [|done]. exfalso.
    destruct (Hw rec id Hin) as (metas & m & Hm & Hin' & Hid & [[t Hs]|[Hr _]]).
    - by eexists.
    - congruence.
    - eapply Hnr; eauto. }
  exists evs. split_and!; auto.
  - intros Hin. destruct (Hu id Hin) as (metas & m & Hm & Hin' & Hid & Hr & _).
    eapply Hnr; eauto.
  - intros Hin. destruct (Hc id Hin) as (metas & m & Hm & Hin' & Hid & Hr).
    eapply Hnr; eauto.
  - intros Hn. destruct Hfiles as [[-> _]|(rec & Hwr & Hi & _)]; [done|].
    intros Hin. apply Hi in Hin. apply elem_of_union in Hin as [Hin|Hin]; [done|].
    apply elem_of_dom in Hin as [v Hv]. rewrite Hrec in Hv; [done|]. rewrite Hwr. set_solver.
  - intros Hn. destruct Hfiles as [[_ ->]|(rec & Hwr & _ & Hi)]; [done|].
    intros Hin. apply Hi in Hin. apply elem_of_union in Hin as [Hin|Hin]; [done|].
    apply elem_of_dom in Hin as [v Hv]. rewrite Hrec in Hv; [done|]. rewrite Hwr. set_solver.
Qed.

Lemma not_stored_not_loaded cfg env w id :
  id ∉ mimir_ids (mimir_file w) → id ∉ thanos_ids (thanos_file w) →
  (loadShippedBlocks cfg env w).1 !! id = None.
Proof.
  intros H1 H2. destruct (loadShippedBlocks cfg env w) as [sb w1] eqn:Hload. simpl.
  pose proof (loadShippedBlocks_ids _ _ _ _ _ Hload) as Hsub.
  apply not_elem_of_dom. set_solver.
Qed.

Lemma Sync_many_skips cfg envs w id :
  id ∉ mimir_ids (mimir_file w) → id ∉ thanos_ids (thanos_file w) →
  (∀ env metas m, env ∈ envs → blockMetasFromOldest cfg env = Ok metas → m ∈ metas →
                  ULID m = id → NumSamples m = 0%N) →
  ∃ evs, trace (Sync_many cfg envs w).2 = trace w ++ evs ∧
    (id ∉ uploads evs) ∧
    (∀ rec, rec ∈ writes evs → Shipped rec !! id = None) ∧
    (id ∉ mimir_ids (mimir_file (Sync_many cfg envs w).2)) ∧
    id ∉ thanos_ids (thanos_file (Sync_many cfg envs w).2).
Proof.
  revert w. induction envs as [|env envs IH]; intros w Hm Ht Hz; simpl.
  { exists []. rewrite app_nil_r. split_and!; auto; set_solver. }
  destruct (Sync_skips cfg env w id) as (evs1 & He1 & Hu1 & _ & Hw1 & Hm1 & Ht1).
  { by apply not_stored_not_loaded. }
  { intros metas m Hl Hin Hid. left. eapply Hz; eauto. set_solver. }
  destruct (Sync cfg env w) as [r w1] eqn:Hs. simpl in *.
  destruct (IH w1 (Hm1 Hm) (Ht1 Ht)) as (evs2 & He2 & Hu2 & Hw2 & Hm2 & Ht2).
  { intros env' metas m Hin. apply Hz. set_solver. }
  destruct (Sync_many cfg envs w1) as [rs w2] eqn:Hsm. simpl in *.
  exists (evs1 ++ evs2). split_and!; auto.
  - rewrite He2, He1. by rewrite app_assoc.
  - rewrite uploads_app. set_solver.
  - intros rec. rewrite writes_app. intros Hin. apply elem_of_app in Hin as [Hin|Hin]; auto.
Qed.

(** A time recorded by the shipper survives being written, read back and
    carried forward. *)
Lemma carried_time_stable x :
  let v := TimeFromUnixNano (UnixNano x) in
  TimeFromUnixNano (UnixNano (model_Time_Time v)) = v.
Proof.
  unfold TimeFromUnixNano, UnixNano, model_Time_Time. simpl.
  pose proof (wrap64_range x) as Hr. unfold in_int64 in Hr.
  set (y := wrap64 x) in *.
  assert (Hq : in_int64 (y `quot` 1000000 * 1000000)).
  { unfold in_int64.
    pose proof (Z.quot_rem' y 1000000) as Hd.
    assert (Hrem : 0 <= y → 0 <= y `rem` 1000000 < 1000000)
      by (intros; apply Z.rem_bound_pos; lia).
    assert (Hrem' : y < 0 → - 1000000 < y `rem` 1000000 <= 0)
      by (intros; apply (Z.rem_bound_pos_neg y 1000000); lia).
    clearbody y. revert Hd Hrem Hrem'.
    generalize (y `quot` 1000000), (y `rem` 1000000). intros q r Hd Hrem Hrem'. lia. }
  rewrite (wrap64_small _ Hq). apply Z.quot_mul. lia.
Qed.

(** A pass in which no block gets as far as the existence check calls no
    collaborator and counts nothing. *)
Lemma sync_loop_nothing_new cfg env sb metas st :
  (∀ m, m ∈ metas → ¬ reaches_check sb m) →
  ∃ st', sync_loop cfg env sb metas st = Continue st' ∧
         ls_world st' = ls_world st ∧ ls_shipped st' = ls_shipped st ∧
         ls_uploadErrs st' = ls_uploadErrs st.
Proof.
  revert st. induction metas as [|m metas IH]; intros st Hn; simpl.
  { by exists st. }
  assert (Hn' : ∀ m', m' ∈ metas → ¬ reaches_check sb m') by (intros; apply Hn; set_solver).
  unfold sync_block. destruct (sb !! ULID m) as [t|] eqn:Hsb.
  { match goal with |- context [sync_loop _ _ _ _ ?s] =>
      destruct (IH s Hn') as (st' & -> & ? & ? & ?) end. by exists st'. }
  destruct (decide (NumSamples m = 0%N)); [by apply IH|].
  destruct (decide (Level m > 1)); [by apply IH|].
  exfalso. apply (Hn m); [set_solver|]. unfold reaches_check. split_and!; [done|done|lia].
Qed.

Lemma updateMetaFile_mimir env meta w :
  mimir_write_fault env = WNoFault →
  mimir_file (updateMetaFile env meta w) = FileJSON meta.
Proof.
  intros H. unfold updateMetaFile, writeShipperMetaFile, writeThanosShipperMetaFile.
  rewrite H. simpl. by destruct (thanos_write_fault env).
Qed.

Lemma blockMetasFromOldest_ReadDir cfg env1 env2 :
  ReadDir env2 = ReadDir env1 →
  blockMetasFromOldest cfg env2 = blockMetasFromOldest cfg env1.
Proof. intros H. unfold blockMetasFromOldest. by rewrite H. Qed.

Lemma read_metas_err cfg names acc e :
  read_metas cfg names acc = Err e → ∃ msg cause, e = ErrWrap msg cause.
Proof.
  revert acc. induction names as [|n names IH]; intros acc; simpl; [done|].
  destruct (de_IsBlockDir n); simpl; [|apply IH].
  destruct (de_Stat n) as [[|]|e1]; [| apply IH | intros [= <-]; eauto].
  destruct (de_ReadFromDir n) as [m|e2]; [apply IH | intros [= <-]; eauto].
Qed.

Lemma blockMetasFromOldest_err cfg env e :
  blockMetasFromOldest cfg env = Err e → ∃ msg cause, e = ErrWrap msg cause.
Proof.
  unfold blockMetasFromOldest. destruct (ReadDir env) as [fis|e0]; [|intros [= <-]; eauto].
  destruct (read_metas cfg fis []) as [metas|e1] eqn:Hr; [done|].
  intros [= <-]. eapply read_metas_err, Hr.
Qed.

Lemma map_to_list_keys (m : gmap N Z) :
  list_to_set (map_to_list m).*1 =@{gset N} dom m ∧ NoDup (map_to_list m).*1.
Proof.
  split; [|apply NoDup_fst_map_to_list].
  apply set_eq. intros x. rewrite elem_of_list_to_set, elem_of_dom.
  rewrite list_elem_of_fmap. split.
  - intros ([k v] & -> & Hin). apply elem_of_map_to_list in Hin. by eexists.
  - intros [v Hv]. exists (x, v). split; [done|]. by apply elem_of_map_to_list.
Qed.

Lemma stamp_uploaded_values env ids acc w id v :
  (stamp_uploaded env ids acc w).1 !! id = Some v →
  acc !! id = Some v ∨
  ∃ k, (ticks w ≤ k < ticks (stamp_uploaded env ids acc w).2)%nat ∧ v = clock env k.
Proof.
  revert acc w. induction ids as [|i ids IH]; intros acc w; simpl; [by left|].
  intros Hv.
  pose proof (stamp_uploaded_frame env ids (<[i:=clock env (ticks w)]> acc)
    (mkWorld (mimir_file w) (thanos_file w) (bucket w) (S (ticks w)) (trace w)))
    as (_ & _ & _ & _ & Hk). simpl in Hk.
  destruct (IH _ _ Hv) as [H0|(k & Hk' & ->)].
  - rewrite lookup_insert in H0. destruct (decide (i = id)).
    + injection H0 as <-. right. exists (ticks w). split; [lia|done].
    + by left.
  - right. exists k. simpl in Hk'. split; [lia|done].
Qed.

(** ** The claims about the shipper *)

(** C1. A block that is not in the previously shipped set, has samples and
    is of compaction level at most 1, and whose [meta.json] is in the bucket
    when [Sync] examines it (the existence check answers yes): the
    iteration only checks its existence, does not upload it, records it in
    the new record with the current time and adds one to [shipped], the
    count [Sync] returns. The rest of the call does not upload it either;
    and when the pass reaches its end, the count returned includes it and
    the record handed to [writeShipperMetaFile] holds it with a time read
    during the call. (A later failed existence check ends the call with
    count 0 and without a write.) *)
Theorem sync_block_found_in_bucket cfg env sb m st :
  sb !! ULID m = None → NumSamples m ≠ 0%N → Level m <= 1 →
  exists_fault env (ULID m) = None → ULID m ∈ bucket (ls_world st) →
  ∃ st',
    sync_block cfg env sb m st = Continue st' ∧
    events_since (ls_world st) (ls_world st') = [EvExists (ULID m)] ∧
    bucket (ls_world st') = bucket (ls_world st) ∧
    ls_Shipped st' = <[ULID m := stamp env (ticks (ls_world st))]> (ls_Shipped st) ∧
    ls_shipped st' = ls_shipped st + 1 ∧
    ls_uploadErrs st' = ls_uploadErrs st ∧
    (∀ w w1 pre post,
       loadShippedBlocks cfg env w = (sb, w1) →
       blockMetasFromOldest cfg env = Ok (pre ++ m :: post) →
       sync_loop cfg env sb pre (mkLoopState ∅ 0 0 w1) = Continue st →
       let r := Sync cfg env w in
       (ULID m ∉ uploads (events_since (ls_world st) r.2)) ∧
       ((∃ e, r.1 = (0, Some (ErrWrap "check exists" e)) ∧
              writes (events_since w r.2) = []) ∨
        (∃ stf k,
           sync_loop cfg env sb post st' = Continue stf ∧
           r.1 = (ls_shipped stf, sync_err stf) ∧
           ls_shipped stf = ls_shipped st + 1 +
             Z.of_nat (length (filter (ships env (bucket (ls_world st)) sb) post)) ∧
           writes (events_since w r.2) =
             [mkShipperMeta shipperMetaVersion1 (ls_Shipped stf)] ∧
           ls_Shipped stf !! ULID m = Some (stamp env k) ∧
           (ticks (ls_world st) ≤ k)%nat))).
Proof.
  intros Hsb Hz Hl Hex Hin.
  set (st1 := mkLoopState (<[ULID m := stamp env (ticks (ls_world st))]> (ls_Shipped st))
            (ls_shipped st + 1) (ls_uploadErrs st)
            (time_Now env (emit (EvExists (ULID m)) (ls_world st))).2).
  assert (Hstep : sync_block cfg env sb m st = Continue st1).
  { unfold sync_block. rewrite Hsb.
    destruct (decide (NumSamples m = 0%N)); [done|].
    destruct (decide (Level m > 1)); [lia|].
    unfold bucket_Exists. rewrite Hex. simpl.
    rewrite bool_decide_eq_true_2 by done. simpl. reflexivity. }
  exists st1. split_and!; try done.
  { by apply events_since_app. }
  intros w w1 pre post Hload Hmetas Hpre r.
  destruct (Sync_run _ _ _ _ _ _ Hload Hmetas) as (evs0 & evsL & _ & _ & Hw0 & HfL & Hrun).
  pose proof (sync_loop_frame cfg env sb post st1) as (_ & _ & _ & _ & evsP & HeP & HfP).
  assert (Hloop : sync_loop cfg env sb (pre ++ m :: post) (mkLoopState ∅ 0 0 w1)
                  = sync_loop cfg env sb post st1).
  { rewrite sync_loop_app, Hpre. simpl. by rewrite Hstep. }
  assert (HnoP : ULID m ∉ uploads evsP).
  { intros Hup. destruct (loop_uploads _ _ _ _ _ _ _ HfP Hup) as (_ & _ & _ & _ & Hn).
    apply Hn. exact Hin. }
  destruct Hrun as [(stf & evsW & Hc & Hs & _ & _ & Hev & HuW & _ & HwW)|(e & w2 & Ha & Hs & _ & _ & Hev)].
  - rewrite Hloop in Hc. rewrite Hc in HeP. simpl in HeP.
    pose proof (updateMetaFile_frame env
      (mkShipperMeta shipperMetaVersion1 (ls_Shipped stf)) (ls_world stf))
      as (_ & _ & evsW' & HeW & HuW' & _ & _).
    split.
    + subst r. rewrite Hs. simpl.
      erewrite events_since_app; [|rewrite HeW, HeP; simpl; rewrite <- !app_assoc; reflexivity].
      rewrite !uploads_app, HuW'. simpl. rewrite app_nil_r. exact HnoP.
    + right.
      assert (Hs1 : ships env (bucket (ls_world st1)) sb m).
      { split; [unfold reaches_check; split_and!; auto|]. left. exact Hin. }
      destruct (sync_loop_counts cfg env sb post st1 (sync_loop_no_fault _ _ _ _ _ _ Hc))
        as (st2 & Hloop2 & Hcnt & _).
      rewrite Hc in Hloop2. injection Hloop2 as <-.
      assert (Hk0 : ls_Shipped st1 !! ULID m = Some (stamp env (ticks (ls_world st)))).
      { simpl. by rewrite lookup_insert_eq. }
      destruct (sync_loop_record_mono cfg env sb post st1 stf (ULID m) Hc) as [v Hv];
        [by eexists|].
      assert (Hk : ∃ k, ls_Shipped stf !! ULID m = Some (stamp env k) ∧
                        (ticks (ls_world st) ≤ k)%nat).
      { destruct (sync_loop_record_sound cfg env sb post st1 stf (ULID m) v Hc Hv)
          as [H0|[(m' & t & _ & _ & Hc' & _)|(m' & k & _ & _ & _ & Hk' & ->)]].
        - rewrite Hk0 in H0. injection H0 as <-. eauto.
        - congruence.
        - exists k. simpl in Hk'. split; [done|lia]. }
      destruct Hk as (k & Hk & Hle).
      assert (Hwr : writes (events_since w (Sync cfg env w).2) =
                    [mkShipperMeta shipperMetaVersion1 (ls_Shipped stf)]).
      { rewrite Hev, !writes_app, Hw0, (loop_writes _ _ _ _ _ _ HfL), HwW. done. }
      exists stf, k. subst r. rewrite Hs in *. simpl in *. split_and!; auto.
  - rewrite Hloop in Ha. rewrite Ha in HeP. simpl in HeP.
    destruct (sync_loop_abort_inv _ _ _ _ _ _ _ Ha) as (m' & e' & _ & _ & _ & ->).
    assert (Hwr : writes (events_since w w2) = []).
    { rewrite Hev, !writes_app, Hw0, (loop_writes _ _ _ _ _ _ HfL). done. }
    subst r. rewrite Hs. simpl. split.
    + erewrite events_since_app; [|rewrite HeP, <- app_assoc; reflexivity].
      rewrite uploads_app. simpl. exact HnoP.
    + left. exists e'. split; [done|exact Hwr].
Qed.

(** [B1] is in the bucket and in no meta file: it is recorded, not uploaded. *)
Lemma sync_block_found_in_bucket_witness :
  ∃ st',
    sync_block Sample.cfg (Sample.healthy [Sample.B1]) ∅ Sample.B1
      (mkLoopState ∅ 0 0 Sample.world_B1_uploaded) = Continue st' ∧
    events_since Sample.world_B1_uploaded (ls_world st') = [EvExists Sample.id1] ∧
    ls_Shipped st' = {[Sample.id1 := 1700000000000]} ∧
    ls_shipped st' = 1.
Proof.
  destruct (sync_block_found_in_bucket Sample.cfg (Sample.healthy [Sample.B1]) ∅
              Sample.B1 (mkLoopState ∅ 0 0 Sample.world_B1_uploaded))
    as (st' & Hstep & Hev & _ & Hrec & Hn & _).
  - reflexivity.
  - discriminate.
  - vm_compute. discriminate.
  - reflexivity.
  - vm_compute. reflexivity.
  - exists st'. split; [exact Hstep|]. split; [exact Hev|]. split; [|exact Hn].
    rewrite Hrec. vm_compute. reflexivity.
Defined.

(** C2. A pass over distinct blocks that all have to be uploaded (each
    gets as far as the existence check, which says it is not in the
    bucket): [Sync] tries every block in order, whatever failed before;
    it returns the number of blocks whose upload succeeded; when some
    upload failed it returns the error "failed to sync N blocks" with N
    the number of failed uploads, and no error otherwise; the record it
    hands to [writeShipperMetaFile] holds every block whose upload
    succeeded, with a time read during the call, and none whose upload
    failed; and that record is the content of the meta file when the write
    meets no fault. *)
Theorem sync_isolates_failed_uploads cfg env w sb w1 metas :
  loadShippedBlocks cfg env w = (sb, w1) →
  blockMetasFromOldest cfg env = Ok metas →
  NoDup (ULID <$> metas) →
  (∀ m, m ∈ metas → needs_upload env (bucket w) sb m) →
  let ok := filter (λ m, upload_fault env (ULID m) = None) metas in
  let bad := filter (λ m, upload_fault env (ULID m) ≠ None) metas in
  let r := Sync cfg env w in
  uploads (events_since w r.2) = ULID <$> metas ∧
  r.1.1 = Z.of_nat (length ok) ∧
  (bad ≠ [] →
   r.1.2 = Some (ErrNew ("failed to sync " +:+ pretty (Z.of_nat (length bad)) +:+ " blocks"))) ∧
  (bad = [] → r.1.2 = None) ∧
  ∃ rec,
    writes (events_since w r.2) = [mkShipperMeta shipperMetaVersion1 rec] ∧
    (∀ m, m ∈ ok → ∃ k, rec !! ULID m = Some (stamp env k) ∧ (ticks w ≤ k < ticks r.2)%nat) ∧
    (∀ m, m ∈ bad → rec !! ULID m = None) ∧
    (mimir_write_fault env = WNoFault →
     mimir_file r.2 = FileJSON (mkShipperMeta shipperMetaVersion1 rec)).
Proof.
  intros Hload Hmetas Hnd Hall ok bad r.
  destruct (loadShippedBlocks_frame _ _ _ _ _ Hload)
    as (_ & _ & Hb1 & Hk1 & evs0 & He0 & Hu0 & _ & Hw0).
  destruct (sync_loop_tries_all cfg env sb metas (mkLoopState ∅ 0 0 w1) Hnd)
    as (st & evsT & Hloop & HeT & HuT & _).
  { simpl. rewrite Hb1. exact Hall. }
  destruct (Sync_run _ _ _ _ _ _ Hload Hmetas)
    as (evs0' & evsL & _ & _ & Hw0' & HfL & [(st' & evsW & Hc & Hs & _ & _ & Hev & HuW & _ & HwW)|(e & w2 & Ha & _)]);
    [|congruence].
  rewrite Hloop in Hc. injection Hc as <-.
  destruct (sync_loop_counts cfg env sb metas (mkLoopState ∅ 0 0 w1)
              (sync_loop_no_fault _ _ _ _ _ _ Hloop)) as (st2 & Hloop2 & Hcnt & Herr).
  rewrite Hloop in Hloop2. injection Hloop2 as <-. simpl in Hcnt, Herr. rewrite Hb1 in Hcnt, Herr.
  assert (Hok : filter (ships env (bucket w) sb) metas = ok).
  { apply filter_ext_elem_of. intros m Hin. destruct (Hall m Hin) as (Hr & Hnb & _).
    unfold ships. tauto. }
  assert (Hbad : filter (fails env (bucket w) sb) metas = bad).
  { apply filter_ext_elem_of. intros m Hin. destruct (Hall m Hin) as (Hr & Hnb & _).
    unfold fails. tauto. }
  rewrite Hok in Hcnt. rewrite Hbad in Herr.
  pose proof (updateMetaFile_frame env
      (mkShipperMeta shipperMetaVersion1 (ls_Shipped st)) (ls_world st))
      as (_ & HkW & evsW' & HeW & HuW' & _ & HwW').
  assert (Hevs : events_since w r.2 = evs0 ++ evsT ++ evsW').
  { subst r. rewrite Hs. simpl. apply events_since_app.
    rewrite HeW, HeT. simpl. rewrite He0. by rewrite <- !app_assoc. }
  assert (Hticks : ticks r.2 = ticks (ls_world st)).
  { subst r. rewrite Hs. simpl. exact HkW. }
  split_and!.
  - rewrite Hevs, !uploads_app, Hu0, HuT, HuW'. simpl. by rewrite app_nil_r.
  - subst r. rewrite Hs. simpl. lia.
  - intros Hne. subst r. rewrite Hs. simpl. unfold sync_err.
    destruct bad as [|b bad'] eqn:Hb; [done|].
    rewrite decide_True by (rewrite Herr; simpl; lia). by rewrite Herr.
  - intros He. subst r. rewrite Hs. simpl. unfold sync_err.
    rewrite decide_False; [done|]. rewrite Herr, He. simpl. lia.
  - exists (ls_Shipped st). split_and!.
    + rewrite Hevs, !writes_app, Hw0, HwW'.
      assert (HwT : writes evsT = []).
      { pose proof (sync_loop_frame cfg env sb metas (mkLoopState ∅ 0 0 w1)) as Hf.
        rewrite Hloop in Hf. simpl in Hf. destruct Hf as (_ & _ & _ & _ & evs' & He' & Hf).
        rewrite HeT in He'. apply app_inv_head in He'. subst evs'.
        eapply loop_writes, Hf. }
      by rewrite HwT.
    + intros m Hin. apply list_elem_of_filter in Hin as [Hup Hin].
      destruct (Hall m Hin) as (Hr & Hnb & _).
      assert (Hsh : ships env (bucket (ls_world (mkLoopState ∅ 0 0 w1))) sb m).
      { simpl. rewrite Hb1. split; auto. }
      destruct (sync_loop_records cfg env sb metas _ st m Hloop Hin Hsh) as [v Hv].
      destruct (sync_loop_record_sound cfg env sb metas _ st (ULID m) v Hloop Hv)
        as [H0|[(m' & t & _ & _ & Hc' & _)|(m' & k & _ & _ & _ & Hk' & ->)]].
      * simpl in H0. by rewrite lookup_empty in H0.
      * destruct Hr as (Hr & _). congruence.
      * exists k. simpl in Hk'. split; [done|]. rewrite Hticks. lia.
    + intros m Hin. apply list_elem_of_filter in Hin as [Hup Hin].
      destruct (ls_Shipped st !! ULID m) as [v|] eqn:Hv; [|done]. exfalso.
      destruct (Hall m Hin) as (Hr & Hnb & _).
      destruct (sync_loop_record_sound cfg env sb metas _ st (ULID m) v Hloop Hv)
        as [H0|[(m' & t & _ & _ & Hc' & _)|(m' & k & _ & Hid & (_ & [Hs'|Hs']) & _)]].
      * simpl in H0. by rewrite lookup_empty in H0.
      * destruct Hr as (Hr & _). congruence.
      * simpl in Hs'. rewrite Hb1, Hid in Hs'. done.
      * rewrite Hid in Hs'. done.
    + intros Hwf. subst r. rewrite Hs. simpl.
      unfold updateMetaFile, writeShipperMetaFile, writeThanosShipperMetaFile.
      rewrite Hwf. simpl. destruct (thanos_write_fault env); done.
Qed.

(** Three blocks, the upload of the second fails. *)
Lemma sync_isolates_failed_uploads_witness :
  let r := Sync Sample.cfg Sample.env_upload_fails Sample.fresh in
  uploads (events_since Sample.fresh r.2) = [Sample.id1; Sample.id2; Sample.id3] ∧
  r.1.1 = 2 ∧
  r.1.2 = Some (ErrNew "failed to sync 1 blocks") ∧
  ∃ rec,
    mimir_file r.2 = FileJSON (mkShipperMeta shipperMetaVersion1 rec) ∧
    is_Some (rec !! Sample.id1) ∧ rec !! Sample.id2 = None ∧ is_Some (rec !! Sample.id3).
Proof.
  intros r. subst r.
  destruct (sync_isolates_failed_uploads Sample.cfg Sample.env_upload_fails Sample.fresh
              ∅ Sample.fresh [Sample.B1; Sample.B2; Sample.B3])
    as (Hup & Hn & Hbad & _ & rec & _ & Hok & Hfail & Hfile).
  - reflexivity.
  - vm_compute. reflexivity.
  - apply (bool_decide_unpack _). vm_compute. reflexivity.
  - apply Forall_forall. apply (bool_decide_unpack _). vm_compute. reflexivity.
  - split; [exact Hup|]. split; [exact Hn|]. split.
    + rewrite Hbad; [vm_compute; reflexivity|]. vm_compute. discriminate.
    + exists rec. split; [apply Hfile; reflexivity|]. split; [|split].
      * destruct (Hok Sample.B1) as (k & Hk & _); [|eexists; exact Hk].
        apply list_elem_of_filter. split; [reflexivity|]. apply list_elem_of_here.
      * apply (Hfail Sample.B2). apply list_elem_of_filter.
        split; [vm_compute; discriminate|]. apply list_elem_of_further, list_elem_of_here.
      * destruct (Hok Sample.B3) as (k & Hk & _); [|eexists; exact Hk].
        apply list_elem_of_filter. split; [reflexivity|].
        apply list_elem_of_further, list_elem_of_further, list_elem_of_here.
Defined.

(** C10. When the existence check of a block fails, [Sync] returns at once
    the count 0 and that error, wrapped as "check exists": the count of
    the blocks shipped earlier in the pass is dropped, [writeShipperMetaFile]
    is not called and both meta files are left as they were, while the
    uploads made before stay in the bucket. *)
Theorem sync_aborts_on_failed_existence_check cfg env w sb w1 pre m post st e :
  loadShippedBlocks cfg env w = (sb, w1) →
  blockMetasFromOldest cfg env = Ok (pre ++ m :: post) →
  sync_loop cfg env sb pre (mkLoopState ∅ 0 0 w1) = Continue st →
  reaches_check sb m →
  exists_fault env (ULID m) = Some e →
  let r := Sync cfg env w in
  r.1 = (0, Some (ErrWrap "check exists" e)) ∧
  writes (events_since w r.2) = [] ∧
  mimir_file r.2 = mimir_file w ∧
  thanos_file r.2 = thanos_file w ∧
  bucket r.2 = bucket (ls_world st) ∧
  uploads (events_since w r.2) = uploads (events_since w (ls_world st)).
Proof.
  intros Hload Hmetas Hpre (Hsb & Hz & Hl) Hex r.
  assert (Hstep : sync_block cfg env sb m st =
                  Abort (ErrWrap "check exists" e) (emit (EvExists (ULID m)) (ls_world st))).
  { unfold sync_block. rewrite Hsb.
    destruct (decide (NumSamples m = 0%N)); [done|].
    destruct (decide (Level m > 1)); [lia|].
    unfold bucket_Exists. by rewrite Hex. }
  assert (Hloop : sync_loop cfg env sb (pre ++ m :: post) (mkLoopState ∅ 0 0 w1)
                  = Abort (ErrWrap "check exists" e) (emit (EvExists (ULID m)) (ls_world st))).
  { rewrite sync_loop_app, Hpre. simpl. by rewrite Hstep. }
  destruct (loadShippedBlocks_frame _ _ _ _ _ Hload)
    as (Hm1 & Ht1 & _ & _ & evs0 & He0 & Hu0 & _ & Hw0).
  pose proof (sync_loop_frame cfg env sb pre (mkLoopState ∅ 0 0 w1)) as Hf.
  rewrite Hpre in Hf. simpl in Hf. destruct Hf as (Hm2 & Ht2 & _ & _ & evsP & HeP & HfP).
  assert (Hs : Sync cfg env w =
    ((0, Some (ErrWrap "check exists" e)), emit (EvExists (ULID m)) (ls_world st))).
  { rewrite (Sync_unfold _ _ _ _ _ Hload), Hmetas, Hloop. done. }
  assert (Hst : events_since w (ls_world st) = evs0 ++ evsP).
  { apply events_since_app. rewrite HeP, He0. by rewrite app_assoc. }
  assert (Hend : events_since w (emit (EvExists (ULID m)) (ls_world st))
                 = evs0 ++ evsP ++ [EvExists (ULID m)]).
  { apply events_since_app. simpl. rewrite HeP, He0. by rewrite <- !app_assoc. }
  subst r. rewrite Hs. simpl. split_and!; try congruence.
  - rewrite Hend, !writes_app, Hw0, (loop_writes _ _ _ _ _ _ HfP). done.
  - rewrite Hend, Hst, !uploads_app. simpl. by rewrite app_nil_r.
Qed.

(** [B1] is uploaded, then the existence check of [B2] fails. *)
Lemma sync_aborts_on_failed_existence_check_witness :
  let r := Sync Sample.cfg Sample.env_exists_fails Sample.fresh in
  r.1 = (0, Some (ErrWrap "check exists" (ErrNew "bucket unavailable"))) ∧
  writes (events_since Sample.fresh r.2) = [] ∧
  mimir_file r.2 = FileMissing ∧ thanos_file r.2 = FileMissing ∧
  bucket r.2 = {[Sample.id1]} ∧
  uploads (events_since Sample.fresh r.2) = [Sample.id1].
Proof.
  intros r. subst r.
  destruct (sync_aborts_on_failed_existence_check Sample.cfg Sample.env_exists_fails
              Sample.fresh ∅ Sample.fresh [Sample.B1] Sample.B2 [Sample.B3]
              (mkLoopState {[Sample.id1 := 1700000000000]} 1 0
                 (mkWorld FileMissing FileMissing {[Sample.id1]} 1
                    [EvExists Sample.id1;
                     EvUpload (enrich Sample.cfg Sample.env_exists_fails Sample.B1)]))
              (ErrNew "bucket unavailable"))
    as (Hr & Hw & Hm & Ht & Hb & Hu).
  - reflexivity.
  - vm_compute. reflexivity.
  - vm_compute. reflexivity.
  - apply (bool_decide_unpack _). vm_compute. reflexivity.
  - vm_compute. reflexivity.
  - split; [exact Hr|]. split; [exact Hw|]. split; [exact Hm|]. split; [exact Ht|].
    split; [exact Hb|]. rewrite Hu. vm_compute. reflexivity.
Defined.

(** C3, the claim as stated fails: with no current-format file and a
    legacy file that does not parse, reading the shipped blocks returns an
    error to its caller. *)
Lemma readShippedBlocks_can_fail :
  (readShippedBlocks "/data/tenant-1" (Sample.healthy []) Sample.world_legacy_garbled).1 =
  Err (ErrWrap "failed to parse /data/tenant-1/thanos.shipper.json as JSON"
         (ErrNew "unexpected end of JSON input")).
Proof. vm_compute. reflexivity. Qed.

(** C3, as amended. Reading the previously shipped blocks of a tenant
    directory tries the current-format file first and, when that file is
    there with the expected version, answers from it alone. On any failure
    to read or parse it, or on another version, it falls back to the
    legacy file: a missing legacy file gives the empty set; a legacy file
    of the expected version gives the blocks it lists, each with a time
    read from the clock; a legacy file that is there but cannot be read or
    parsed, or has another version, makes the read return that error to
    its caller. [Sync] then logs the error and goes on with an empty set,
    while [updateCachedShippedBlocks] returns it and leaves the cache as
    it was. *)
Theorem readShippedBlocks_fallback d env w :
  (∀ m, mimir_file w = FileJSON m → Version m = shipperMetaVersion1 →
        readShippedBlocks d env w = (Ok (model_Time_Time <$> Shipped m), w)) ∧
  ((∀ m, mimir_file w = FileJSON m → Version m ≠ shipperMetaVersion1) →
   readShippedBlocks d env w = readThanosShippedBlocks d env w ∧
   (thanos_file w = FileMissing → readShippedBlocks d env w = (Ok ∅, w)) ∧
   (∀ tm, thanos_file w = FileJSON tm → tVersion tm = shipperMetaVersion1 →
      ∃ sb w', readShippedBlocks d env w = (Ok sb, w') ∧
        dom sb = list_to_set (Uploaded tm) ∧
        ∀ id v, sb !! id = Some v →
          ∃ k, (ticks w ≤ k < ticks w')%nat ∧ v = clock env k) ∧
   ((∃ e, thanos_file w = FileMalformed e ∧ errors_Is_NotExist e = false) ∨
    (∃ e, thanos_file w = FileUnreadable e ∧ errors_Is_NotExist e = false) ∨
    (∃ tm, thanos_file w = FileJSON tm ∧ tVersion tm ≠ shipperMetaVersion1) →
    ∃ e, readShippedBlocks d env w = (Err e, w) ∧
         (∀ cfg, dir cfg = d →
            loadShippedBlocks cfg env w =
              (∅, emit (EvWarn "reading meta file failed, will override it" e) w)) ∧
         (∀ DB (T : Ingester.TSDB DB) (u : Ingester.userTSDB DB) db,
            Ingester.u_store u = Ingester.OnDisk db → Ingester.Dir db = d →
            Ingester.updateCachedShippedBlocks env u w = (Some e, u, w)))).
Proof.
  split.
  { intros m Hm Hv. unfold readShippedBlocks, readShipperMetaFile. rewrite Hm.
    rewrite decide_False by (intros Hne; by apply Hne). done. }
  intros Hcur.
  assert (Hfall : readShippedBlocks d env w = readThanosShippedBlocks d env w).
  { unfold readShippedBlocks, readShipperMetaFile.
    destruct (mimir_file w) as [| | |m] eqn:Hm; try done.
    rewrite decide_True by (by apply Hcur). done. }
  rewrite Hfall. split_and!; [done| | |].
  - intros Ht. unfold readThanosShippedBlocks, readThanosShipperMetaFile. rewrite Ht. done.
  - intros tm Ht Hv. unfold readThanosShippedBlocks, readThanosShipperMetaFile. rewrite Ht.
    rewrite decide_False by (intros Hne; by apply Hne).
    pose proof (stamp_uploaded_dom env (Uploaded tm) ∅ w) as Hd.
    pose proof (stamp_uploaded_values env (Uploaded tm) ∅ w) as Hvals.
    destruct (stamp_uploaded env (Uploaded tm) ∅ w) as [sb w'] eqn:Hs. simpl in *.
    exists sb, w'. split_and!; [done|rewrite Hd; set_solver|].
    intros id v Hl. destruct (Hvals id v Hl) as [H0|?]; [|done].
    by rewrite lookup_empty in H0.
  - intros Hbad.
    assert (∃ e, readThanosShippedBlocks d env w = (Err e, w)) as [e He].
    { unfold readThanosShippedBlocks, readThanosShipperMetaFile.
      destruct Hbad as [(e & -> & Hn)|[(e & -> & Hn)|(tm & -> & Hv)]].
      - simpl. rewrite Hn. eexists. reflexivity.
      - simpl. rewrite Hn. eexists. reflexivity.
      - rewrite decide_True by done. simpl. eexists. reflexivity. }
    exists e. split; [done|]. split.
    + intros cfg <-. unfold loadShippedBlocks. rewrite Hfall, He. done.
    + intros DB T u db Hst <-. unfold Ingester.updateCachedShippedBlocks.
      rewrite Hst, Hfall, He. done.
Qed.

(** Only the legacy file is there, and lists [B1]. *)
Lemma readShippedBlocks_fallback_witness :
  ∃ sb w',
    readShippedBlocks "/data/tenant-1" (Sample.healthy []) Sample.world_legacy_only
      = (Ok sb, w') ∧
    dom sb = {[Sample.id1]}.
Proof.
  destruct (readShippedBlocks_fallback "/data/tenant-1" (Sample.healthy [])
              Sample.world_legacy_only) as (_ & Hfall).
  destruct Hfall as (_ & _ & Hlegacy & _).
  - intros m Hm. discriminate Hm.
  - destruct (Hlegacy (mkThanosShipperMeta 1 [Sample.id1])) as (sb & w' & Hr & Hd & _).
    + reflexivity.
    + reflexivity.
    + exists sb, w'. split; [exact Hr|]. rewrite Hd. simpl. apply union_empty_r_L.
Defined.

(** C6, the claim as stated fails. A second [Sync] over the same local
    blocks, with the bucket as the first one left it, ships a block: when
    the upload of the block failed in the first call and succeeds in the
    second; and also after a first call that returned no error but could
    not write its meta file, the block being then found in the bucket. *)
Lemma second_sync_can_ship :
  (let r1 := Sync Sample.cfg Sample.env_upload_fails Sample.fresh in
   let env2 := Sample.healthy [Sample.B1; Sample.B2; Sample.B3] in
   let r2 := Sync Sample.cfg env2 r1.2 in
   ReadDir env2 = ReadDir Sample.env_upload_fails ∧
   r1.1 = (2, Some (ErrNew "failed to sync 1 blocks")) ∧
   r2.1 = (1, None) ∧
   uploads (events_since r1.2 r2.2) = [Sample.id2]) ∧
  (let r1 := Sync Sample.cfg Sample.env_disk_full Sample.fresh in
   let env2 := Sample.healthy [Sample.B1] in
   let r2 := Sync Sample.cfg env2 r1.2 in
   ReadDir env2 = ReadDir Sample.env_disk_full ∧
   r1.1 = (1, None) ∧
   r2.1 = (1, None) ∧
   checks (events_since r1.2 r2.2) = [Sample.id1]).
Proof. vm_compute. repeat split; reflexivity. Qed.

(** C6, as amended. After a [Sync] that returned no error and wrote its
    record to the current-format file, a second [Sync] over the same
    directory listing returns the count 0 and no error: it checks no block
    against the bucket, uploads none, leaves the bucket as it was, and
    hands to [writeShipperMetaFile] the very record of the first call,
    every block with the time it had. *)
Theorem second_sync_ships_nothing cfg env1 env2 w :
  let r1 := Sync cfg env1 w in
  r1.1.2 = None →
  mimir_write_fault env1 = WNoFault →
  ReadDir env2 = ReadDir env1 →
  let r2 := Sync cfg env2 r1.2 in
  r2.1 = (0, None) ∧
  uploads (events_since r1.2 r2.2) = [] ∧
  checks (events_since r1.2 r2.2) = [] ∧
  bucket r2.2 = bucket r1.2 ∧
  ∃ rec, writes (events_since w r1.2) = [rec] ∧
         writes (events_since r1.2 r2.2) = [rec].
Proof.
  intros r1 Herr Hwf Hdir r2.
  destruct (loadShippedBlocks cfg env1 w) as [sb1 w1] eqn:Hload1.
  destruct (blockMetasFromOldest cfg env1) as [metas|e] eqn:Hmetas.
  2: { subst r1. rewrite (Sync_unfold _ _ _ _ _ Hload1), Hmetas in Herr. done. }
  destruct (Sync_run _ _ _ _ _ _ Hload1 Hmetas)
    as (evs0 & evsL & _ & _ & Hw0 & HfL & [(st1 & evsW & Hc1 & Hs1 & _ & _ & Hev1 & _ & _ & HwW)|(e & w2 & _ & Hs1 & _)]).
  2: { subst r1. rewrite Hs1 in Herr. done. }
  set (rec1 := mkShipperMeta shipperMetaVersion1 (ls_Shipped st1)) in *.
  assert (Hr1 : r1.2 = updateMetaFile env1 rec1 (ls_world st1)) by (subst r1; by rewrite Hs1).
  (* the first pass met no failed upload *)
  assert (Hnofail : ∀ m, m ∈ metas → ¬ fails env1 (bucket w1) sb1 m).
  { destruct (sync_loop_counts cfg env1 sb1 metas (mkLoopState ∅ 0 0 w1)
                (sync_loop_no_fault _ _ _ _ _ _ Hc1)) as (st' & Hc' & _ & Hn).
    rewrite Hc1 in Hc'. injection Hc' as <-. simpl in Hn.
    subst r1. rewrite Hs1 in Herr. simpl in Herr. unfold sync_err in Herr.
    destruct (decide (ls_uploadErrs st1 > 0)); [done|].
    intros m Hin Hf.
    assert (m ∈ filter (fails env1 (bucket w1) sb1) metas) as Hin'
      by (apply list_elem_of_filter; done).
    destruct (filter (fails env1 (bucket w1) sb1) metas); [by apply elem_of_nil in Hin'|].
    simpl in Hn. lia. }
  (* so every listed block is in the record or is one the shipper skips *)
  assert (Hcases : ∀ m, m ∈ metas →
            is_Some (ls_Shipped st1 !! ULID m) ∨ NumSamples m = 0%N ∨ Level m > 1).
  { intros m Hin. destruct (sb1 !! ULID m) as [t|] eqn:Hsb.
    { left. rewrite (sync_loop_carries _ _ _ _ _ _ _ t Hc1 Hin Hsb). by eexists. }
    destruct (decide (NumSamples m = 0%N)); [tauto|].
    destruct (decide (Level m > 1)); [tauto|].
    left. eapply sync_loop_records; [exact Hc1|exact Hin|].
    assert (Hr : reaches_check sb1 m) by (unfold reaches_check; split_and!; [done|done|lia]).
    split; [exact Hr|]. simpl.
    destruct (decide (ULID m ∈ bucket w1)); [tauto|].
    destruct (upload_fault env1 (ULID m)) eqn:Hup; [|tauto].
    exfalso. apply (Hnofail m Hin). split_and!; auto. congruence. }
  (* the second call reads the record the first one wrote *)
  assert (Hload2 : loadShippedBlocks cfg env2 r1.2 =
                   (model_Time_Time <$> ls_Shipped st1, r1.2)).
  { unfold loadShippedBlocks, readShippedBlocks, readShipperMetaFile.
    rewrite Hr1, (updateMetaFile_mimir _ _ _ Hwf). simpl.
    done. }
  set (sb2 := model_Time_Time <$> ls_Shipped st1) in *.
  assert (Hmetas2 : blockMetasFromOldest cfg env2 = Ok metas).
  { rewrite (blockMetasFromOldest_ReadDir _ _ _ Hdir). exact Hmetas. }
  destruct (sync_loop_nothing_new cfg env2 sb2 metas (mkLoopState ∅ 0 0 r1.2))
    as (st2 & Hc2 & Hw2 & Hn2 & He2).
  { intros m Hin (Hsb & Hz & Hl). destruct (Hcases m Hin) as [[v Hv]|[?|?]]; [|done|lia].
    unfold sb2 in Hsb. rewrite lookup_fmap, Hv in Hsb. done. }
  simpl in Hw2, Hn2, He2.
  (* and builds the same record *)
  assert (Hrec : ls_Shipped st2 = ls_Shipped st1).
  { apply map_eq. intros id.
    destruct (ls_Shipped st1 !! id) as [v|] eqn:Hv1.
    - assert (Hform : ∃ x m, v = TimeFromUnixNano (UnixNano x) ∧ m ∈ metas ∧ ULID m = id).
      { destruct (sync_loop_record_sound cfg env1 sb1 metas _ st1 id v Hc1 Hv1)
          as [H0|[(m & t & ? & ? & _ & ->)|(m & k & ? & ? & _ & _ & ->)]].
        - simpl in H0. by rewrite lookup_empty in H0.
        - by exists t, m.
        - by exists (clock env1 k), m. }
      destruct Hform as (x & m & -> & Hin & <-).
      rewrite (sync_loop_carries cfg env2 sb2 metas _ st2 m
                 (model_Time_Time (TimeFromUnixNano (UnixNano x))) Hc2 Hin).
      + f_equal. apply carried_time_stable.
      + unfold sb2. by rewrite lookup_fmap, Hv1.
    - destruct (ls_Shipped st2 !! id) as [v|] eqn:Hv2; [|done]. exfalso.
      destruct (sync_loop_record_sound cfg env2 sb2 metas _ st2 id v Hc2 Hv2)
        as [H0|[(m & t & _ & _ & Hsb & _)|(m & k & Hin & Hid & ((Hsb & Hz & Hl) & _) & _)]].
      + simpl in H0. by rewrite lookup_empty in H0.
      + unfold sb2 in Hsb. rewrite lookup_fmap, Hv1 in Hsb. done.
      + destruct (Hcases m Hin) as [[v' Hv']|[?|?]]; [|done|lia].
        rewrite Hid in Hv'. congruence. }
  assert (Hs2 : r2 = ((0, None), updateMetaFile env2 rec1 r1.2)).
  { subst r2. rewrite (Sync_unfold _ _ _ _ _ Hload2), Hmetas2, Hc2. simpl.
    rewrite Hn2, He2, Hrec, Hw2. rewrite decide_False by lia. done. }
  assert (Hwr1 : writes (events_since w r1.2) = [rec1]).
  { unfold r1. rewrite Hev1, !writes_app, Hw0, (loop_writes _ _ _ _ _ _ HfL), HwW. done. }
  pose proof (updateMetaFile_frame env2 rec1 r1.2) as (Hb & _ & evs2 & Ht2 & Hu2 & Hck2 & Hwr2).
  rewrite Hs2. cbn [fst snd]. rewrite (events_since_app _ _ _ Ht2).
  split_and!; auto.
  exists rec1. done.
Qed.

(** Three blocks shipped by a first call, none by the second. *)
Lemma second_sync_ships_nothing_witness :
  let env := Sample.healthy [Sample.B1; Sample.B2; Sample.B3] in
  let r1 := Sync Sample.cfg env Sample.fresh in
  let r2 := Sync Sample.cfg env r1.2 in
  r1.1 = (3, None) ∧ r2.1 = (0, None) ∧
  uploads (events_since r1.2 r2.2) = [] ∧ checks (events_since r1.2 r2.2) = [].
Proof.
  intros env r1 r2. subst r1 r2 env.
  destruct (second_sync_ships_nothing Sample.cfg
              (Sample.healthy [Sample.B1; Sample.B2; Sample.B3])
              (Sample.healthy [Sample.B1; Sample.B2; Sample.B3]) Sample.fresh)
    as (Hr & Hu & Hc & _).
  - vm_compute. reflexivity.
  - reflexivity.
  - reflexivity.
  - split; [vm_compute; reflexivity|]. split; [exact Hr|]. split; [exact Hu|exact Hc].
Defined.

(** C7. Within one call of [Sync], a block ID that is not in the
    previously shipped set and whose listed blocks are all empty is not
    uploaded and is in no record handed to [writeShipperMetaFile]; one
    whose listed blocks are all of a compaction level above 1 is not
    uploaded. Across any number of calls in a row: an ID that no meta file
    lists at the start and whose listed blocks are empty in every call is
    never uploaded, is in no record written, and is in no meta file at the
    end. *)
Theorem sync_never_ships_filtered_blocks cfg id :
  (∀ env w,
     (loadShippedBlocks cfg env w).1 !! id = None →
     (∀ metas m, blockMetasFromOldest cfg env = Ok metas → m ∈ metas → ULID m = id →
                 NumSamples m = 0%N) →
     (id ∉ uploads (events_since w (Sync cfg env w).2)) ∧
     ∀ rec, rec ∈ writes (events_since w (Sync cfg env w).2) → Shipped rec !! id = None) ∧
  (∀ env w,
     (loadShippedBlocks cfg env w).1 !! id = None →
     (∀ metas m, blockMetasFromOldest cfg env = Ok metas → m ∈ metas → ULID m = id →
                 Level m > 1) →
     id ∉ uploads (events_since w (Sync cfg env w).2)) ∧
  (∀ envs w,
     id ∉ mimir_ids (mimir_file w) → id ∉ thanos_ids (thanos_file w) →
     (∀ env metas m, env ∈ envs → blockMetasFromOldest cfg env = Ok metas → m ∈ metas →
                     ULID m = id → NumSamples m = 0%N) →
     let w' := (Sync_many cfg envs w).2 in
     (id ∉ uploads (events_since w w')) ∧
     (∀ rec, rec ∈ writes (events_since w w') → Shipped rec !! id = None) ∧
     (id ∉ mimir_ids (mimir_file w')) ∧ id ∉ thanos_ids (thanos_file w')).
Proof.
  split_and!.
  - intros env w Hsb Hz.
    destruct (Sync_skips cfg env w id Hsb) as (evs & He & Hu & _ & Hw & _).
    { intros metas m ???. left. eauto. }
    rewrite (events_since_app _ _ _ He). done.
  - intros env w Hsb Hl.
    destruct (Sync_skips cfg env w id Hsb) as (evs & He & Hu & _ & Hw & _).
    { intros metas m ???. right. eauto. }
    rewrite (events_since_app _ _ _ He). done.
  - intros envs w Hm Ht Hz w'.
    destruct (Sync_many_skips cfg envs w id Hm Ht Hz) as (evs & He & Hu & Hw & Hm' & Ht').
    subst w'. rewrite (events_since_app _ _ _ He). done.
Qed.

(** An empty block and a block of level 2, over three calls. *)
Lemma sync_never_ships_filtered_blocks_witness :
  let env := Sample.healthy [Sample.B1; Sample.Bempty; Sample.Blevel2] in
  let w' := (Sync_many Sample.cfg [env; env; env] Sample.fresh).2 in
  (Sample.id2 ∉ uploads (events_since Sample.fresh w')) ∧
  (Sample.id2 ∉ mimir_ids (mimir_file w')) ∧
  Sample.id3 ∉ uploads (events_since Sample.fresh (Sync Sample.cfg env Sample.fresh).2).
Proof.
  intros env w'. subst w' env.
  destruct (sync_never_ships_filtered_blocks Sample.cfg Sample.id2) as (_ & _ & Hmany).
  destruct (sync_never_ships_filtered_blocks Sample.cfg Sample.id3) as (_ & Hlevel & _).
  destruct (Hmany [Sample.healthy [Sample.B1; Sample.Bempty; Sample.Blevel2];
                   Sample.healthy [Sample.B1; Sample.Bempty; Sample.Blevel2];
                   Sample.healthy [Sample.B1; Sample.Bempty; Sample.Blevel2]]
              Sample.fresh) as (Hu & _ & Hm & _).
  - vm_compute. intros H. inversion H.
  - vm_compute. intros H. inversion H.
  - intros env metas m Henv Hmetas Hin Hid.
    assert (env = Sample.healthy [Sample.B1; Sample.Bempty; Sample.Blevel2]) as ->.
    { repeat (apply elem_of_cons in Henv as [Henv|Henv]; [exact Henv|]).
      by apply elem_of_nil in Henv. }
    vm_compute in Hmetas. injection Hmetas as <-.
    repeat (apply elem_of_cons in Hin as [Hin|Hin]; [subst m; first [reflexivity|discriminate Hid]|]).
    by apply elem_of_nil in Hin.
  - split; [exact Hu|]. split; [exact Hm|].
    apply (Hlevel (Sample.healthy [Sample.B1; Sample.Bempty; Sample.Blevel2]) Sample.fresh).
    + reflexivity.
    + intros metas m Hmetas Hin Hid.
      vm_compute in Hmetas. injection Hmetas as <-.
      repeat (apply elem_of_cons in Hin as [Hin|Hin]; [subst m; first [reflexivity|discriminate Hid]|]).
      by apply elem_of_nil in Hin.
Defined.

(** C9, the claim as stated fails. [Sync] uploads a block and returns no
    error although the temporary meta file could not be created: neither
    meta file has been written. *)
Lemma sync_nil_error_without_meta_files :
  let r := Sync Sample.cfg Sample.env_disk_full Sample.fresh in
  r.1 = (1, None) ∧
  mimir_file r.2 = FileMissing ∧ thanos_file r.2 = FileMissing.
Proof. vm_compute. repeat split; reflexivity. Qed.

(** C9, as amended. After every [Sync] call whose pass reaches its end
    (it returns no error, or the error counting the failed uploads) and
    during which the writes of the meta files meet no fault, both meta
    files have been written from one record: the current-format file with
    the version tag and the map from block ID to time, the legacy file
    with the version tag and a duplicate-free list of the same block IDs;
    whether uploads failed during the pass makes no difference. (A failed
    write is only logged: it does not change what [Sync] returns.) *)
Theorem sync_writes_both_meta_files cfg env w :
  mimir_write_fault env = WNoFault →
  thanos_write_fault env = WNoFault →
  let r := Sync cfg env w in
  (r.1.2 = None ∨
   ∃ n : Z, r.1.2 = Some (ErrNew ("failed to sync " +:+ pretty n +:+ " blocks"))) →
  ∃ rec uploaded,
    writes (events_since w r.2) = [mkShipperMeta shipperMetaVersion1 rec] ∧
    mimir_file r.2 = FileJSON (mkShipperMeta shipperMetaVersion1 rec) ∧
    thanos_file r.2 = FileJSON (mkThanosShipperMeta shipperMetaVersion1 uploaded) ∧
    list_to_set uploaded =@{gset N} dom rec ∧ NoDup uploaded.
Proof.
  intros Hm Ht r Hret.
  destruct (loadShippedBlocks cfg env w) as [sb w1] eqn:Hload.
  destruct (blockMetasFromOldest cfg env) as [metas|e] eqn:Hmetas.
  2: { exfalso. destruct (blockMetasFromOldest_err _ _ _ Hmetas) as (msg & c & ->).
       subst r. rewrite (Sync_unfold _ _ _ _ _ Hload), Hmetas in Hret. simpl in Hret.
       destruct Hret as [?|[n ?]]; done. }
  destruct (Sync_run _ _ _ _ _ _ Hload Hmetas)
    as (evs0 & evsL & _ & _ & Hw0 & HfL & [(st & evsW & Hc & Hs & _ & _ & Hev & _ & _ & HwW)|(e & w2 & Ha & Hs & _)]).
  2: { exfalso. destruct (sync_loop_abort_inv _ _ _ _ _ _ _ Ha) as (m & e' & _ & _ & _ & ->).
       subst r. rewrite Hs in Hret. simpl in Hret. destruct Hret as [?|[n ?]]; done. }
  exists (ls_Shipped st), (map_to_list (ls_Shipped st)).*1.
  pose proof (updateMetaFile_ok env (mkShipperMeta shipperMetaVersion1 (ls_Shipped st))
                (ls_world st) Hm Ht) as (Hmf & Htf & _).
  pose proof (map_to_list_keys (ls_Shipped st)) as [Hk Hnd].
  subst r. split_and!; auto.
  - rewrite Hev, !writes_app, Hw0, (loop_writes _ _ _ _ _ _ HfL), HwW. done.
  - rewrite Hs. exact Hmf.
  - rewrite Hs. exact Htf.
Qed.

(** Both files are written although an upload failed. *)
Lemma sync_writes_both_meta_files_witness :
  let r := Sync Sample.cfg Sample.env_upload_fails Sample.fresh in
  ∃ rec uploaded,
    mimir_file r.2 = FileJSON (mkShipperMeta shipperMetaVersion1 rec) ∧
    thanos_file r.2 = FileJSON (mkThanosShipperMeta shipperMetaVersion1 uploaded) ∧
    list_to_set uploaded =@{gset N} dom rec.
Proof.
  intros r. subst r.
  destruct (sync_writes_both_meta_files Sample.cfg Sample.env_upload_fails Sample.fresh)
    as (rec & uploaded & _ & Hm & Ht & Hd & _).
  - reflexivity.
  - reflexivity.
  - right. exists 1. vm_compute. reflexivity.
  - exists rec, uploaded. split; [exact Hm|]. split; [exact Ht|exact Hd].
Defined.

End ShipperFacts.

(** * Properties of the tenant TSDB *)

Module IngesterFacts.
Import Ingester Windows.

Section Facts.
Context {DB : Type} `{!TSDB DB}.

(** ** Forced compaction *)

(** What the loop returns is a run of [windows]. *)
Lemma compactHead_loop_sound blockDuration fuel d acc err d' calls :
  compactHead_loop fuel blockDuration d (HeadMinTime_db d) (HeadMaxTime_db d) acc
    = Some (err, d', calls) →
  ∃ cs, calls = acc ++ cs ∧ windows blockDuration d cs d' err.
Proof.
  revert d acc. induction fuel as [|fuel IH]; intros d acc; simpl.
  - destruct (decide (align (HeadMinTime_db d) blockDuration
                      ≠ align (HeadMaxTime_db d) blockDuration)) as [Hne|Heq]; [done|].
    destruct (CompactHead d (HeadMinTime_db d) (HeadMaxTime_db d)) as [d1 e1] eqn:Hc.
    intros [= <- <- <-]. eexists. split; [done|].
    apply windows_last; [by apply dec_stable|done].
  - destruct (decide (align (HeadMinTime_db d) blockDuration
                      ≠ align (HeadMaxTime_db d) blockDuration)) as [Hne|Heq].
    + destruct (CompactHead d (HeadMinTime_db d)
                  (blockMaxTime (HeadMinTime_db d) blockDuration)) as [d1 [e1|]] eqn:Hc.
      * intros [= <- <- <-]. eexists. split; [done|]. by apply windows_fail.
      * intros Hloop. destruct (IH _ _ Hloop) as (cs & -> & Hw).
        eexists. split; [by rewrite <- app_assoc|]. by eapply windows_next.
    + destruct (CompactHead d (HeadMinTime_db d) (HeadMaxTime_db d)) as [d1 e1] eqn:Hc.
      intros [= <- <- <-]. eexists. split; [done|].
      apply windows_last; [by apply dec_stable|done].
Qed.

(** A run of [windows] is what the loop returns, given at least as much
    fuel as the run has compactions. *)
Lemma compactHead_loop_complete blockDuration d cs d' err :
  windows blockDuration d cs d' err →
  ∀ fuel acc, (length cs ≤ fuel)%nat →
    compactHead_loop fuel blockDuration d (HeadMinTime_db d) (HeadMaxTime_db d) acc
      = Some (err, d', acc ++ cs).
Proof.
  induction 1 as [d d' err Heq Hc|d d' err Hne Hc|d d1 calls d' err Hne Hc Hw IH];
    intros fuel acc Hfuel.
  - destruct fuel; simpl; rewrite decide_False by (intros Hn; by apply Hn);
      by rewrite Hc.
  - destruct fuel; simpl in *; [lia|]. rewrite decide_True by done. by rewrite Hc.
  - destruct fuel; simpl in *; [lia|]. rewrite decide_True by done. rewrite Hc.
    rewrite IH by lia. by rewrite <- app_assoc.
Qed.

Lemma windows_nonempty blockDuration d cs d' err :
  windows blockDuration d cs d' err → cs ≠ [].
Proof. by destruct 1. Qed.


(** For times from the epoch on, the end of the window is the last
    millisecond before the next multiple of the block duration. *)
Lemma blockMaxTime_aligned minTime blockDuration :
  0 < blockDuration → 0 <= minTime →
  (minTime `div` blockDuration + 1) * blockDuration < 2 ^ 63 →
  blockMaxTime minTime blockDuration
    = (minTime `div` blockDuration + 1) * blockDuration - 1 ∧
  minTime <= blockMaxTime minTime blockDuration < minTime + blockDuration ∧
  (blockMaxTime minTime blockDuration + 1) `mod` blockDuration = 0.
Proof.
  intros Hbd Hmin Hmax.
  pose proof (Z.div_pos minTime blockDuration Hmin Hbd) as Hq.
  pose proof (Z.mul_div_le minTime blockDuration Hbd) as Hle.
  pose proof (Z.mul_succ_div_gt minTime blockDuration Hbd) as Hgt.
  assert (Hqs : minTime `div` blockDuration <= minTime).
  { apply Z.div_le_upper_bound; [lia|]. nia. }
  assert (Heq : blockMaxTime minTime blockDuration
                = (minTime `div` blockDuration + 1) * blockDuration - 1).
  { unfold blockMaxTime, int64_sub, int64_mul, int64_add, int64_div.
    rewrite Z.quot_div_nonneg by lia.
    rewrite (wrap64_small (minTime `div` blockDuration)) by (unfold in_int64; lia).
    rewrite (wrap64_small (minTime `div` blockDuration + 1)) by (unfold in_int64; nia).
    rewrite (wrap64_small ((minTime `div` blockDuration + 1) * blockDuration))
      by (unfold in_int64; nia).
    apply wrap64_small. unfold in_int64. nia. }
  rewrite Heq. split; [done|]. split; [nia|].
  replace ((minTime `div` blockDuration + 1) * blockDuration - 1 + 1)
    with ((minTime `div` blockDuration + 1) * blockDuration) by lia.
  apply Z.mod_mul. lia.
Qed.

(** ** The aligned windows *)

(** From the epoch on, the code's alignment of a time is the start of its
    window. *)
Lemma align_window t blockDuration :
  0 < blockDuration → in_int64 blockDuration → 0 <= t < 2 ^ 63 →
  align t blockDuration = window blockDuration t * blockDuration.
Proof.
  unfold in_int64. intros Hbd Hin Ht. unfold align, int64_mul, int64_div, window.
  rewrite Z.quot_div_nonneg by lia.
  pose proof (Z.div_pos t blockDuration ltac:(lia) Hbd) as Hq.
  pose proof (Z.mul_div_le t blockDuration Hbd) as Hle.
  assert (Hqs : t `div` blockDuration <= t).
  { apply Z.div_le_upper_bound; [lia|]. nia. }
  rewrite (wrap64_small (t `div` blockDuration)) by (unfold in_int64; lia).
  apply wrap64_small. unfold in_int64. lia.
Qed.

Lemma align_same_window blockDuration d :
  0 < blockDuration → in_int64 blockDuration → times_in_range blockDuration d →
  align (HeadMinTime_db d) blockDuration = align (HeadMaxTime_db d) blockDuration
  ↔ window blockDuration (HeadMinTime_db d) = window blockDuration (HeadMaxTime_db d).
Proof.
  intros Hbd Hin (Hmin & Hmax & Hend).
  assert (Hlt : HeadMinTime_db d < 2 ^ 63).
  { unfold window_end, window in Hend.
    pose proof (Z.mul_succ_div_gt (HeadMinTime_db d) blockDuration Hbd). lia. }
  rewrite !align_window by (done || lia).
  split; [|by intros ->]. intros Heq. by apply Z.mul_cancel_r in Heq; [|lia].
Qed.

Lemma blockMaxTime_window_end blockDuration d :
  0 < blockDuration → times_in_range blockDuration d →
  blockMaxTime (HeadMinTime_db d) blockDuration
    = window_end blockDuration (HeadMinTime_db d).
Proof.
  intros Hbd (Hmin & Hmax & Hend). unfold window_end, window in *.
  apply blockMaxTime_aligned; [done|done|lia].
Qed.

Lemma heads_in_range_here fuel blockDuration d :
  heads_in_range fuel blockDuration d = true → times_in_range blockDuration d.
Proof.
  destruct fuel; simpl; intros H%andb_true_iff; destruct H as [H _];
    by apply bool_decide_eq_true in H.
Qed.

Lemma heads_in_range_next fuel blockDuration d d1 :
  heads_in_range (S fuel) blockDuration d = true →
  window blockDuration (HeadMinTime_db d) ≠ window blockDuration (HeadMaxTime_db d) →
  CompactHead d (HeadMinTime_db d) (window_end blockDuration (HeadMinTime_db d))
    = (d1, None) →
  heads_in_range fuel blockDuration d1 = true.
Proof.
  simpl. intros H%andb_true_iff Hne Hc. destruct H as [_ H].
  rewrite decide_True in H by done. by rewrite Hc in H.
Qed.

(** What the loop returns is a run of the specification. *)
Lemma compactHead_loop_aligned blockDuration fuel d acc err d' calls :
  0 < blockDuration → in_int64 blockDuration →
  heads_in_range fuel blockDuration d = true →
  compactHead_loop fuel blockDuration d (HeadMinTime_db d) (HeadMaxTime_db d) acc
    = Some (err, d', calls) →
  ∃ cs, calls = acc ++ cs ∧ aligned_windows blockDuration d cs d' err.
Proof.
  intros Hbd Hin. revert d acc. induction fuel as [|fuel IH]; intros d acc Hr.
  - pose proof (heads_in_range_here _ _ _ Hr) as Hd.
    pose proof (align_same_window _ _ Hbd Hin Hd) as Hw.
    simpl.
    destruct (decide (align (HeadMinTime_db d) blockDuration
                      ≠ align (HeadMaxTime_db d) blockDuration)) as [Hne|Heq]; [done|].
    apply dec_stable in Heq.
    destruct (CompactHead d (HeadMinTime_db d) (HeadMaxTime_db d)) as [d1 e1] eqn:Hc.
    intros [= <- <- <-]. eexists. split; [done|].
    apply aligned_last; [by apply Hw|done].
  - pose proof (heads_in_range_here _ _ _ Hr) as Hd.
    pose proof (align_same_window _ _ Hbd Hin Hd) as Hw.
    pose proof (blockMaxTime_window_end _ _ Hbd Hd) as Hend.
    simpl. rewrite Hend.
    destruct (decide (align (HeadMinTime_db d) blockDuration
                      ≠ align (HeadMaxTime_db d) blockDuration)) as [Hne|Heq].
    + assert (Hnw : window blockDuration (HeadMinTime_db d)
                    ≠ window blockDuration (HeadMaxTime_db d)).
      { intros Heq. apply Hne. by apply Hw. }
      destruct (CompactHead d (HeadMinTime_db d)
                  (window_end blockDuration (HeadMinTime_db d))) as [d1 [e1|]] eqn:Hc.
      * intros [= <- <- <-]. eexists. split; [done|]. by apply aligned_fail.
      * intros Hloop.
        pose proof (heads_in_range_next _ _ _ _ Hr Hnw Hc) as Hr1.
        destruct (IH _ _ Hr1 Hloop) as (cs & -> & Hrun).
        eexists. split; [by rewrite <- app_assoc|]. by eapply aligned_next.
    + apply dec_stable in Heq.
      destruct (CompactHead d (HeadMinTime_db d) (HeadMaxTime_db d)) as [d1 e1] eqn:Hc.
      intros [= <- <- <-]. eexists. split; [done|].
      apply aligned_last; [by apply Hw|done].
Qed.

(** A run of the specification is what the loop returns, given at least
    as much fuel as the run has compactions. *)
Lemma aligned_compactHead_loop blockDuration d cs d' err :
  0 < blockDuration → in_int64 blockDuration →
  aligned_windows blockDuration d cs d' err →
  ∀ fuel acc, (length cs ≤ fuel)%nat →
    heads_in_range fuel blockDuration d = true →
    compactHead_loop fuel blockDuration d (HeadMinTime_db d) (HeadMaxTime_db d) acc
      = Some (err, d', acc ++ cs).
Proof.
  intros Hbd Hin.
  induction 1 as [d d' err Heq Hc|d d' err Hne Hc|d d1 calls d' err Hne Hc Hrun IH];
    intros fuel acc Hfuel Hr;
    pose proof (heads_in_range_here _ _ _ Hr) as Hd;
    pose proof (align_same_window _ _ Hbd Hin Hd) as Hw;
    pose proof (blockMaxTime_window_end _ _ Hbd Hd) as Hend.
  - destruct fuel; simpl;
      (rewrite decide_False by (intros Hn; apply Hn; by apply Hw));
      by rewrite Hc.
  - destruct fuel; simpl in *; [lia|].
    rewrite decide_True by (intros Hn; apply Hne; by apply Hw).
    by rewrite Hend, Hc.
  - destruct fuel; [simpl in *; lia|].
    pose proof (heads_in_range_next _ _ _ _ Hr Hne Hc) as Hr1.
    simpl in *.
    rewrite decide_True by (intros Hn; apply Hne; by apply Hw).
    rewrite Hend, Hc.
    rewrite IH by (lia || done). by rewrite <- app_assoc.
Qed.

(** Every range of a run lies within one window. *)
Lemma aligned_windows_ranges blockDuration d cs d' err :
  0 < blockDuration →
  aligned_windows blockDuration d cs d' err →
  ∀ a b, (a, b) ∈ cs →
    window blockDuration a = window blockDuration b ∧ b <= window_end blockDuration a.
Proof.
  intros Hbd.
  assert (Hend : ∀ t, window blockDuration t
                      = window blockDuration (window_end blockDuration t)).
  { intros t. unfold window_end, window.
    apply (Z.div_unique_pos _ _ _ (blockDuration - 1)); lia. }
  assert (Hlast : ∀ a b, window blockDuration a = window blockDuration b →
                         b <= window_end blockDuration a).
  { intros a b Heq. unfold window_end. rewrite Heq. unfold window.
    pose proof (Z.mul_succ_div_gt b blockDuration Hbd). lia. }
  induction 1 as [d d' err Heq Hc|d d' err Hne Hc|d d1 calls d' err Hne Hc Hrun IH];
    intros a b Hin.
  - apply list_elem_of_singleton in Hin as [= -> ->]. split; [done|by apply Hlast].
  - apply list_elem_of_singleton in Hin as [= -> ->]. split; [apply Hend|lia].
  - apply elem_of_cons in Hin as [[= -> ->]|Hin]; [|by apply IH].
    split; [apply Hend|lia].
Qed.

(** C8, as amended. A forced compaction that runs (the tenant keeps
    blocks on disk, its state is [active] so that the compare-and-swap to
    [forceCompacting] succeeds, and no push is in flight) with a positive
    block duration, on a head whose times are from the epoch on at every
    reading, splits the head into the aligned windows of the block
    duration: whatever [compactHead] returns is a run of [aligned_windows]
    (while the head's min and max time fall into different windows the
    range from the min time to the end of its window is compacted and the
    times are read again; a failed compaction ends the run with its error;
    finally [minTime, maxTime] is compacted), and every such run is
    returned by [compactHead] once the fuel covers its compactions. Every
    range of such a run lies within one window. On every exit, with or
    without error, the state is [active] again and the in-flight counter
    untouched, whatever the head's times; so it is when a block duration
    of 0 makes the division panic. *)
Theorem compactHead_splits_head (u : userTSDB DB) (d : DB) (blockDuration : Z) :
  u_store u = OnDisk d → u_state u = active → u_pushesInFlight u = 0 →
  in_int64 blockDuration →
  let finished d' :=
    mkUserTSDB (OnDisk d') active 0 (u_lastUpdate u) (u_deletionMarkFound u)
      (u_shippedBlocks u) in
  (0 < blockDuration →
   ∀ fuel, heads_in_range fuel blockDuration d = true →
     (∀ out u' calls,
        compactHead fuel blockDuration u = Some (out, u', calls) →
        ∃ err d', out = Returned err ∧ u' = finished d' ∧
                  aligned_windows blockDuration d calls d' err) ∧
     (∀ calls d' err,
        aligned_windows blockDuration d calls d' err → (length calls ≤ fuel)%nat →
        compactHead fuel blockDuration u = Some (Returned err, finished d', calls))) ∧
  (0 < blockDuration →
   ∀ calls d' err,
     aligned_windows blockDuration d calls d' err →
     ∀ a b, (a, b) ∈ calls →
       window blockDuration a = window blockDuration b ∧
       b <= window_end blockDuration a) ∧
  (blockDuration = 0 →
   ∀ fuel, compactHead fuel blockDuration u
           = Some (Panicked "runtime error: integer divide by zero", finished d, [])) ∧
  (∀ fuel out u' calls,
     compactHead fuel blockDuration u = Some (out, u', calls) →
     out ≠ Blocked ∧ ∃ d', u' = finished d').
Proof.
  intros Hstore Hstate Hpush Hin finished.
  assert (Hcas : casState active forceCompacting u = (true, set_state forceCompacting u)).
  { unfold casState. rewrite Hstate. rewrite decide_False by (intros Hn; by apply Hn). done. }
  assert (Hback : ∀ d', (casState forceCompacting active
                           (set_store (OnDisk d') (set_state forceCompacting u))).2
                        = finished d').
  { intros d'. unfold casState, finished. simpl.
    unfold set_state, set_store. simpl. by rewrite Hpush. }
  assert (Hback0 : (casState forceCompacting active (set_state forceCompacting u)).2
                   = finished d).
  { unfold casState, finished. simpl.
    unfold set_state. simpl. by rewrite Hpush, Hstore. }
  assert (Hrun : ∀ fuel, blockDuration ≠ 0 →
            compactHead fuel blockDuration u =
            match compactHead_loop fuel blockDuration d
                    (HeadMinTime_db d) (HeadMaxTime_db d) [] with
            | None => None
            | Some (err, d', calls) => Some (Returned err, finished d', calls)
            end).
  { intros fuel Hbd. unfold compactHead. rewrite Hstore, Hcas. simpl.
    rewrite Hpush. rewrite decide_False by (intros Hn; by apply Hn).
    rewrite decide_False by done.
    destruct (compactHead_loop fuel blockDuration d (HeadMinTime_db d)
                (HeadMaxTime_db d) []) as [[[err d'] cs]|]; [|done].
    by rewrite <- (Hback d'). }
  assert (Hzero : ∀ fuel, blockDuration = 0 →
            compactHead fuel blockDuration u
            = Some (Panicked "runtime error: integer divide by zero", finished d, [])).
  { intros fuel ->. unfold compactHead. rewrite Hstore, Hcas. simpl.
    rewrite Hpush. rewrite decide_False by (intros Hn; by apply Hn).
    by rewrite <- Hback0. }
  split_and!.
  - intros Hbd fuel Hr. split.
    + intros out u' calls. rewrite Hrun by lia.
      destruct (compactHead_loop fuel blockDuration d (HeadMinTime_db d)
                  (HeadMaxTime_db d) []) as [[[err d'] cs]|] eqn:Hloop; [|done].
      intros [= <- <- <-].
      destruct (compactHead_loop_aligned _ _ _ _ _ _ _ Hbd Hin Hr Hloop) as (cs' & -> & Hw).
      exists err, d'. by split_and!.
    + intros calls d' err Hw Hfuel. rewrite Hrun by lia.
      by rewrite (aligned_compactHead_loop _ _ _ _ _ Hbd Hin Hw fuel [] Hfuel Hr).
  - intros Hbd calls d' err Hw. by apply (aligned_windows_ranges _ _ _ _ _ Hbd Hw).
  - intros Hbd fuel. by apply Hzero.
  - intros fuel out u' calls.
    destruct (decide (blockDuration = 0)) as [Hz|Hnz].
    + rewrite (Hzero fuel Hz). intros [= <- <- <-]. split; [done|by exists d].
    + rewrite (Hrun fuel Hnz).
      destruct (compactHead_loop fuel blockDuration d (HeadMinTime_db d)
                  (HeadMaxTime_db d) []) as [[[err d'] cs]|]; [|done].
      intros [= <- <- <-]. split; [done|by exists d'].
Qed.

(** ** State conflicts *)

(** C4, as amended. For a tenant that keeps blocks on disk, a forced
    compaction requested in any state other than [active]
    ([activeShipping] included) returns an error and leaves the tenant,
    its state included, as it was; for a tenant that keeps its data in
    memory only, a forced compaction does nothing and returns no error in
    every state. An append permit requested in a state other than [active]
    and [activeShipping] is refused with the error naming the conflict
    ("forced compaction in progress", "TSDB is closing", "TSDB is not
    active") and the in-flight counter is not incremented; in [active] and
    [activeShipping] it is granted and the counter incremented. *)
Theorem state_conflicts_are_rejected (u : userTSDB DB) :
  (∀ d fuel blockDuration,
     u_store u = OnDisk d → u_state u ≠ active →
     compactHead fuel blockDuration u =
       Some (Returned (Some (ErrNew
         "TSDB head cannot be compacted because it is not in active state (possibly being closed or blocks shipping in progress)")),
         u, [])) ∧
  (∀ h fuel blockDuration,
     u_store u = InMemory h →
     compactHead fuel blockDuration u = Some (Returned None, u, [])) ∧
  (u_state u ≠ active → u_state u ≠ activeShipping →
   acquireAppendLock u =
     (Some (ErrNew (match u_state u with
                    | forceCompacting => "forced compaction in progress"
                    | closing => "TSDB is closing"
                    | _ => "TSDB is not active"
                    end)), u)) ∧
  (u_state u = active ∨ u_state u = activeShipping →
   acquireAppendLock u = (None, set_pushesInFlight (u_pushesInFlight u + 1) u)).
Proof.
  split_and!.
  - intros d fuel bd Hstore Hstate. unfold compactHead, casState. rewrite Hstore.
    rewrite decide_True by done. done.
  - intros h fuel bd Hstore. unfold compactHead. by rewrite Hstore.
  - intros H1 H2. unfold acquireAppendLock. by destruct (u_state u).
  - intros [H1|H1]; unfold acquireAppendLock; by rewrite H1.
Qed.

(** ** The idle-close decision *)

(** As long as every block left unshipped carries a timestamp other than
    0, the oldest-unshipped time is 0 exactly when nothing is unshipped. *)
Lemma oldest_unshipped_zero (sb : gmap N Z) blocks acc :
  (∀ b, b ∈ blocks → sb !! b = None → ULID_Time b ≠ 0%N) →
  oldest_unshipped sb blocks acc = 0%N ↔
  acc = 0%N ∧ ∀ b, b ∈ blocks → is_Some (sb !! b).
Proof.
  revert acc. induction blocks as [|b blocks IH]; intros acc Hnz; simpl.
  { split; [intros ->; split; [done|]; intros b Hb; by apply elem_of_nil in Hb|by intros [-> _]]. }
  assert (Hnz' : ∀ b', b' ∈ blocks → sb !! b' = None → ULID_Time b' ≠ 0%N)
    by (intros; apply Hnz; [set_solver|done]).
  destruct (sb !! b) as [t|] eqn:Hsb.
  - rewrite (IH acc Hnz'). split; intros [-> Hall]; split; try done.
    + intros b' Hb'. apply elem_of_cons in Hb' as [->|Hb']; [by eexists|by apply Hall].
    + intros b' Hb'. apply Hall. set_solver.
  - assert (Hb : ULID_Time b ≠ 0%N) by (apply Hnz; [set_solver|done]).
    split.
    + intros Hz. exfalso.
      destruct (decide (acc = 0 ∨ ULID_Time b < acc)%N) as [Hd|Hd].
      * apply IH in Hz as [Hz _]; done.
      * apply IH in Hz as [Hz _]; [|done]. apply Hd. by left.
    + intros [_ Hall]. destruct (Hall b) as [v Hv]; [set_solver|]. congruence.
Qed.



End Facts.

(** A head spanning three two-hour windows is compacted in three ranges,
    each within its window. *)
Lemma compactHead_splits_head_witness :
  ∃ u' d',
    compactHead 2 Sample.two_hours
      (Sample.tenant (OnDisk Sample.db_three_windows) active 0)
    = Some (Returned None, u',
            [(100, 7199999); (7200500, 14399999); (14400100, 14400100)]) ∧
    u_state u' = active ∧ u_pushesInFlight u' = 0 ∧
    aligned_windows Sample.two_hours Sample.db_three_windows
      [(100, 7199999); (7200500, 14399999); (14400100, 14400100)] d' None ∧
    window Sample.two_hours 7200500 = window Sample.two_hours 14399999.
Proof.
  destruct (compactHead_splits_head
              (Sample.tenant (OnDisk Sample.db_three_windows) active 0)
              Sample.db_three_windows Sample.two_hours)
    as (Hruns & Hin & _ & _).
  - reflexivity.
  - reflexivity.
  - reflexivity.
  - vm_compute. split; [discriminate|reflexivity].
  - destruct (Hruns eq_refl 2%nat) as (Hsound & _); [vm_compute; reflexivity|].
    destruct (Hsound (Returned None)
                (Sample.tenant
                   (OnDisk (Sample.mkSampleDB "/data/tenant-1" [] 3 [] None)) active 0)
                [(100, 7199999); (7200500, 14399999); (14400100, 14400100)])
      as (err & d' & Hout & Hu & Hrun).
    + vm_compute. reflexivity.
    + injection Hout as <-.
      eexists _, d'. split; [vm_compute; reflexivity|].
      split; [reflexivity|]. split; [reflexivity|]. split; [exact Hrun|].
      apply (Hin eq_refl _ _ _ Hrun 7200500 14399999).
      apply list_elem_of_further, list_elem_of_here.
Defined.

(** C8, the claim as stated fails for times before the epoch: the
    division that aligns the times truncates towards zero. With a block
    duration of two hours, a head holding a sample 8,000 seconds before
    the epoch and one 5,000 seconds after it is compacted in the ranges
    [-8000000, -1] and [5000000, 5000000]: the first is longer than the
    block duration and spans two of its aligned windows. *)
Lemma compactHead_range_spans_two_windows :
  compactHead 1 Sample.two_hours (Sample.tenant (OnDisk Cases.db_before_epoch) active 0)
    = Some (Returned None,
            Sample.tenant (OnDisk (Sample.mkSampleDB "/data/tenant-1" [] 2 [] None)) active 0,
            [(-8000000, -1); (5000000, 5000000)]) ∧
  Sample.two_hours < -1 - -8000000 + 1 ∧
  window Sample.two_hours (-8000000) = -2 ∧
  window Sample.two_hours (-1) = -1 ∧
  align (-8000000) Sample.two_hours = - Sample.two_hours.
Proof. vm_compute. repeat split; reflexivity. Qed.

(** C4, the claim as stated fails: for a tenant that keeps its data in
    memory only, a forced compaction requested while blocks are being
    shipped returns no error. *)
Lemma compactHead_head_only_no_error :
  compactHead 0 Sample.two_hours (Sample.tenant Sample.head_only activeShipping 0)
  = Some (Returned None, Sample.tenant Sample.head_only activeShipping 0, []).
Proof. reflexivity. Qed.

(** A forced compaction during shipping, and a push during a forced
    compaction. *)
Lemma state_conflicts_are_rejected_witness :
  (∃ e, compactHead 2 Sample.two_hours
          (Sample.tenant (OnDisk Sample.db_three_windows) activeShipping 0)
        = Some (Returned (Some e),
                Sample.tenant (OnDisk Sample.db_three_windows) activeShipping 0, [])) ∧
  acquireAppendLock (Sample.tenant (OnDisk Sample.db_three_windows) forceCompacting 0)
  = (Some (ErrNew "forced compaction in progress"),
     Sample.tenant (OnDisk Sample.db_three_windows) forceCompacting 0).
Proof.
  split.
  - destruct (state_conflicts_are_rejected
                (Sample.tenant (OnDisk Sample.db_three_windows) activeShipping 0))
      as (Hcompact & _).
    eexists. apply (Hcompact Sample.db_three_windows); [reflexivity|discriminate].
  - destruct (state_conflicts_are_rejected
                (Sample.tenant (OnDisk Sample.db_three_windows) forceCompacting 0))
      as (_ & _ & Happend & _).
    apply Happend; discriminate.
Defined.


(** The condition on the timestamps in (5) cannot be dropped: 0 is the
    value with which [getOldestUnshippedBlockTime] says that nothing is
    left to ship, so a block whose ULID carried the timestamp 0 would not
    be seen as left to ship. *)
Remark shouldCloseTSDB_misses_block_of_time_zero :
  Blocks Sample.tenant_epoch_block = [Sample.id_epoch] ∧
  getCachedShippedBlocks Sample.tenant_epoch_block !! Sample.id_epoch = None ∧
  ULID_Time Sample.id_epoch = 0%N ∧
  u_deletionMarkFound Sample.tenant_epoch_block = false ∧
  isIdle Sample.a_day_later Sample.one_hour_ns Sample.tenant_epoch_block = true ∧
  HeadNumSeries Sample.tenant_epoch_block = 0%N ∧
  getOldestUnshippedBlockTime Sample.tenant_epoch_block = 0%N ∧
  shouldCloseTSDB Sample.a_day_later Sample.one_hour_ns Sample.tenant_epoch_block
    = tsdbIdle ∧
  shouldClose tsdbIdle = true.
Proof. vm_compute. repeat split; reflexivity. Qed.

End IngesterFacts.

(** * Further properties of the shipper *)

Module ShipperMore.
Import Shipper Run Listing ShipperFacts.

(** ** The listing *)

Lemma read_metas_ok cfg names acc :
  (∀ n, n ∈ names → ¬ entry_fails n) →
  read_metas cfg names acc = Ok (acc ++ omap listed_meta names).
Proof.
  revert acc. induction names as [|n names IH]; intros acc Hok; simpl.
  { by rewrite app_nil_r. }
  assert (Hn : ¬ entry_fails n) by (apply Hok; set_solver).
  assert (Hrest : ∀ n', n' ∈ names → ¬ entry_fails n') by (intros; apply Hok; set_solver).
  unfold listed_meta, entry_fails in *.
  destruct (de_IsBlockDir n); simpl; [|by apply IH].
  destruct (de_Stat n) as [[|]|e]; [| by apply IH | exfalso; apply Hn; eauto].
  destruct (de_ReadFromDir n) as [m|e]; [|exfalso; apply Hn; eauto].
  rewrite IH by done. by rewrite <- app_assoc.
Qed.

Lemma read_metas_fails cfg names acc :
  (∃ n, n ∈ names ∧ entry_fails n) → ∃ e, read_metas cfg names acc = Err e.
Proof.
  revert acc. induction names as [|n names IH]; intros acc (n0 & Hin & Hf).
  { by apply elem_of_nil in Hin. }
  simpl.
  assert (Hrest : ¬ entry_fails n → ∃ n', n' ∈ names ∧ entry_fails n').
  { intros Hn. exists n0. split; [|done]. by apply elem_of_cons in Hin as [->|?]. }
  unfold entry_fails at 1 in Hrest.
  destruct (de_IsBlockDir n) eqn:Hb; simpl.
  2: { apply IH, Hrest. by intros [? _]. }
  destruct (de_Stat n) as [[|]|e] eqn:Hs; [| |eauto].
  2: { apply IH, Hrest. intros (_ & [[e ?]|[? _]]); done. }
  destruct (de_ReadFromDir n) as [m|e] eqn:Hr; [|eauto].
  apply IH, Hrest. intros (_ & [[e ?]|(_ & e & ?)]); done.
Qed.

Lemma read_metas_inv cfg names acc l :
  read_metas cfg names acc = Ok l → l = acc ++ omap listed_meta names.
Proof.
  revert acc. induction names as [|n names IH]; intros acc; simpl.
  { intros [= <-]. by rewrite app_nil_r. }
  unfold listed_meta.
  destruct (de_IsBlockDir n); simpl; [|apply IH].
  destruct (de_Stat n) as [[|]|e]; [| apply IH | done].
  destruct (de_ReadFromDir n) as [m|e]; [|done].
  intros H. apply IH in H. by rewrite <- app_assoc in H.
Qed.

Lemma read_metas_err_inv cfg names acc e :
  read_metas cfg names acc = Err e → ∃ n, n ∈ names ∧ entry_fails n.
Proof.
  revert acc. induction names as [|n names IH]; intros acc; simpl; [done|].
  assert (Hrest : ∀ acc', read_metas cfg names acc' = Err e →
                          ∃ n0, n0 ∈ n :: names ∧ entry_fails n0).
  { intros acc' H. destruct (IH _ H) as (n0 & ? & ?). exists n0. split; [set_solver|done]. }
  destruct (de_IsBlockDir n) eqn:Hb; simpl; [|apply Hrest].
  destruct (de_Stat n) as [[|]|e1] eqn:Hs; [| apply Hrest |].
  - destruct (de_ReadFromDir n) as [m|e2] eqn:Hr; [apply Hrest|].
    intros _. exists n. split; [set_solver|]. split; [done|]. right. eauto.
  - intros _. exists n. split; [set_solver|]. split; [done|]. left. eauto.
Qed.

(** X1. When [blockMetasFromOldest] succeeds, the blocks it returns are in
    ascending order of [MinTime] (every block comes before the blocks of a
    greater min time), and they are, up to order, the metas of the
    directory entries that have the name of a block, are directories and
    whose metadata can be read: other entries are left out without
    error. *)
Theorem blockMetasFromOldest_sorted cfg env metas :
  blockMetasFromOldest cfg env = Ok metas →
  StronglySorted MinTime_le metas ∧
  ∃ fis, ReadDir env = Ok fis ∧ metas ≡ₚ omap listed_meta fis.
Proof.
  unfold blockMetasFromOldest. destruct (ReadDir env) as [fis|e]; [|done].
  destruct (read_metas cfg fis []) as [l|e] eqn:Hr; [|done].
  intros [= <-]. apply read_metas_inv in Hr. simpl in Hr. subst l.
  assert (Total MinTime_le) by (intros a b; unfold MinTime_le; lia).
  assert (Transitive MinTime_le) by (intros a b c; unfold MinTime_le; lia).
  split.
  - unfold sort_by_MinTime. apply StronglySorted_merge_sort; apply _.
  - exists fis. split; [done|]. apply merge_sort_Permutation.
Qed.

(** Blocks listed as 100, (no block), 200, (no directory), 50 come out as
    50, 100, 200. *)
Lemma blockMetasFromOldest_sorted_witness :
  blockMetasFromOldest Sample.cfg Cases.env_unordered
    = Ok [Sample.B1; Sample.B2; Sample.B3] ∧
  StronglySorted MinTime_le [Sample.B1; Sample.B2; Sample.B3].
Proof.
  split; [vm_compute; reflexivity|].
  apply (blockMetasFromOldest_sorted Sample.cfg Cases.env_unordered).
  vm_compute. reflexivity.
Defined.

(** X2. [blockMetasFromOldest] fails exactly when the directory cannot be
    read, or some entry with the name of a block cannot be inspected
    ([os.Stat] fails), or is a directory whose metadata cannot be read.
    Entries without the name of a block, and files with one, never make
    it fail. *)
Theorem blockMetasFromOldest_fails_iff cfg env :
  (∃ e, blockMetasFromOldest cfg env = Err e) ↔
  (∃ e, ReadDir env = Err e) ∨
  (∃ fis n, ReadDir env = Ok fis ∧ n ∈ fis ∧ entry_fails n).
Proof.
  unfold blockMetasFromOldest. split.
  - intros [e He]. destruct (ReadDir env) as [fis|e0]; [|left; eauto].
    right. destruct (read_metas cfg fis []) as [l|e1] eqn:Hr; [done|].
    destruct (read_metas_err_inv _ _ _ _ Hr) as (n & ? & ?). by exists fis, n.
  - intros [[e He]|(fis & n & Hd & Hin & Hf)].
    + rewrite He. eauto.
    + rewrite Hd. destruct (read_metas_fails cfg fis []) as [e ->]; eauto.
Qed.


(** ** The order of the calls *)

Lemma sync_block_calls cfg env sb m st :
  ∃ evs,
    trace (step_world (sync_block cfg env sb m st)) = trace (ls_world st) ++ evs ∧
    checks evs = (if decide (reaches_check sb m) then [ULID m] else []) ∧
    uploads evs `sublist_of` checks evs ∧
    bucket (step_world (sync_block cfg env sb m st))
      = bucket (ls_world st) ∪ uploaded_ok env evs.
Proof.
  unfold sync_block, uploaded_ok.
  destruct (sb !! ULID m) as [t|] eqn:Hsb; simpl.
  { exists []. rewrite app_nil_r. rewrite decide_False by (intros [? _]; congruence).
    split_and!; try done. set_solver. }
  destruct (decide (NumSamples m = 0%N)); simpl.
  { exists []. rewrite app_nil_r. rewrite decide_False by (intros (? & ? & ?); congruence).
    split_and!; try done. set_solver. }
  destruct (decide (Level m > 1)); simpl.
  { exists []. rewrite app_nil_r. rewrite decide_False by (intros (? & ? & ?); lia).
    split_and!; try done. set_solver. }
  rewrite decide_True by (unfold reaches_check; split_and!; auto; lia).
  unfold bucket_Exists. destruct (exists_fault env (ULID m)) as [e|] eqn:Hex; simpl.
  { exists [EvExists (ULID m)]. split_and!; try done.
    - apply sublist_nil_l.
    - set_solver. }
  case_bool_decide as Hin; simpl.
  { exists [EvExists (ULID m)]. split_and!; try done.
    - apply sublist_nil_l.
    - set_solver. }
  unfold upload; simpl. destruct (upload_fault env (ULID m)) as [e|] eqn:Hup; simpl.
  { exists [EvExists (ULID m); EvUpload (enrich cfg env m); EvError "shipping failed" (ULID m) e].
    split_and!; try done.
    - by rewrite <- !app_assoc.
    - simpl. rewrite filter_cons_False by (simpl; congruence). set_solver. }
  { exists [EvExists (ULID m); EvUpload (enrich cfg env m)].
    split_and!; try done.
    - by rewrite <- !app_assoc.
    - simpl. rewrite filter_cons_True by done. set_solver. }
Qed.

Lemma uploaded_ok_app env evs1 evs2 :
  uploaded_ok env (evs1 ++ evs2) = uploaded_ok env evs1 ∪ uploaded_ok env evs2.
Proof.
  unfold uploaded_ok. rewrite uploads_app, filter_app, list_to_set_app_L. done.
Qed.

Lemma sync_loop_calls cfg env sb metas st :
  ∃ evs,
    trace (step_world (sync_loop cfg env sb metas st)) = trace (ls_world st) ++ evs ∧
    uploads evs `sublist_of` checks evs ∧
    bucket (step_world (sync_loop cfg env sb metas st))
      = bucket (ls_world st) ∪ uploaded_ok env evs ∧
    match sync_loop cfg env sb metas st with
    | Continue _ => checks evs = ULID <$> filter (reaches_check sb) metas
    | Abort e _ =>
        ∃ pre m post e',
          metas = pre ++ m :: post ∧ reaches_check sb m ∧
          exists_fault env (ULID m) = Some e' ∧ e = ErrWrap "check exists" e' ∧
          checks evs = ULID <$> filter (reaches_check sb) (pre ++ [m])
    end.
Proof.
  revert st. induction metas as [|m metas IH]; intros st; simpl.
  { exists []. rewrite app_nil_r. split_and!; try done. unfold uploaded_ok. set_solver. }
  destruct (sync_block_calls cfg env sb m st) as (evs1 & Ht1 & Hc1 & Hs1 & Hb1).
  destruct (sync_block cfg env sb m st) as [st1|e w1] eqn:Hblk; simpl in *.
  - destruct (IH st1) as (evs2 & Ht2 & Hs2 & Hb2 & Hrest).
    exists (evs1 ++ evs2). rewrite Ht2, Ht1, Hb2, Hb1, uploaded_ok_app, uploads_app, checks_app.
    split_and!.
    + by rewrite <- app_assoc.
    + by apply sublist_app.
    + set_solver.
    + destruct (sync_loop cfg env sb metas st1) as [st2|e w2].
      * rewrite Hrest, Hc1. destruct (decide (reaches_check sb m)).
        -- by rewrite filter_cons_True.
        -- by rewrite filter_cons_False.
      * destruct Hrest as (pre & m' & post & e' & -> & Hr & Hex & -> & Hc).
        exists (m :: pre), m', post, e'. split_and!; try done.
        rewrite Hc, Hc1. simpl. destruct (decide (reaches_check sb m)).
        -- by rewrite filter_cons_True.
        -- by rewrite filter_cons_False.
  - exists evs1. split_and!; try done.
    unfold sync_block in Hblk.
    destruct (sb !! ULID m) eqn:Hsb; [done|].
    destruct (decide (NumSamples m = 0%N)); [done|].
    destruct (decide (Level m > 1)); [done|].
    unfold bucket_Exists in Hblk.
    destruct (exists_fault env (ULID m)) as [e'|] eqn:Hex; simpl in Hblk.
    + injection Hblk as <- <-.
      assert (Hr : reaches_check sb m) by (unfold reaches_check; split_and!; auto; lia).
      exists [], m, metas, e'. split_and!; try done.
      rewrite Hc1. simpl. rewrite decide_True by done. by rewrite filter_cons_True.
    + case_bool_decide; simpl in Hblk; [done|].
      unfold upload in Hblk. by destruct (upload_fault env (ULID m)).
Qed.

Lemma uploads_follow_checks_none evs :
  uploads evs = [] → uploads_follow_checks evs.
Proof.
  intros Hu i m Hi. exfalso.
  assert (Hin : ULID m ∈ uploads evs).
  { unfold uploads. apply list_elem_of_omap. exists (EvUpload m).
    split; [by eapply list_elem_of_lookup_2|done]. }
  rewrite Hu in Hin. by apply elem_of_nil in Hin.
Qed.

Lemma uploads_follow_checks_app evs1 evs2 :
  uploads_follow_checks evs1 → uploads_follow_checks evs2 →
  uploads_follow_checks (evs1 ++ evs2).
Proof.
  intros H1 H2 i m Hi. apply lookup_app_Some in Hi as [Hi|[Hlen Hi]].
  - destruct (H1 i m Hi) as (j & -> & Hj). exists j. split; [done|].
    by apply lookup_app_l_Some.
  - destruct (H2 _ m Hi) as (j & Hij & Hj).
    exists (length evs1 + j)%nat. split; [lia|].
    rewrite lookup_app_r by lia. rewrite <- Hj. f_equal. lia.
Qed.

Lemma sync_block_follows cfg env sb m st :
  ∃ evs,
    trace (step_world (sync_block cfg env sb m st)) = trace (ls_world st) ++ evs ∧
    uploads_follow_checks evs.
Proof.
  assert (Hnone : uploads_follow_checks []) by (by apply uploads_follow_checks_none).
  unfold sync_block.
  destruct (sb !! ULID m) as [t|] eqn:Hsb; simpl.
  { exists []. by rewrite app_nil_r. }
  destruct (decide (NumSamples m = 0%N)); simpl.
  { exists []. by rewrite app_nil_r. }
  destruct (decide (Level m > 1)); simpl.
  { exists []. by rewrite app_nil_r. }
  unfold bucket_Exists. destruct (exists_fault env (ULID m)) as [e|] eqn:Hex; simpl.
  { exists [EvExists (ULID m)]. split; [done|]. by apply uploads_follow_checks_none. }
  case_bool_decide as Hin; simpl.
  { exists [EvExists (ULID m)]. split; [done|]. by apply uploads_follow_checks_none. }
  unfold upload; simpl. destruct (upload_fault env (ULID m)) as [e|] eqn:Hup; simpl.
  { exists [EvExists (ULID m); EvUpload (enrich cfg env m); EvError "shipping failed" (ULID m) e].
    split; [by rewrite <- !app_assoc|].
    intros [|[|[|i]]] m' Hi; try done. injection Hi as <-. by exists 0%nat. }
  { exists [EvExists (ULID m); EvUpload (enrich cfg env m)].
    split; [by rewrite <- !app_assoc|].
    intros [|[|i]] m' Hi; try done. injection Hi as <-. by exists 0%nat. }
Qed.

Lemma sync_loop_follows cfg env sb metas st :
  ∃ evs,
    trace (step_world (sync_loop cfg env sb metas st)) = trace (ls_world st) ++ evs ∧
    uploads_follow_checks evs.
Proof.
  revert st. induction metas as [|m metas IH]; intros st; simpl.
  { exists []. rewrite app_nil_r. split; [done|]. by apply uploads_follow_checks_none. }
  destruct (sync_block_follows cfg env sb m st) as (evs1 & Ht1 & Hf1).
  destruct (sync_block cfg env sb m st) as [st1|e w1]; simpl in *.
  - destruct (IH st1) as (evs2 & Ht2 & Hf2).
    exists (evs1 ++ evs2). rewrite Ht2, Ht1, <- app_assoc.
    split; [done|]. by apply uploads_follow_checks_app.
  - by exists evs1.
Qed.

Lemma Sync_follows cfg env w :
  uploads_follow_checks (events_since w (Sync cfg env w).2).
Proof.
  destruct (loadShippedBlocks cfg env w) as [sb w1] eqn:Hload.
  destruct (loadShippedBlocks_frame _ _ _ _ _ Hload)
    as (_ & _ & _ & _ & evs0 & He0 & Hu0 & _).
  apply uploads_follow_checks_none in Hu0.
  rewrite (Sync_unfold _ _ _ _ _ Hload).
  destruct (blockMetasFromOldest cfg env) as [metas|e]; simpl.
  2: { by rewrite (events_since_app _ _ _ He0). }
  destruct (sync_loop_follows cfg env sb metas (mkLoopState ∅ 0 0 w1))
    as (evsL & HeL & HfL). simpl in HeL.
  destruct (sync_loop cfg env sb metas (mkLoopState ∅ 0 0 w1)) as [st|e w2]; simpl in *.
  - pose proof (updateMetaFile_frame env
      (mkShipperMeta shipperMetaVersion1 (ls_Shipped st)) (ls_world st))
      as (_ & _ & evsW & HeW & HuW & _). simpl in HeW.
    apply uploads_follow_checks_none in HuW.
    assert (Hev : ∀ r : Z * option error,
      events_since w (r, updateMetaFile env
         (mkShipperMeta shipperMetaVersion1 (ls_Shipped st)) (ls_world st)).2
      = evs0 ++ evsL ++ evsW).
    { intros r. simpl. apply events_since_app. rewrite HeW, HeL, He0.
      by rewrite <- !app_assoc. }
    destruct (decide (ls_uploadErrs st > 0)); rewrite Hev;
      by repeat apply uploads_follow_checks_app.
  - assert (Hev : events_since w w2 = evs0 ++ evsL).
    { apply events_since_app. rewrite HeL, He0. by rewrite <- !app_assoc. }
    rewrite Hev. by apply uploads_follow_checks_app.
Qed.

Lemma Sync_calls cfg env w sb w1 metas :
  loadShippedBlocks cfg env w = (sb, w1) →
  blockMetasFromOldest cfg env = Ok metas →
  let r := Sync cfg env w in
  let evs := events_since w r.2 in
  uploads evs `sublist_of` checks evs ∧
  bucket r.2 = bucket w ∪ uploaded_ok env evs ∧
  match sync_loop cfg env sb metas (mkLoopState ∅ 0 0 w1) with
  | Continue st =>
      r.1 = (ls_shipped st, sync_err st) ∧
      checks evs = ULID <$> filter (reaches_check sb) metas ∧
      writes evs = [mkShipperMeta shipperMetaVersion1 (ls_Shipped st)]
  | Abort e _ =>
      r.1 = (0, Some e) ∧ writes evs = [] ∧
      ∃ pre m post e',
        metas = pre ++ m :: post ∧ reaches_check sb m ∧
        exists_fault env (ULID m) = Some e' ∧ e = ErrWrap "check exists" e' ∧
        checks evs = ULID <$> filter (reaches_check sb) (pre ++ [m])
  end.
Proof.
  intros Hload Hmetas r evs. subst r evs.
  destruct (loadShippedBlocks_frame _ _ _ _ _ Hload)
    as (Hm1 & Ht1 & Hb1 & Hk1 & evs0 & He0 & Hu0 & Hc0 & Hw0).
  destruct (sync_loop_calls cfg env sb metas (mkLoopState ∅ 0 0 w1))
    as (evsL & HeL & HsL & HbL & Hmatch).
  pose proof (sync_loop_frame cfg env sb metas (mkLoopState ∅ 0 0 w1))
    as (_ & _ & _ & _ & evsL' & HeL' & HfL).
  simpl in *.
  assert (evsL' = evsL) as -> by (rewrite HeL in HeL'; by apply app_inv_head in HeL').
  apply loop_writes in HfL.
  rewrite (Sync_unfold _ _ _ _ _ Hload), Hmetas.
  destruct (sync_loop cfg env sb metas (mkLoopState ∅ 0 0 w1)) as [st|e w2]; simpl in *.
  - pose proof (updateMetaFile_frame env
      (mkShipperMeta shipperMetaVersion1 (ls_Shipped st)) (ls_world st))
      as (HbW & _ & evsW & HeW & HuW & HcW & HwW). simpl in *.
    assert (Hev : ∀ r : Z * option error,
      events_since w (r, updateMetaFile env
         (mkShipperMeta shipperMetaVersion1 (ls_Shipped st)) (ls_world st)).2
      = evs0 ++ evsL ++ evsW).
    { intros r. simpl. apply events_since_app. rewrite HeW, HeL, He0.
      by rewrite <- !app_assoc. }
    unfold sync_err.
    destruct (decide (ls_uploadErrs st > 0)); rewrite Hev; simpl;
      rewrite !uploaded_ok_app, !uploads_app, !checks_app, !writes_app,
        Hu0, Hc0, Hw0, HuW, HcW, HwW, HfL, HbW, HbL, Hb1, !app_nil_r; simpl;
      (split_and!; [done| unfold uploaded_ok; rewrite Hu0, HuW; set_solver |done|done|done]).
  - assert (Hev : events_since w w2 = evs0 ++ evsL).
    { apply events_since_app. rewrite HeL, He0. by rewrite <- !app_assoc. }
    rewrite Hev, !uploaded_ok_app, !uploads_app, !checks_app, !writes_app,
      Hu0, Hc0, Hw0, HfL, HbL, Hb1. simpl.
    split_and!; [done| unfold uploaded_ok; rewrite Hu0; set_solver |done|done|done].
Qed.

Lemma Sync_listing_fails_aux cfg env w e :
  blockMetasFromOldest cfg env = Err e →
  bucket (Sync cfg env w).2 = bucket w ∧ uploads (events_since w (Sync cfg env w).2) = [].
Proof.
  intros Hlist.
  destruct (loadShippedBlocks cfg env w) as [sb w1] eqn:Hload.
  destruct (loadShippedBlocks_frame _ _ _ _ _ Hload)
    as (Hm1 & Ht1 & Hb1 & Hk1 & evs0 & He0 & Hu0 & Hc0 & Hw0).
  rewrite (Sync_unfold _ _ _ _ _ Hload), Hlist. simpl.
  by rewrite (events_since_app _ _ _ He0).
Qed.

(** X3. When the local blocks cannot be listed, [Sync] returns 0 and the
    error of the listing; it checks and uploads nothing, does not write
    the meta files and leaves the bucket as it is. *)
Theorem Sync_listing_fails cfg env w e :
  blockMetasFromOldest cfg env = Err e →
  let r := Sync cfg env w in
  r.1 = (0, Some e) ∧
  mimir_file r.2 = mimir_file w ∧ thanos_file r.2 = thanos_file w ∧
  bucket r.2 = bucket w ∧
  uploads (events_since w r.2) = [] ∧
  checks (events_since w r.2) = [] ∧
  writes (events_since w r.2) = [].
Proof.
  intros Hlist r. subst r.
  destruct (loadShippedBlocks cfg env w) as [sb w1] eqn:Hload.
  destruct (loadShippedBlocks_frame _ _ _ _ _ Hload)
    as (Hm1 & Ht1 & Hb1 & Hk1 & evs0 & He0 & Hu0 & Hc0 & Hw0).
  rewrite (Sync_unfold _ _ _ _ _ Hload), Hlist. simpl.
  rewrite (events_since_app _ _ _ He0). by split_and!.
Qed.

(** The metadata of the second block cannot be read. *)
Lemma Sync_listing_fails_witness :
  let r := Sync Sample.cfg Cases.env_unreadable_block Sample.fresh in
  r.1 = (0, Some (ErrWrap "read metadata for block /data/tenant-1/block"
                    (ErrNew "unexpected end of JSON input"))) ∧
  bucket r.2 = ∅ ∧ checks (events_since Sample.fresh r.2) = [].
Proof.
  intros r. subst r.
  destruct (Sync_listing_fails Sample.cfg Cases.env_unreadable_block Sample.fresh
              (ErrWrap "read metadata for block /data/tenant-1/block"
                 (ErrNew "unexpected end of JSON input")))
    as (H1 & _ & _ & H2 & _ & H3 & _).
  - vm_compute. reflexivity.
  - split_and!; [exact H1 | exact H2 | exact H3].
Defined.

(** X4. [Sync] asks the bucket about the listed blocks in the order of
    the listing (oldest first), skipping the blocks shipped before, the
    empty blocks and the blocks of a compaction level above 1; a failed
    check ends the pass, so the blocks checked are a prefix of this list,
    and all of it unless [Sync] returns a "check exists" error. A block is
    uploaded only after its own check: in the trace of the call every
    upload comes right after the existence check of the same block, and
    the uploads are, in order, among the checks. *)
Theorem Sync_checks_in_listing_order cfg env w sb w1 metas :
  loadShippedBlocks cfg env w = (sb, w1) →
  blockMetasFromOldest cfg env = Ok metas →
  let r := Sync cfg env w in
  let evs := events_since w r.2 in
  checks evs `prefix_of` (ULID <$> filter (reaches_check sb) metas) ∧
  uploads evs `sublist_of` checks evs ∧
  uploads_follow_checks evs ∧
  ((∀ e, r.1.2 ≠ Some (ErrWrap "check exists" e)) →
   checks evs = ULID <$> filter (reaches_check sb) metas).
Proof.
  intros Hload Hmetas r evs.
  destruct (Sync_calls _ _ _ _ _ _ Hload Hmetas) as (Hsub & _ & Hmatch).
  pose proof (Sync_follows cfg env w) as Hfol.
  fold r evs in Hsub, Hmatch, Hfol.
  destruct (sync_loop cfg env sb metas (mkLoopState ∅ 0 0 w1)) as [st|e w2].
  - destruct Hmatch as (_ & Hc & _). rewrite Hc.
    by split_and!; [reflexivity|rewrite <- Hc| |].
  - destruct Hmatch as (Hr & _ & pre & m & post & e' & -> & Hrc & Hex & -> & Hc).
    split_and!; [|done|done|].
    + rewrite Hc. rewrite (assoc_L (++) pre [m] post : pre ++ m :: post = (pre ++ [m]) ++ post).
      exists (ULID <$> filter (reaches_check sb) post). by rewrite filter_app, fmap_app.
    + intros Hno. exfalso. apply (Hno e'). by rewrite Hr.
Qed.

Lemma Sync_checks_in_listing_order_witness :
  let r := Sync Sample.cfg Cases.env_unordered Sample.fresh in
  checks (events_since Sample.fresh r.2) = [Sample.id1; Sample.id2; Sample.id3] ∧
  uploads (events_since Sample.fresh r.2) `sublist_of` checks (events_since Sample.fresh r.2) ∧
  uploads_follow_checks (events_since Sample.fresh r.2).
Proof.
  intros r. subst r.
  destruct (Sync_checks_in_listing_order Sample.cfg Cases.env_unordered Sample.fresh
              ∅ Sample.fresh [Sample.B1; Sample.B2; Sample.B3])
    as (_ & H2 & H3 & H4).
  - vm_compute. reflexivity.
  - vm_compute. reflexivity.
  - split; [|split; [exact H2|exact H3]]. rewrite H4; [vm_compute; reflexivity|].
    intros e. vm_compute. discriminate.
Defined.

(** X5. [Sync] never takes a block out of the bucket; a block whose
    upload succeeded is in the bucket after the call; and whatever the
    call added to the bucket was handed to [block.Upload] during it. *)
Theorem Sync_bucket_growth cfg env w :
  let r := Sync cfg env w in
  let evs := events_since w r.2 in
  bucket w ∪ uploaded_ok env evs ⊆ bucket r.2 ∧
  bucket r.2 ⊆ bucket w ∪ list_to_set (uploads evs).
Proof.
  intros r evs.
  assert (Heq : bucket r.2 = bucket w ∪ uploaded_ok env evs).
  { subst r evs.
    destruct (loadShippedBlocks cfg env w) as [sb w1] eqn:Hload.
    destruct (blockMetasFromOldest cfg env) as [metas|e] eqn:Hmetas.
    - by destruct (Sync_calls _ _ _ _ _ _ Hload Hmetas) as (_ & Hb & _).
    - destruct (Sync_listing_fails_aux cfg env w e Hmetas) as (Hb & Hu).
      rewrite Hb. unfold uploaded_ok. rewrite Hu. set_solver. }
  rewrite Heq. split; [done|].
  apply union_mono_l. unfold uploaded_ok.
  intros id Hid. apply elem_of_list_to_set in Hid. apply elem_of_list_to_set.
  by apply list_elem_of_filter in Hid as [_ ?].
Qed.

Lemma reaches_check_partition env B sb metas :
  (length (filter (ships env B sb) metas) + length (filter (fails env B sb) metas)
   = length (filter (reaches_check sb) metas))%nat.
Proof.
  induction metas as [|m metas IH]; [done|].
  destruct (decide (reaches_check sb m)) as [Hr|Hr].
  - rewrite (filter_cons_True (reaches_check sb)) by done. simpl length.
    destruct (decide (ULID m ∈ B ∨ upload_fault env (ULID m) = None)) as [Hs|Hs].
    + rewrite (filter_cons_True (ships env B sb)) by (by split).
      rewrite (filter_cons_False (fails env B sb)).
      * simpl. lia.
      * intros (_ & Hn & Hf). by destruct Hs.
    + rewrite (filter_cons_False (ships env B sb)) by (by intros [_ ?]).
      rewrite (filter_cons_True (fails env B sb)).
      * simpl. lia.
      * split_and!; [done| |]; intros ?; apply Hs; auto.
  - rewrite (filter_cons_False (reaches_check sb)) by done.
    rewrite (filter_cons_False (ships env B sb)) by (by intros [? _]).
    rewrite (filter_cons_False (fails env B sb)) by (by intros [? _]).
    done.
Qed.

(** X6. What [Sync] can return once the local blocks are listed. Call
    [total] the number of listed blocks that were not shipped before, are
    not empty and are of compaction level 1 or less. [Sync] returns either
    [total] and no error; or, when the uploads of [n > 0] of these blocks
    failed, [total - n] and the error "failed to sync n blocks"; or, when
    an existence check failed, 0 and that error wrapped as "check exists",
    whatever was shipped before the check. *)
Theorem Sync_result_shape cfg env w metas :
  blockMetasFromOldest cfg env = Ok metas →
  let sb := (loadShippedBlocks cfg env w).1 in
  let total := Z.of_nat (length (filter (reaches_check sb) metas)) in
  let r := Sync cfg env w in
  r.1 = (total, None) ∨
  (∃ n, 0 < n <= total ∧
        n = Z.of_nat (length (filter (fails env (bucket w) sb) metas)) ∧
        r.1 = (total - n, Some (ErrNew ("failed to sync " +:+ pretty n +:+ " blocks")))) ∨
  (∃ m e, m ∈ metas ∧ reaches_check sb m ∧ exists_fault env (ULID m) = Some e ∧
          r.1 = (0, Some (ErrWrap "check exists" e))).
Proof.
  intros Hmetas sb total r. subst sb total r.
  destruct (loadShippedBlocks cfg env w) as [sb w1] eqn:Hload. simpl.
  destruct (loadShippedBlocks_frame _ _ _ _ _ Hload) as (_ & _ & Hb1 & _).
  destruct (Sync_calls _ _ _ _ _ _ Hload Hmetas) as (_ & _ & Hmatch).
  destruct (sync_loop cfg env sb metas (mkLoopState ∅ 0 0 w1)) as [st|e w2] eqn:Hloop.
  - destruct Hmatch as (Hr & _ & _).
    pose proof (sync_loop_no_fault _ _ _ _ _ _ Hloop) as Hnf.
    destruct (sync_loop_counts cfg env sb metas (mkLoopState ∅ 0 0 w1) Hnf)
      as (st' & Hloop' & Hn & He).
    rewrite Hloop in Hloop'. injection Hloop' as <-. simpl in Hn, He.
    rewrite Hb1 in Hn, He.
    pose proof (reaches_check_partition env (bucket w) sb metas) as Hp.
    rewrite Hr. unfold sync_err.
    destruct (decide (ls_uploadErrs st > 0)) as [Hpos|Hpos].
    + right; left. exists (ls_uploadErrs st). split_and!; [lia|lia|lia|].
      f_equal. lia.
    + left. f_equal. lia.
  - destruct Hmatch as (Hr & _ & pre & m & post & e' & -> & Hrc & Hex & -> & _).
    right; right. exists m, e'. split_and!; try done. set_solver.
Qed.

(** Three blocks to ship, the upload of one fails. *)
Lemma Sync_result_shape_witness :
  (Sync Sample.cfg Sample.env_upload_fails Sample.fresh).1
    = (2, Some (ErrNew "failed to sync 1 blocks")) ∧
  ((Sync Sample.cfg Sample.env_upload_fails Sample.fresh).1 = (3, None) ∨
   (∃ n, 0 < n <= 3 ∧
         n = Z.of_nat (length (filter (fails Sample.env_upload_fails ∅ ∅)
                                 [Sample.B1; Sample.B2; Sample.B3])) ∧
         (Sync Sample.cfg Sample.env_upload_fails Sample.fresh).1
           = (3 - n, Some (ErrNew ("failed to sync " +:+ pretty n +:+ " blocks")))) ∨
   (∃ m e, m ∈ [Sample.B1; Sample.B2; Sample.B3] ∧ reaches_check ∅ m ∧
           exists_fault Sample.env_upload_fails (ULID m) = Some e ∧
           (Sync Sample.cfg Sample.env_upload_fails Sample.fresh).1
             = (0, Some (ErrWrap "check exists" e)))).
Proof.
  split; [vm_compute; reflexivity|].
  apply (Sync_result_shape Sample.cfg Sample.env_upload_fails Sample.fresh
           [Sample.B1; Sample.B2; Sample.B3]).
  vm_compute. reflexivity.
Defined.

(** X7. The record [Sync] hands to [writeShipperMetaFile] has version 1
    and lists exactly the blocks still found in the local directory that
    were shipped before or are counted as shipped by this call (found in
    the bucket, or uploaded with success). A block shipped before that is
    no longer listed is dropped from the record; one that is still listed
    keeps the time it was shipped at, cut to milliseconds. *)
Theorem Sync_record_keys cfg env w sb w1 metas rec :
  loadShippedBlocks cfg env w = (sb, w1) →
  blockMetasFromOldest cfg env = Ok metas →
  rec ∈ writes (events_since w (Sync cfg env w).2) →
  Version rec = shipperMetaVersion1 ∧
  (∀ id, is_Some (Shipped rec !! id) ↔
     ∃ m, m ∈ metas ∧ ULID m = id ∧
          (is_Some (sb !! id) ∨ ships env (bucket w) sb m)) ∧
  (∀ m t, m ∈ metas → sb !! ULID m = Some t →
     Shipped rec !! ULID m = Some (TimeFromUnixNano (UnixNano t))).
Proof.
  intros Hload Hmetas Hrec.
  destruct (loadShippedBlocks_frame _ _ _ _ _ Hload) as (_ & _ & Hb1 & _).
  destruct (Sync_calls _ _ _ _ _ _ Hload Hmetas) as (_ & _ & Hmatch).
  destruct (sync_loop cfg env sb metas (mkLoopState ∅ 0 0 w1)) as [st|e w2] eqn:Hloop.
  2: { destruct Hmatch as (_ & Hw & _). rewrite Hw in Hrec. by apply elem_of_nil in Hrec. }
  destruct Hmatch as (_ & _ & Hw). rewrite Hw in Hrec.
  apply list_elem_of_singleton in Hrec as ->. simpl.
  split_and!; [done| |].
  - intros id. split.
    + intros [v Hv].
      destruct (sync_loop_record_sound _ _ _ _ _ _ _ _ Hloop Hv)
        as [Hold|[(m & t & Hin & Hid & Hsb & _)|(m & k & Hin & Hid & Hs & _)]]; simpl in *.
      * by rewrite lookup_empty in Hold.
      * exists m. split_and!; eauto.
      * exists m. rewrite Hb1 in Hs. split_and!; eauto.
    + intros (m & Hin & <- & [[t Hsb]|Hs]).
      * rewrite (sync_loop_carries _ _ _ _ _ _ _ _ Hloop Hin Hsb). eauto.
      * apply (sync_loop_records _ _ _ _ _ _ _ Hloop Hin). simpl. by rewrite Hb1.
  - intros m t Hin Hsb. apply (sync_loop_carries _ _ _ _ _ _ _ _ Hloop Hin Hsb).
Qed.

(** After a pass in which the upload of the second block failed, the
    record lists the first and the third block. *)
Lemma Sync_record_keys_witness :
  let rec := mkShipperMeta 1
               {[ Sample.id1 := 1700000000000; Sample.id3 := 1700000000001 ]} in
  writes (events_since Sample.fresh
            (Sync Sample.cfg Sample.env_upload_fails Sample.fresh).2) = [rec] ∧
  (∀ id, is_Some (Shipped rec !! id) ↔
     ∃ m, m ∈ [Sample.B1; Sample.B2; Sample.B3] ∧ ULID m = id ∧
          (is_Some ((∅ : gmap N Z) !! id) ∨ ships Sample.env_upload_fails ∅ ∅ m)).
Proof.
  intros rec.
  assert (Hw : writes (events_since Sample.fresh
                 (Sync Sample.cfg Sample.env_upload_fails Sample.fresh).2) = [rec])
    by (vm_compute; reflexivity).
  split; [exact Hw|].
  destruct (Sync_record_keys Sample.cfg Sample.env_upload_fails Sample.fresh
              ∅ Sample.fresh [Sample.B1; Sample.B2; Sample.B3] rec)
    as (_ & H2 & _).
  - vm_compute. reflexivity.
  - vm_compute. reflexivity.
  - rewrite Hw. apply list_elem_of_here.
  - exact H2.
Defined.

(** ** Writing the meta files *)

(** X8. [writeShipperMetaFile] returns no error exactly when no step of
    writing either file fails, and then both files hold the new record
    (the legacy file its block IDs). With an error the current file is
    as before, or removed (the rename failed after the target was
    removed), or already the new one (syncing the directory failed); the
    legacy file is only touched once the current file is the new one.
    The bucket and the clock are left alone. *)
Theorem writeShipperMetaFile_outcomes env meta w :
  let r := writeShipperMetaFile env meta w in
  (r.1 = None ↔ mimir_write_fault env = WNoFault ∧ thanos_write_fault env = WNoFault) ∧
  (r.1 = None →
   mimir_file r.2 = FileJSON meta ∧ thanos_file r.2 = FileJSON (legacy_of meta)) ∧
  (mimir_file r.2 = mimir_file w ∨ mimir_file r.2 = FileMissing ∨
   mimir_file r.2 = FileJSON meta) ∧
  (thanos_file r.2 = thanos_file w ∨
   mimir_file r.2 = FileJSON meta ∧
   (thanos_file r.2 = FileMissing ∨ thanos_file r.2 = FileJSON (legacy_of meta))) ∧
  bucket r.2 = bucket w ∧ ticks r.2 = ticks w ∧
  trace r.2 = trace w ++ [EvWriteMeta meta].
Proof.
  unfold writeShipperMetaFile, writeThanosShipperMetaFile, write_json_file, renameFile,
    legacy_of.
  destruct (mimir_write_fault env) eqn:Hm; simpl;
    [destruct (thanos_write_fault env) eqn:Ht; simpl|..].
  all: split_and!; try done; auto.
  all: try (split; [done | intros [? ?]; done]).
Qed.

(** ** What is uploaded *)

(** X9. Every meta [Sync] hands to [block.Upload] is that of a listed
    block, with the source set to the shipper's and the segment files to
    those found in the block's directory. The external labels are those
    of the block, and the out-of-order label is added exactly when the
    shipper is configured to add it and the block comes from out-of-order
    samples. *)
Theorem Sync_uploads_enriched cfg env w m' :
  EvUpload m' ∈ events_since w (Sync cfg env w).2 →
  ∃ metas m,
    blockMetasFromOldest cfg env = Ok metas ∧ m ∈ metas ∧
    ULID m' = ULID m ∧
    Source (Thanos m') = source cfg ∧
    SegmentFiles (Thanos m') = GetSegmentFiles env (ULID m) ∧
    (addOOOLabel cfg = true → FromOutOfOrder m = true →
     Labels (Thanos m')
       = <[OutOfOrderExternalLabelKey := OutOfOrderExternalLabelValue]> (Labels (Thanos m))) ∧
    (addOOOLabel cfg = false ∨ FromOutOfOrder m = false →
     Labels (Thanos m') = Labels (Thanos m)).
Proof.
  intros Hin.
  assert (Hup : ∀ evs, EvUpload m' ∈ evs → ULID m' ∈ uploads evs).
  { intros evs H. unfold uploads. apply list_elem_of_omap. by exists (EvUpload m'). }
  destruct (loadShippedBlocks cfg env w) as [sb w1] eqn:Hload.
  destruct (blockMetasFromOldest cfg env) as [metas|e] eqn:Hmetas.
  2: { destruct (Sync_listing_fails_aux cfg env w e Hmetas) as (_ & Hu).
       apply Hup in Hin. rewrite Hu in Hin. by apply elem_of_nil in Hin. }
  destruct (Sync_run _ _ _ _ _ _ Hload Hmetas)
    as (evs0 & evsL & Hu0 & _ & _ & HfL & Hcases).
  assert (HinL : EvUpload m' ∈ evsL).
  { destruct Hcases as [(st & evsW & _ & _ & _ & _ & Hev & HuW & _)
                       |(e & w2 & _ & Hs & _ & _ & Hev)].
    - rewrite Hev in Hin. apply elem_of_app in Hin as [Hin|Hin].
      { apply Hup in Hin. rewrite Hu0 in Hin. by apply elem_of_nil in Hin. }
      apply elem_of_app in Hin as [Hin|Hin]; [done|].
      apply Hup in Hin. rewrite HuW in Hin. by apply elem_of_nil in Hin.
    - rewrite Hs in Hin. simpl in Hin. rewrite Hev in Hin.
      apply elem_of_app in Hin as [Hin|Hin]; [|done].
      apply Hup in Hin. rewrite Hu0 in Hin. by apply elem_of_nil in Hin. }
  rewrite Forall_forall in HfL. apply HfL in HinL. simpl in HinL.
  destruct HinL as (m & Hm & -> & _).
  exists metas, m. unfold enrich; simpl. split_and!; try done.
  - by intros -> ->.
  - by intros [-> | ->]; [|rewrite andb_false_r].
Qed.

Lemma Sync_uploads_enriched_witness :
  ∃ m', EvUpload m' ∈ events_since Sample.fresh (Sync Sample.cfg Cases.env_ooo Sample.fresh).2 ∧
        Source (Thanos m') = "ingester" ∧
        SegmentFiles (Thanos m') = ["000001"] ∧
        Labels (Thanos m') = {[ "__out_of_order__" := "true"; "cluster" := "eu-1" ]}.
Proof.
  set (m' := enrich Sample.cfg Cases.env_ooo Cases.B_ooo).
  assert (Hin : EvUpload m' ∈ events_since Sample.fresh
                  (Sync Sample.cfg Cases.env_ooo Sample.fresh).2).
  { assert (Hev : ∃ ev1 ev3, events_since Sample.fresh
                    (Sync Sample.cfg Cases.env_ooo Sample.fresh).2 = [ev1; EvUpload m'; ev3]).
    { eexists _, _. vm_compute. reflexivity. }
    destruct Hev as (ev1 & ev3 & ->). apply list_elem_of_further, list_elem_of_here. }
  exists m'. split; [exact Hin|].
  destruct (Sync_uploads_enriched Sample.cfg Cases.env_ooo Sample.fresh m' Hin)
    as (metas & m & Hmetas & Hm & Hid & Hsrc & Hseg & Hooo & _).
  split; [exact Hsrc|]. split; [vm_compute; reflexivity|]. vm_compute. reflexivity.
Defined.

(** ** Failures of the meta file *)

Lemma stamp_uploaded_faults env mf tf ids acc w :
  stamp_uploaded (with_write_faults mf tf env) ids acc w = stamp_uploaded env ids acc w.
Proof.
  revert acc w. induction ids as [|id ids IH]; intros acc w; simpl; [done|]. apply IH.
Qed.

Lemma loadShippedBlocks_faults cfg env mf tf w :
  loadShippedBlocks cfg (with_write_faults mf tf env) w = loadShippedBlocks cfg env w.
Proof.
  unfold loadShippedBlocks, readShippedBlocks, readThanosShippedBlocks.
  destruct (readShipperMetaFile (dir cfg) w); [done|].
  destruct (readThanosShipperMetaFile (dir cfg) w); [|done].
  by rewrite stamp_uploaded_faults.
Qed.

Lemma sync_loop_faults cfg env mf tf sb metas st :
  sync_loop cfg (with_write_faults mf tf env) sb metas st = sync_loop cfg env sb metas st.
Proof.
  revert st. induction metas as [|m metas IH]; intros st; simpl; [done|].
  change (sync_block cfg (with_write_faults mf tf env) sb m st)
    with (sync_block cfg env sb m st).
  destruct (sync_block cfg env sb m st); [apply IH|done].
Qed.

(** X10. Whether the meta files can be written has no influence on what
    [Sync] returns, on the blocks it checks and uploads, or on the bucket:
    a failure to write them is logged and nothing else. *)
Theorem Sync_ignores_write_faults cfg env mf tf w :
  let r := Sync cfg env w in
  let r' := Sync cfg (with_write_faults mf tf env) w in
  r'.1 = r.1 ∧ bucket r'.2 = bucket r.2 ∧
  checks (events_since w r'.2) = checks (events_since w r.2) ∧
  uploads (events_since w r'.2) = uploads (events_since w r.2) ∧
  writes (events_since w r'.2) = writes (events_since w r.2).
Proof.
  intros r r'. subst r r'.
  destruct (loadShippedBlocks cfg env w) as [sb w1] eqn:Hload.
  assert (Hload' : loadShippedBlocks cfg (with_write_faults mf tf env) w = (sb, w1))
    by (by rewrite loadShippedBlocks_faults).
  destruct (loadShippedBlocks_frame _ _ _ _ _ Hload)
    as (_ & _ & _ & _ & evs0 & He0 & _).
  rewrite (Sync_unfold _ _ _ _ _ Hload), (Sync_unfold _ _ _ _ _ Hload').
  change (blockMetasFromOldest cfg (with_write_faults mf tf env))
    with (blockMetasFromOldest cfg env).
  destruct (blockMetasFromOldest cfg env) as [metas|e]; [|done].
  rewrite sync_loop_faults.
  destruct (sync_loop cfg env sb metas (mkLoopState ∅ 0 0 w1)) as [st|e w2] eqn:Hloop; [|done].
  pose proof (sync_loop_frame cfg env sb metas (mkLoopState ∅ 0 0 w1))
    as (_ & _ & _ & _ & evsL & HeL & _).
  rewrite Hloop in HeL. simpl in HeL.
  set (meta := mkShipperMeta shipperMetaVersion1 (ls_Shipped st)).
  pose proof (updateMetaFile_frame env meta (ls_world st))
    as (Hb & _ & evsW & HeW & HuW & HcW & HwW).
  pose proof (updateMetaFile_frame (with_write_faults mf tf env) meta (ls_world st))
    as (Hb' & _ & evsW' & HeW' & HuW' & HcW' & HwW').
  simpl in *.
  assert (Hev : events_since w (updateMetaFile env meta (ls_world st))
                = evs0 ++ evsL ++ evsW).
  { apply events_since_app. rewrite HeW, HeL, He0. by rewrite <- !app_assoc. }
  assert (Hev' : events_since w (updateMetaFile (with_write_faults mf tf env) meta (ls_world st))
                 = evs0 ++ evsL ++ evsW').
  { apply events_since_app. rewrite HeW', HeL, He0. by rewrite <- !app_assoc. }
  destruct (decide (ls_uploadErrs st > 0)); simpl;
    rewrite Hev, Hev', Hb, Hb', !checks_app, !uploads_app, !writes_app,
      HuW, HuW', HcW, HcW', HwW, HwW'; done.
Qed.

(** X11. [Sync] hands to [block.Upload] only blocks that are listed in the
    local directory, were not in the bucket when the call started, are not
    recorded as shipped in the meta file it read, hold samples and are of
    compaction level 1 or less, and only after the bucket answered the
    existence check for the block without error. *)
Theorem Sync_uploads_only_new cfg env w id :
  id ∈ uploads (events_since w (Sync cfg env w).2) →
  (id ∉ bucket w) ∧
  (loadShippedBlocks cfg env w).1 !! id = None ∧
  exists_fault env id = None ∧
  ∃ metas m, blockMetasFromOldest cfg env = Ok metas ∧ m ∈ metas ∧ ULID m = id ∧
             NumSamples m ≠ 0%N ∧ Level m <= 1.
Proof.
  intros Hin.
  destruct (loadShippedBlocks cfg env w) as [sb w1] eqn:Hload. simpl.
  destruct (blockMetasFromOldest cfg env) as [metas|e] eqn:Hmetas.
  2: { destruct (Sync_listing_fails_aux cfg env w e Hmetas) as (_ & Hu).
       rewrite Hu in Hin. by apply elem_of_nil in Hin. }
  destruct (Sync_run _ _ _ _ _ _ Hload Hmetas)
    as (evs0 & evsL & Hu0 & _ & _ & HfL & Hcases).
  assert (HinL : id ∈ uploads evsL).
  { destruct Hcases as [(st & evsW & _ & _ & _ & _ & Hev & HuW & _)
                       |(e & w2 & _ & Hs & _ & _ & Hev)].
    - rewrite Hev, !uploads_app, Hu0, HuW, app_nil_r in Hin. done.
    - rewrite Hs in Hin. simpl in Hin. rewrite Hev, uploads_app, Hu0 in Hin. done. }
  unfold uploads in HinL. apply list_elem_of_omap in HinL as (ev & Hev & Hid).
  rewrite Forall_forall in HfL. apply HfL in Hev.
  destruct ev as [|m'| | |]; try done. injection Hid as <-. simpl in Hev.
  destruct Hev as (m & Hm & -> & (Hsb & Hns & Hlv) & Hnb & Hex). simpl in *.
  split_and!; try done. exists metas, m. by split_and!.
Qed.

Lemma Sync_uploads_only_new_witness :
  uploads (events_since Sample.world_B1_uploaded
             (Sync Sample.cfg Cases.env_three Sample.world_B1_uploaded).2)
    = [Sample.id2; Sample.id3] ∧
  Sample.id1 ∈ bucket Sample.world_B1_uploaded ∧
  (Sample.id2 ∉ bucket Sample.world_B1_uploaded).
Proof.
  assert (Hu : uploads (events_since Sample.world_B1_uploaded
                 (Sync Sample.cfg Cases.env_three Sample.world_B1_uploaded).2)
               = [Sample.id2; Sample.id3]) by (vm_compute; reflexivity).
  split; [exact Hu|]. split; [apply (bool_decide_unpack _); vm_compute; reflexivity|].
  apply (Sync_uploads_only_new Sample.cfg Cases.env_three Sample.world_B1_uploaded Sample.id2).
  rewrite Hu. apply list_elem_of_here.
Defined.

(** ** The legacy file *)

Lemma writeShipperMetaFile_outcomes_aux env meta w :
  (writeShipperMetaFile env meta w).1 = None →
  thanos_file (writeShipperMetaFile env meta w).2 = FileJSON (legacy_of meta).
Proof.
  unfold writeShipperMetaFile, writeThanosShipperMetaFile, write_json_file, renameFile,
    legacy_of.
  destruct (mimir_write_fault env); simpl; try done.
  destruct (thanos_write_fault env); simpl; done.
Qed.

Lemma stamp_uploaded_ticks env ids acc w :
  ticks (stamp_uploaded env ids acc w).2 = (ticks w + length ids)%nat.
Proof.
  revert acc w. induction ids as [|id ids IH]; intros acc w; simpl; [lia|].
  rewrite IH. simpl. lia.
Qed.

(** X12. The legacy file keeps the shipped blocks readable: after
    [writeShipperMetaFile] returned no error, a reader that finds the
    current file missing, unreadable, malformed or of another version, and
    the legacy file as it was written, gets the blocks of the record, each
    with the time of the reading instead of the time it was shipped at. *)
Theorem legacy_file_keeps_blocks env meta w w' d env' w2 :
  writeShipperMetaFile env meta w = (None, w') →
  thanos_file w2 = thanos_file w' →
  (∀ m, mimir_file w2 = FileJSON m → Version m ≠ shipperMetaVersion1) →
  ∃ sb w3,
    readShippedBlocks d env' w2 = (Ok sb, w3) ∧
    dom sb = dom (Shipped meta) ∧
    (ticks w3 = ticks w2 + size (Shipped meta))%nat ∧
    ∀ id t, sb !! id = Some t → ∃ k, (ticks w2 ≤ k < ticks w3)%nat ∧ t = clock env' k.
Proof.
  intros Hwrite Hth Hmimir.
  pose proof (writeShipperMetaFile_outcomes_aux env meta w) as Hout.
  rewrite Hwrite in Hout. simpl in Hout. specialize (Hout eq_refl).
  assert (Hread : readShippedBlocks d env' w2 = readThanosShippedBlocks d env' w2).
  { unfold readShippedBlocks, readShipperMetaFile.
    destruct (mimir_file w2) as [| | |m] eqn:Hm; try done.
    by rewrite decide_True by (by apply Hmimir). }
  rewrite Hread. unfold readThanosShippedBlocks, readThanosShipperMetaFile.
  rewrite Hth, Hout. unfold legacy_of. simpl.
  destruct (stamp_uploaded env' (map_to_list (Shipped meta)).*1 ∅ w2) as [sb w3] eqn:Hst.
  exists sb, w3. split; [done|].
  pose proof (stamp_uploaded_dom env' (map_to_list (Shipped meta)).*1 ∅ w2) as Hdom.
  pose proof (stamp_uploaded_ticks env' (map_to_list (Shipped meta)).*1 ∅ w2) as Htk.
  rewrite Hst in Hdom, Htk. simpl in Hdom, Htk.
  destruct (map_to_list_keys (Shipped meta)) as (Hkeys & _).
  split_and!.
  - rewrite Hdom, Hkeys. set_solver.
  - rewrite Htk, length_fmap, length_map_to_list. done.
  - intros id t Hid.
    pose proof (stamp_uploaded_values env' (map_to_list (Shipped meta)).*1 ∅ w2 id t) as Hv.
    rewrite Hst in Hv. simpl in Hv. destruct (Hv Hid) as [Hempty|Hk]; [|done].
    by rewrite lookup_empty in Hempty.
Qed.

Lemma legacy_file_keeps_blocks_witness :
  ∃ sb w3,
    readShippedBlocks "/data/tenant-1" Cases.env_three
      (set_mimir_file FileMissing
         (writeShipperMetaFile Cases.env_three Cases.rec_three Sample.fresh).2)
      = (Ok sb, w3) ∧
    dom sb = {[ Sample.id1; Sample.id2; Sample.id3 ]}.
Proof.
  destruct (legacy_file_keeps_blocks Cases.env_three Cases.rec_three Sample.fresh
              (writeShipperMetaFile Cases.env_three Cases.rec_three Sample.fresh).2
              "/data/tenant-1" Cases.env_three
              (set_mimir_file FileMissing
                 (writeShipperMetaFile Cases.env_three Cases.rec_three Sample.fresh).2))
    as (sb & w3 & Hread & Hdom & _).
  - vm_compute. reflexivity.
  - reflexivity.
  - intros m Hm. vm_compute in Hm. discriminate Hm.
  - exists sb, w3. split; [exact Hread|]. rewrite Hdom.
    apply (bool_decide_unpack _). vm_compute. reflexivity.
Defined.

End ShipperMore.

(** * Further properties of the tenant TSDB *)

Module IngesterMore.
Import Ingester Lifecycle IngesterFacts.

Section More.
Context {DB : Type} `{!TSDB DB}.

(** ** Appends and forced compaction *)

(** X13. A forced compaction asked for while appends are in flight takes
    the state to [forceCompacting] and waits: nothing is compacted. While
    it waits a new append is refused with "forced compaction in progress"
    and an append in flight can still be released. *)
Theorem compactHead_waits_for_pushes (u : userTSDB DB) d fuel blockDuration :
  u_store u = OnDisk d → u_state u = active → u_pushesInFlight u ≠ 0 →
  let waiting := set_state forceCompacting u in
  compactHead fuel blockDuration u = Some (Blocked, waiting, []) ∧
  acquireAppendLock waiting
    = (Some (ErrNew "forced compaction in progress"), waiting) ∧
  (0 < u_pushesInFlight u →
   releaseAppendLock waiting
     = (Returned None, set_pushesInFlight (u_pushesInFlight u - 1) waiting)).
Proof.
  intros Hs Ha Hp waiting. subst waiting.
  unfold compactHead, casState. rewrite Hs.
  rewrite decide_False by (intros H; by apply H).
  simpl. rewrite decide_True by done.
  split_and!; [done|done|].
  intros Hpos. unfold releaseAppendLock. simpl.
  by rewrite decide_False by lia.
Qed.

(** X14. An append permit that was granted can be given back, and this
    leaves the tenant as it was before the permit; giving back a permit
    when none is out panics. *)
Theorem append_lock_round_trip (u : userTSDB DB) :
  0 <= u_pushesInFlight u < 2 ^ 31 - 1 →
  (∀ u1, acquireAppendLock u = (None, u1) → releaseAppendLock u1 = (Returned None, u)) ∧
  (u_pushesInFlight u = 0 →
   releaseAppendLock u = (Panicked "sync: negative WaitGroup counter", u)).
Proof.
  intros Hpos. split.
  - intros u1. unfold acquireAppendLock.
    destruct (u_state u); intros [= <-]; unfold releaseAppendLock; simpl;
      (rewrite decide_False by lia); destruct u; unfold set_pushesInFlight; simpl;
      do 2 f_equal; lia.
  - intros H0. unfold releaseAppendLock. by rewrite decide_True by lia.
Qed.

(** X15. However a forced compaction ends, if it returns or panics the
    tenant is in the state it was in before, with the same appends in
    flight, last update, deletion mark and cached shipped blocks; when no
    range was compacted the tenant is left exactly as it was. *)
Theorem compactHead_restores_state (u : userTSDB DB) fuel blockDuration out u' calls :
  compactHead fuel blockDuration u = Some (out, u', calls) →
  out ≠ Blocked →
  u_state u' = u_state u ∧
  u_pushesInFlight u' = u_pushesInFlight u ∧
  u_lastUpdate u' = u_lastUpdate u ∧
  u_deletionMarkFound u' = u_deletionMarkFound u ∧
  u_shippedBlocks u' = u_shippedBlocks u ∧
  (calls = [] → u' = u).
Proof.
  unfold compactHead, casState.
  destruct (u_store u) as [d|h] eqn:Hs; [|by intros [= <- <- <-]].
  destruct (decide (u_state u ≠ active)) as [Hna|Ha]; [by intros [= <- <- <-]|].
  assert (Hact : u_state u = active) by (by destruct (decide (u_state u = active))).
  simpl. destruct (decide (u_pushesInFlight u ≠ 0)); [by intros [= <- <- <-]|].
  destruct (decide (blockDuration = 0)).
  { intros [= <- <- <-] _. simpl.
    split_and!; try done. intros _. destruct u; simpl in *. by subst. }
  destruct (compactHead_loop fuel blockDuration d (HeadMinTime_db d) (HeadMaxTime_db d) [])
    as [[[err d'] cs]|] eqn:Hloop; [|done].
  intros [= <- <- <-] _. simpl.
  split_and!; try done. intros ->.
  destruct (compactHead_loop_sound _ _ _ _ _ _ _ Hloop) as (cs & Hcs & Hw).
  apply windows_nonempty in Hw. simpl in Hcs. by subst.
Qed.

(** ** The oldest block not shipped *)

Lemma oldest_unshipped_min (sb : gmap N Z) blocks acc :
  (∀ b, b ∈ blocks → sb !! b = None → ULID_Time b ≠ 0%N) →
  let r := oldest_unshipped sb blocks acc in
  (∀ b, b ∈ blocks → sb !! b = None → r ≠ 0%N ∧ (r ≤ ULID_Time b)%N) ∧
  (acc ≠ 0%N → r ≠ 0%N ∧ (r ≤ acc)%N) ∧
  (r = acc ∨ ∃ b, b ∈ blocks ∧ sb !! b = None ∧ r = ULID_Time b).
Proof.
  revert acc. induction blocks as [|b blocks IH]; intros acc Hnz; simpl.
  { split_and!; [intros b Hb; by apply elem_of_nil in Hb | done | by left]. }
  assert (Hnz' : ∀ b', b' ∈ blocks → sb !! b' = None → ULID_Time b' ≠ 0%N).
  { intros b' Hb'. apply Hnz. set_solver. }
  destruct (sb !! b) as [t|] eqn:Hb.
  - destruct (IH acc Hnz') as (H1 & H2 & H3). split_and!; [|done|].
    + intros b' Hin Hb'. apply elem_of_cons in Hin as [->|Hin]; [congruence|]. by apply H1.
    + destruct H3 as [?|(b' & ? & ? & ?)]; [by left|right]. exists b'. set_solver.
  - assert (Hbnz : ULID_Time b ≠ 0%N) by (apply Hnz; [set_solver|done]).
    destruct (decide (acc = 0 ∨ ULID_Time b < acc)%N) as [Hd|Hd].
    + destruct (IH (ULID_Time b) Hnz') as (H1 & H2 & H3).
      destruct (H2 Hbnz) as (Hr1 & Hr2). split_and!.
      * intros b' Hin Hb'. apply elem_of_cons in Hin as [->|Hin]; [done|]. by apply H1.
      * intros Hacc. split; [done|]. lia.
      * right. destruct H3 as [?|(b' & ? & ? & ?)]; [exists b|exists b']; set_solver.
    + assert (Hacc : acc ≠ 0%N ∧ (acc ≤ ULID_Time b)%N) by lia.
      destruct (IH acc Hnz') as (H1 & H2 & H3).
      destruct (H2 (proj1 Hacc)) as (Hr1 & Hr2). split_and!; [|done|].
      * intros b' Hin Hb'. apply elem_of_cons in Hin as [->|Hin]; [|by apply H1].
        split; [done|]. lia.
      * destruct H3 as [?|(b' & ? & ? & ?)]; [by left|right]. exists b'. set_solver.
Qed.

(** X16. For a tenant with a TSDB on disk whose blocks carry ULIDs with a
    timestamp other than 0, [getOldestUnshippedBlockTime] is 0 exactly
    when every block is among the cached shipped blocks; otherwise it is
    the ULID timestamp of a block that is not, and no such block has an
    earlier one. *)
Theorem getOldestUnshippedBlockTime_is_oldest (u : userTSDB DB) d :
  u_store u = OnDisk d →
  (∀ b, b ∈ Blocks u → u_shippedBlocks u !! b = None → ULID_Time b ≠ 0%N) →
  let t := getOldestUnshippedBlockTime u in
  (t = 0%N ↔ ∀ b, b ∈ Blocks u → is_Some (u_shippedBlocks u !! b)) ∧
  (∀ b, b ∈ Blocks u → u_shippedBlocks u !! b = None → (t ≤ ULID_Time b)%N) ∧
  (t ≠ 0%N → ∃ b, b ∈ Blocks u ∧ u_shippedBlocks u !! b = None ∧ t = ULID_Time b).
Proof.
  intros Hs Hnz t. subst t.
  unfold getOldestUnshippedBlockTime, getCachedShippedBlocks. rewrite Hs.
  destruct (oldest_unshipped_min (u_shippedBlocks u) (Blocks u) 0%N Hnz) as (H1 & _ & H3).
  simpl in *. split_and!.
  - split.
    + intros H0 b Hb. destruct (u_shippedBlocks u !! b) eqn:Hsb; [eauto|].
      destruct (H1 b Hb Hsb) as [Hne _]. done.
    + intros Hall. destruct H3 as [?|(b & Hb & Hsb & _)]; [done|].
      destruct (Hall b Hb) as [? ?]. congruence.
  - intros b Hb Hsb. by apply H1.
  - intros Hne. destruct H3 as [?|?]; done.
Qed.

End More.

Lemma getOldestUnshippedBlockTime_is_oldest_witness :
  getOldestUnshippedBlockTime Cases.tenant_one_shipped = 1700000007200%N ∧
  (∀ b, b ∈ Blocks Cases.tenant_one_shipped →
        u_shippedBlocks Cases.tenant_one_shipped !! b = None →
        (getOldestUnshippedBlockTime Cases.tenant_one_shipped ≤ ULID_Time b)%N).
Proof.
  split; [vm_compute; reflexivity|].
  refine (proj1 (proj2 (getOldestUnshippedBlockTime_is_oldest Cases.tenant_one_shipped _ _ _))).
  - reflexivity.
  - intros b Hb _.
    assert (Hl : Blocks Cases.tenant_one_shipped = [Sample.id3; Sample.id1; Sample.id2])
      by reflexivity.
    rewrite Hl in Hb.
    repeat (apply elem_of_cons in Hb as [->|Hb]; [vm_compute; discriminate|]).
    by apply elem_of_nil in Hb.
Defined.

Section Idle.
Context {DB : Type} `{!TSDB DB}.

(** ** Idleness *)

(** X17. The last update is kept in whole seconds. After
    [setLastUpdate t] the tenant is idle at every instant later than
    [t + idle]; it can be found idle up to one second before that, not
    earlier. So for a timeout of one second or more it is not idle at [t]
    itself, and [shouldCloseTSDB] then answers [tsdbNotIdle] unless the
    tenant is marked for deletion. *)
Theorem idle_after_update (t now idle : Z) (u : userTSDB DB) :
  let u' := setLastUpdate t u in
  (t + idle < now → isIdle now idle u' = true) ∧
  (isIdle now idle u' = true → t - 1000000000 + idle < now) ∧
  (1000000000 <= idle → isIdle t idle u' = false) ∧
  (1000000000 <= idle → u_deletionMarkFound u = false →
   shouldCloseTSDB t idle u' = tsdbNotIdle).
Proof.
  intros u'. subst u'.
  pose proof (Z.mod_pos_bound t 1000000000 ltac:(lia)) as Hm.
  pose proof (Z.div_mod t 1000000000 ltac:(lia)) as Hd.
  assert (Hi : ∀ n, isIdle n idle (setLastUpdate t u)
                    = bool_decide (t `div` 1000000000 * 1000000000 + idle < n)) by done.
  split_and!.
  - intros Hlt. rewrite Hi. apply bool_decide_eq_true. lia.
  - rewrite Hi. intros H%bool_decide_eq_true. lia.
  - intros Hidle. rewrite Hi. apply bool_decide_eq_false. lia.
  - intros Hidle Hmark. unfold shouldCloseTSDB. simpl. rewrite Hmark.
    rewrite Hi. rewrite bool_decide_eq_false_2 by lia. done.
Qed.


End Idle.
Section Retention.
Context {DB : Type} `{!TSDB DB}.

(** ** Blocks that may be deleted *)

Lemma readShippedBlocks_ids d env w sb w' :
  Shipper.readShippedBlocks d env w = (Ok sb, w') →
  dom sb ⊆ Run.mimir_ids (Shipper.mimir_file w) ∪ Run.thanos_ids (Shipper.thanos_file w).
Proof.
  intros Hr.
  apply (ShipperFacts.loadShippedBlocks_ids (Shipper.mkConfig d EmptyString false) env w sb w').
  unfold Shipper.loadShippedBlocks. simpl. by rewrite Hr.
Qed.

(** X19. With a shipper, [blocksToDelete] returns the blocks that the
    TSDB's own retention would delete and that are among the cached
    shipped blocks: a block that is not known to be shipped is never
    deleted. Without a shipper the TSDB's retention decides alone, and a
    tenant without a TSDB on disk has nothing to delete. After the cache
    is refreshed with success the blocks returned are listed in one of the
    shipper's meta files; after a failed refresh the answer is the one
    from before. *)
Theorem blocksToDelete_only_shipped (Default : DB → list N → gset N)
    (blocks : list N) (u : userTSDB DB) :
  (∀ id, id ∈ blocksToDelete Default true blocks u ↔
     ∃ d, u_store u = OnDisk d ∧ id ∈ Default d blocks ∧
          is_Some (u_shippedBlocks u !! id)) ∧
  (∀ id, id ∈ blocksToDelete Default false blocks u ↔
     ∃ d, u_store u = OnDisk d ∧ id ∈ Default d blocks) ∧
  (∀ env w u' w' id,
     updateCachedShippedBlocks env u w = (None, u', w') →
     id ∈ blocksToDelete Default true blocks u' →
     id ∈ Run.mimir_ids (Shipper.mimir_file w) ∪ Run.thanos_ids (Shipper.thanos_file w)) ∧
  (∀ env w e u' w',
     updateCachedShippedBlocks env u w = (Some e, u', w') →
     blocksToDelete Default true blocks u' = blocksToDelete Default true blocks u).
Proof.
  unfold blocksToDelete, updateCachedShippedBlocks, getCachedShippedBlocks.
  destruct (u_store u) as [d|h] eqn:Hs; simpl.
  - split_and!.
    + intros id. rewrite elem_of_filter, elem_of_dom. split.
      * intros [? ?]. by exists d.
      * intros (d' & [= <-] & ? & ?). done.
    + intros id. split; [by exists d|]. by intros (d' & [= <-] & ?).
    + intros env w u' w' id.
      destruct (Shipper.readShippedBlocks (Dir d) env w) as [[sb|e] w1] eqn:Hr; [|done].
      intros [= <- <-]. simpl. rewrite Hs.
      rewrite elem_of_filter, elem_of_dom. intros [_ Hin].
      apply (readShippedBlocks_ids _ _ _ _ _ Hr). by apply elem_of_dom.
    + intros env w e u' w'.
      destruct (Shipper.readShippedBlocks (Dir d) env w) as [[sb|e'] w1] eqn:Hr; [done|].
      intros [= <- <- <-]. by rewrite Hs.
  - split_and!.
    + intros id. split; [set_solver|]. by intros (d & ? & _).
    + intros id. split; [set_solver|]. by intros (d & ? & _).
    + intros env w u' w' id [= <- <-]. rewrite Hs. set_solver.
    + done.
Qed.

(** X20. After a [Sync] that wrote the current meta file, refreshing the
    cache of a tenant whose TSDB lives in the shipper's directory
    succeeds and makes the cached shipped blocks the blocks of the record
    [Sync] wrote: these are the blocks that may then be deleted, and when
    they cover the blocks of the TSDB nothing is left to ship. *)
Theorem Sync_then_cache cfg env env' w (u : userTSDB DB) db rec :
  Shipper.mimir_write_fault env = Shipper.WNoFault →
  u_store u = OnDisk db → Dir db = Shipper.dir cfg →
  let r := Shipper.Sync cfg env w in
  rec ∈ Run.writes (Run.events_since w r.2) →
  let u' := set_shippedBlocks (model_Time_Time <$> Shipper.Shipped rec) u in
  updateCachedShippedBlocks env' u r.2 = (None, u', r.2) ∧
  (∀ id, is_Some (getCachedShippedBlocks u' !! id) ↔ is_Some (Shipper.Shipped rec !! id)) ∧
  (∀ Default blocks id,
     id ∈ blocksToDelete Default true blocks u' ↔
     id ∈ Default db blocks ∧ is_Some (Shipper.Shipped rec !! id)) ∧
  ((∀ b, b ∈ Blocks u → is_Some (Shipper.Shipped rec !! b)) →
   getOldestUnshippedBlockTime u' = 0%N).
Proof.
  intros Hfault Hs Hdir r Hrec u'.
  assert (Hfile : Shipper.mimir_file r.2 = Shipper.FileJSON rec ∧
                  Shipper.Version rec = Shipper.shipperMetaVersion1).
  { subst r.
    destruct (Shipper.loadShippedBlocks cfg env w) as [sb w1] eqn:Hload.
    destruct (Shipper.blockMetasFromOldest cfg env) as [metas|e] eqn:Hmetas.
    2: { rewrite (ShipperFacts.Sync_unfold _ _ _ _ _ Hload), Hmetas in Hrec. simpl in Hrec.
         destruct (ShipperFacts.loadShippedBlocks_frame _ _ _ _ _ Hload)
           as (_ & _ & _ & _ & evs0 & He0 & _ & _ & Hw0).
         rewrite (ShipperFacts.events_since_app _ _ _ He0), Hw0 in Hrec.
         by apply elem_of_nil in Hrec. }
    destruct (ShipperFacts.Sync_run _ _ _ _ _ _ Hload Hmetas)
      as (evs0 & evsL & _ & _ & Hw0 & HfL & Hcases).
    apply ShipperFacts.loop_writes in HfL.
    destruct Hcases as [(st & evsW & _ & Hsync & _ & _ & Hev & _ & _ & HwW)
                       |(e & w2 & _ & Hsync & _ & _ & Hev)].
    - rewrite Hev, !ShipperFacts.writes_app, Hw0, HfL, HwW in Hrec. simpl in Hrec.
      apply list_elem_of_singleton in Hrec as ->.
      rewrite Hsync. simpl. split; [|done].
      by apply ShipperFacts.updateMetaFile_mimir.
    - rewrite Hsync in Hrec. simpl in Hrec.
      rewrite Hev, !ShipperFacts.writes_app, Hw0, HfL in Hrec.
      by apply elem_of_nil in Hrec. }
  destruct Hfile as (Hfile & Hver).
  assert (Hread : Shipper.readShippedBlocks (Dir db) env' r.2
                  = (Ok (model_Time_Time <$> Shipper.Shipped rec), r.2)).
  { unfold Shipper.readShippedBlocks, Shipper.readShipperMetaFile. rewrite Hfile.
    by rewrite decide_False by (by intros H; apply H). }
  assert (Hkeys : ∀ id, is_Some (getCachedShippedBlocks u' !! id)
                        ↔ is_Some (Shipper.Shipped rec !! id)).
  { intros id. unfold getCachedShippedBlocks, u'. simpl. rewrite Hs. simpl.
    rewrite lookup_fmap. apply fmap_is_Some. }
  split_and!.
  - unfold updateCachedShippedBlocks. rewrite Hs, Hread. done.
  - done.
  - intros Default blocks id. unfold blocksToDelete. simpl. rewrite Hs. simpl.
    rewrite elem_of_filter, elem_of_dom. rewrite Hkeys. tauto.
  - intros Hall. unfold getOldestUnshippedBlockTime. simpl. rewrite Hs.
    apply oldest_unshipped_zero.
    + intros b Hb Hn. exfalso.
      assert (Hb' : b ∈ Blocks u) by done.
      apply Hall, Hkeys in Hb'. rewrite Hn in Hb'. by destruct Hb'.
    + split; [done|]. intros b Hb. apply Hkeys, Hall. done.
Qed.

End Retention.
Section Accounting.
Context {DB : Type} `{!TSDB DB} {L Lim C : Type} `{!Series L Lim C}.

(** ** Series accounting *)

Lemma wrap64_add_l a b : wrap64 (wrap64 a + b) = wrap64 (a + b).
Proof.
  unfold wrap64. f_equal.
  replace ((a + 2 ^ 63) `mod` 2 ^ 64 - 2 ^ 63 + b + 2 ^ 63)
    with ((a + 2 ^ 63) `mod` 2 ^ 64 + b) by lia.
  rewrite Zplus_mod_idemp_l. f_equal. lia.
Qed.

Lemma PostCreation_count metric (a : accounting Lim C) :
  instanceSeriesCount (PostCreation metric a) = wrap64 (instanceSeriesCount a + 1) ∧
  limiter (PostCreation metric a) = limiter a ∧
  instanceLimitsFn (PostCreation metric a) = instanceLimitsFn a.
Proof. unfold PostCreation. by destruct (MetricNameFromLabels metric). Qed.

Lemma PostCreation_all_count metrics (a : accounting Lim C) :
  in_int64 (instanceSeriesCount a) →
  let a' := foldl (λ a metric, PostCreation metric a) a metrics in
  instanceSeriesCount a' = wrap64 (instanceSeriesCount a + Z.of_nat (length metrics)) ∧
  limiter a' = limiter a ∧ instanceLimitsFn a' = instanceLimitsFn a.
Proof.
  revert a. induction metrics as [|m metrics IH]; intros a Hin; simpl.
  { split_and!; try done. rewrite Z.add_0_r. symmetry. by apply wrap64_small. }
  destruct (PostCreation_count m a) as (Hc1 & Hl1 & Hi1).
  destruct (IH (PostCreation m a)) as (Hc & Hl & Hi).
  { rewrite Hc1. apply wrap64_range. }
  split_and!; [|congruence|congruence].
  rewrite Hc, Hc1, wrap64_add_l. f_equal. lia.
Qed.

(** X21. Without a limiter [PreCreation] accepts every series, also one
    without a metric name. With a limiter, a series that [PreCreation]
    accepts has a metric name and passed the per-tenant and the per-metric
    check, the ingester's series count is below its limit when one is set
    (a limit of zero or less is none), and [PostCreation] then counts the
    series for the ingester and for its metric. When the ingester's limit
    is reached the series is refused with [errMaxInMemorySeriesReached]
    whatever the other checks would say. A series without a metric name is
    counted by [PostCreation] for the ingester only. *)
Theorem series_admission (errMax : error) (u : userTSDB DB)
    (a : accounting Lim C) (metric : L) :
  (limiter a = None → PreCreation errMax u a metric = None) ∧
  (∀ lim, limiter a = Some lim → PreCreation errMax u a metric = None →
     ∃ metricName,
       MetricNameFromLabels metric = Ok metricName ∧
       AssertMaxSeriesPerUser lim (wrap64 (Z.of_N (HeadNumSeries u))) = None ∧
       canAddSeriesFor (seriesInMetric a) metricName = None ∧
       (∀ gl, instanceLimitsFn a = Some gl → MaxInMemorySeries gl > 0 →
              instanceSeriesCount a < MaxInMemorySeries gl) ∧
       PostCreation metric a =
         mkAccounting (limiter a) (instanceLimitsFn a)
           (wrap64 (instanceSeriesCount a + 1))
           (increaseSeriesForMetric (seriesInMetric a) metricName)) ∧
  (∀ lim gl, limiter a = Some lim → instanceLimitsFn a = Some gl →
     MaxInMemorySeries gl > 0 → instanceSeriesCount a >= MaxInMemorySeries gl →
     PreCreation errMax u a metric = Some errMax) ∧
  (∀ gl, instanceLimitsFn a = Some gl → MaxInMemorySeries gl <= 0 →
     PreCreation errMax u a metric =
     PreCreation errMax u
       (mkAccounting (limiter a) None (instanceSeriesCount a) (seriesInMetric a)) metric) ∧
  (∀ e, MetricNameFromLabels metric = Err e →
     PostCreation metric a =
       mkAccounting (limiter a) (instanceLimitsFn a)
         (wrap64 (instanceSeriesCount a + 1)) (seriesInMetric a)).
Proof.
  assert (Hpost : ∀ name, MetricNameFromLabels metric = Ok name →
            PostCreation metric a =
              mkAccounting (limiter a) (instanceLimitsFn a)
                (wrap64 (instanceSeriesCount a + 1))
                (increaseSeriesForMetric (seriesInMetric a) name)).
  { intros name Hn. unfold PostCreation. by rewrite Hn. }
  split_and!.
  - unfold PreCreation. by intros ->.
  - intros lim Hlim Hpre. unfold PreCreation in Hpre. rewrite Hlim in Hpre.
    destruct (MetricNameFromLabels metric) as [name|e] eqn:Hn.
    2: { destruct (match instanceLimitsFn a with Some _ => _ | None => _ end); [done|].
         by destruct (AssertMaxSeriesPerUser lim _). }
    exists name.
    destruct (instanceLimitsFn a) as [gl|] eqn:Hgl.
    + destruct (bool_decide (MaxInMemorySeries gl > 0) &&
                bool_decide (instanceSeriesCount a >= MaxInMemorySeries gl)) eqn:Hr; [done|].
      destruct (AssertMaxSeriesPerUser lim _) eqn:Ha; [done|].
      split_and!; try done; [|by rewrite (Hpost name eq_refl), ?Hgl, ?Hlim].
      intros gl' [= <-] Hpos.
      apply andb_false_iff in Hr as [Hr|Hr]; apply bool_decide_eq_false in Hr; lia.
    + destruct (AssertMaxSeriesPerUser lim _) eqn:Ha; [done|].
      split_and!; try done. by rewrite (Hpost name eq_refl), ?Hgl, ?Hlim.
  - intros lim gl Hlim Hgl Hpos Hge. unfold PreCreation. rewrite Hlim, Hgl.
    by rewrite !bool_decide_eq_true_2 by done.
  - intros gl Hgl Hle. unfold PreCreation. simpl. rewrite Hgl.
    by rewrite bool_decide_eq_false_2 by lia.
  - intros e He. unfold PostCreation. by rewrite He.
Qed.

(** X22. The ingester's count of series is back where it was once the
    series that were created have all been deleted, whether or not they
    have a metric name; the limits are not touched. *)
Theorem created_then_deleted (metrics : list L) (a : accounting Lim C) :
  in_int64 (instanceSeriesCount a) →
  let created := foldl (λ a metric, PostCreation metric a) a metrics in
  let deleted := PostDeletion metrics created in
  instanceSeriesCount created
    = wrap64 (instanceSeriesCount a + Z.of_nat (length metrics)) ∧
  instanceSeriesCount deleted = instanceSeriesCount a ∧
  limiter deleted = limiter a ∧ instanceLimitsFn deleted = instanceLimitsFn a.
Proof.
  intros Hin created deleted. subst created deleted.
  destruct (PostCreation_all_count metrics a Hin) as (Hc & Hl & Hi). simpl in *.
  split_and!; [done| |done|done].
  unfold PostDeletion. simpl. rewrite Hc.
  replace (wrap64 (instanceSeriesCount a + Z.of_nat (length metrics))
           - Z.of_nat (length metrics))
    with (wrap64 (instanceSeriesCount a + Z.of_nat (length metrics))
          + - Z.of_nat (length metrics)) by lia.
  rewrite wrap64_add_l.
  replace (instanceSeriesCount a + Z.of_nat (length metrics) + - Z.of_nat (length metrics))
    with (instanceSeriesCount a) by lia.
  by apply wrap64_small.
Qed.

End Accounting.

(** ** Times before the epoch *)

Section Zero.
Context {DB : Type} `{!TSDB DB}.

Lemma align_quot t bd :
  0 < bd → in_int64 bd → in_int64 t → align t bd = (t `quot` bd) * bd.
Proof.
  unfold in_int64. intros Hbd Hb Ht. unfold align, int64_mul, int64_div.
  pose proof (Z.quot_rem' t bd) as Hqr.
  pose proof (Z.rem_bound_abs t bd ltac:(lia)) as Hr.
  assert (Hq : (0 <= t `quot` bd * bd <= t ∧ 0 <= t `quot` bd <= t) ∨
               (t <= t `quot` bd * bd <= 0 ∧ t <= t `quot` bd <= 0)).
  { destruct (decide (0 <= t)).
    - left. pose proof (Z.rem_nonneg t bd ltac:(lia) ltac:(lia)).
      generalize dependent (Z.rem t bd). generalize (t `quot` bd). intros q r ? ? ?.
      assert (0 <= q) by nia. nia.
    - right. pose proof (Z.rem_nonpos t bd ltac:(lia) ltac:(lia)).
      generalize dependent (Z.rem t bd). generalize (t `quot` bd). intros q r ? ? ?.
      assert (q <= 0) by nia. nia. }
  rewrite (wrap64_small (t `quot` bd)) by (unfold in_int64; lia).
  apply wrap64_small. unfold in_int64. lia.
Qed.

(** X23. The alignment of a time to the block duration truncates towards
    zero, as Go's division does: times before the epoch are aligned
    upwards. The two windows on either side of time zero therefore count
    as one, and a head whose samples all lie strictly between
    [-blockDuration] and [blockDuration] is compacted in a single range,
    however long. *)
Theorem compactHead_around_zero (u : userTSDB DB) d fuel blockDuration :
  u_store u = OnDisk d → u_state u = active → u_pushesInFlight u = 0 →
  0 < blockDuration → in_int64 blockDuration →
  - blockDuration < HeadMinTime_db d < blockDuration →
  - blockDuration < HeadMaxTime_db d < blockDuration →
  align (HeadMinTime_db d) blockDuration = 0 ∧
  align (HeadMaxTime_db d) blockDuration = 0 ∧
  compactHead fuel blockDuration u =
    Some (Returned (CompactHead d (HeadMinTime_db d) (HeadMaxTime_db d)).2,
          set_store (OnDisk (CompactHead d (HeadMinTime_db d) (HeadMaxTime_db d)).1) u,
          [(HeadMinTime_db d, HeadMaxTime_db d)]).
Proof.
  intros Hs Ha Hp Hbd Hin Hmin Hmax.
  assert (Hz : ∀ t, - blockDuration < t < blockDuration → align t blockDuration = 0).
  { intros t Ht. rewrite align_quot by (unfold in_int64 in *; lia).
    destruct (decide (0 <= t)).
    - rewrite Z.quot_small by lia. done.
    - replace t with (- (- t)) by lia. rewrite Z.quot_opp_l by lia.
      rewrite Z.quot_small by lia. done. }
  split_and!; [by apply Hz|by apply Hz|].
  unfold compactHead, casState. rewrite Hs.
  rewrite decide_False by (intros H; by apply H). simpl.
  rewrite decide_False by (intros H; by apply H).
  rewrite decide_False by lia.
  assert (Hloop : compactHead_loop fuel blockDuration d (HeadMinTime_db d) (HeadMaxTime_db d) []
            = Some ((CompactHead d (HeadMinTime_db d) (HeadMaxTime_db d)).2,
                    (CompactHead d (HeadMinTime_db d) (HeadMaxTime_db d)).1,
                    [(HeadMinTime_db d, HeadMaxTime_db d)])).
  { destruct fuel; simpl; rewrite !Hz by done;
      (rewrite decide_False by (intros H; by apply H));
      by destruct (CompactHead d (HeadMinTime_db d) (HeadMaxTime_db d)). }
  rewrite Hloop. simpl. do 2 f_equal.
  destruct u; simpl in *. by subst.
Qed.

End Zero.

(** ** On the sample tenants *)

Lemma compactHead_waits_for_pushes_witness :
  compactHead 2 Sample.two_hours (Sample.tenant (OnDisk Sample.db_three_windows) active 1)
    = Some (Blocked, Sample.tenant (OnDisk Sample.db_three_windows) forceCompacting 1, []) ∧
  releaseAppendLock (Sample.tenant (OnDisk Sample.db_three_windows) forceCompacting 1)
    = (Returned None, Sample.tenant (OnDisk Sample.db_three_windows) forceCompacting 0).
Proof.
  destruct (compactHead_waits_for_pushes
              (Sample.tenant (OnDisk Sample.db_three_windows) active 1)
              Sample.db_three_windows 2 Sample.two_hours) as (H1 & _ & H3).
  - reflexivity.
  - reflexivity.
  - discriminate.
  - split; [exact H1|]. apply H3. reflexivity.
Defined.

Lemma compactHead_restores_state_witness :
  ∃ u', compactHead 2 Sample.two_hours (Sample.tenant (OnDisk Sample.db_three_windows) active 0)
        = Some (Returned None, u',
                [(100, 7199999); (7200500, 14399999); (14400100, 14400100)]) ∧
        u_state u' = active ∧ u_pushesInFlight u' = 0.
Proof.
  eexists. split; [vm_compute; reflexivity|].
  match goal with |- u_state ?x = _ ∧ _ =>
    destruct (compactHead_restores_state
                (Sample.tenant (OnDisk Sample.db_three_windows) active 0)
                2 Sample.two_hours (Returned None) x
                [(100, 7199999); (7200500, 14399999); (14400100, 14400100)])
      as (H1 & H2 & _)
  end.
  - vm_compute. reflexivity.
  - discriminate.
  - split; [exact H1 | exact H2].
Defined.

Lemma append_lock_round_trip_witness :
  releaseAppendLock (Sample.tenant (OnDisk Sample.db_three_windows) active 1)
    = (Returned None, Sample.tenant (OnDisk Sample.db_three_windows) active 0) ∧
  releaseAppendLock (Sample.tenant (OnDisk Sample.db_three_windows) active 0)
    = (Panicked "sync: negative WaitGroup counter",
       Sample.tenant (OnDisk Sample.db_three_windows) active 0).
Proof.
  destruct (append_lock_round_trip
              (Sample.tenant (OnDisk Sample.db_three_windows) active 0)) as (H1 & H2).
  - simpl. lia.
  - split; [|apply H2; reflexivity].
    apply (H1 (Sample.tenant (OnDisk Sample.db_three_windows) active 1)). reflexivity.
Defined.


(** Of the three blocks the retention would delete the two older ones;
    only the one that is shipped may go. *)
Lemma blocksToDelete_only_shipped_witness :
  Sample.id1 ∈ blocksToDelete Cases.keep_newest true [Sample.id3; Sample.id1; Sample.id2]
                 Cases.tenant_one_shipped ∧
  Sample.id2 ∈ Cases.keep_newest
                 (Sample.mkSampleDB "/data/tenant-1" [] 0 [Sample.id3; Sample.id1; Sample.id2] None)
                 [Sample.id3; Sample.id1; Sample.id2] ∧
  (Sample.id2 ∉ blocksToDelete Cases.keep_newest true [Sample.id3; Sample.id1; Sample.id2]
                  Cases.tenant_one_shipped).
Proof.
  destruct (blocksToDelete_only_shipped Cases.keep_newest
              [Sample.id3; Sample.id1; Sample.id2] Cases.tenant_one_shipped)
    as (H1 & _).
  split_and!.
  - apply H1. eexists. split; [reflexivity|]. split.
    + apply (bool_decide_unpack _). vm_compute. reflexivity.
    + eexists. vm_compute. reflexivity.
  - apply (bool_decide_unpack _). vm_compute. reflexivity.
  - intros Hin. apply H1 in Hin as (d & _ & _ & [t Ht]). vm_compute in Ht. discriminate Ht.
Defined.

Lemma Sync_then_cache_witness :
  ∃ u', updateCachedShippedBlocks Cases.env_three Cases.tenant_one_shipped
          (Shipper.Sync Sample.cfg Cases.env_three Sample.fresh).2
        = (None, u', (Shipper.Sync Sample.cfg Cases.env_three Sample.fresh).2) ∧
        getOldestUnshippedBlockTime u' = 0%N ∧
        getOldestUnshippedBlockTime Cases.tenant_one_shipped = 1700000007200%N.
Proof.
  assert (Hw : Run.writes (Run.events_since Sample.fresh
                 (Shipper.Sync Sample.cfg Cases.env_three Sample.fresh).2)
               = [Cases.rec_three])
    by (vm_compute; reflexivity).
  destruct (Sync_then_cache Sample.cfg Cases.env_three Cases.env_three Sample.fresh
              Cases.tenant_one_shipped
              (Sample.mkSampleDB "/data/tenant-1" [] 0 [Sample.id3; Sample.id1; Sample.id2] None)
              Cases.rec_three) as (H1 & _ & _ & H4).
  - reflexivity.
  - reflexivity.
  - reflexivity.
  - rewrite Hw. apply list_elem_of_here.
  - eexists. split; [exact H1|]. split; [|vm_compute; reflexivity].
    apply H4. clear. intros b Hb.
    assert (Hl : Blocks Cases.tenant_one_shipped = [Sample.id3; Sample.id1; Sample.id2])
      by reflexivity.
    rewrite Hl in Hb.
    repeat (apply elem_of_cons in Hb as [->|Hb]; [vm_compute; by eexists|]).
    by apply elem_of_nil in Hb.
Defined.

Lemma series_admission_witness :
  PreCreation (ErrNew "max series reached") Cases.tenant_one_shipped Cases.accounts
    Cases.up_series = None ∧
  PostCreation Cases.up_series Cases.accounts
    = mkAccounting (Some 100) (Some (mkInstanceLimits 1000)) 8 {[ "up" := 1 ]} ∧
  PreCreation (ErrNew "max series reached") Cases.tenant_one_shipped Cases.accounts
    Cases.nameless_series = Some (ErrNew "no metric name label").
Proof.
  assert (Hpre : PreCreation (ErrNew "max series reached") Cases.tenant_one_shipped
                   Cases.accounts Cases.up_series = None) by (vm_compute; reflexivity).
  split; [exact Hpre|]. split; [|vm_compute; reflexivity].
  destruct (series_admission (ErrNew "max series reached") Cases.tenant_one_shipped
              Cases.accounts Cases.up_series) as (_ & H2 & _).
  destruct (H2 100 eq_refl Hpre) as (name & Hn & _ & _ & _ & Hpost).
  rewrite Hpost. injection Hn as <-. vm_compute. reflexivity.
Defined.

Lemma created_then_deleted_witness :
  instanceSeriesCount
    (PostDeletion [Cases.up_series; Cases.nameless_series]
       (PostCreation Cases.nameless_series (PostCreation Cases.up_series Cases.accounts)))
  = 7.
Proof.
  apply (created_then_deleted [Cases.up_series; Cases.nameless_series] Cases.accounts).
  vm_compute. split; [discriminate|reflexivity].
Defined.

Lemma compactHead_around_zero_witness :
  compactHead 0 Sample.two_hours (Sample.tenant (OnDisk Cases.db_around_zero) active 0)
    = Some (Returned None,
            Sample.tenant (OnDisk (Sample.mkSampleDB "/data/tenant-1" [] 2 [] None)) active 0,
            [(-5000000, 5000000)]) ∧
  Sample.two_hours < 5000000 - -5000000.
Proof.
  split; [|reflexivity].
  destruct (compactHead_around_zero
              (Sample.tenant (OnDisk Cases.db_around_zero) active 0)
              Cases.db_around_zero 0 Sample.two_hours) as (_ & _ & H).
  - reflexivity.
  - reflexivity.
  - reflexivity.
  - reflexivity.
  - vm_compute. split; [discriminate|reflexivity].
  - vm_compute. split; reflexivity.
  - vm_compute. split; reflexivity.
  - rewrite H. vm_compute. reflexivity.
Defined.

End IngesterMore.
